(** * Smart-transcriber: processing queue, transcription client, knowledge store

    A shallow embedding of the parts of the application that carry its
    stated properties:

    - [services/geminiService.ts]: [processMedia], its retry loop, the
      repair of truncated JSON and the local derivation of [fullText];
    - [App.tsx]: the processing queue ([handleStartUpload], the scheduling
      effect, [processQueueItem]) and the recording store
      ([addRecording], [updateRecording], [deleteRecording], and the
      mount effect that loads the stored recordings);
    - [components/KnowledgeBase.tsx]: [toggleBookmark];
    - [components/Dashboard.tsx]: [handleRenameSpeaker].

    JavaScript strings are sequences of UTF-16 code units; React state
    is threaded explicitly; what the program asks of its environment
    (the remote model, the JSON parser of the engine, the clock, the
    UUID generator) appears as a parameter of the section that uses it. *)

From Stdlib Require Import String Ascii DecimalString DecimalNat.
From Stdlib Require Import List ZArith NArith Bool Lia FinFun Sorted.
Import ListNotations.

Set Implicit Arguments.

(* ------------------------------------------------------------------ *)
(** ** JavaScript strings *)

Module JS.

(** A string value: its UTF-16 code units, in order. *)
Definition jsstring := list N.

(** A source-code literal (all literals of the program are ASCII). *)
Definition lit (s : string) : jsstring :=
  map N_of_ascii (list_ascii_of_string s).

Fixpoint eqb (a b : jsstring) : bool :=
  match a, b with
  | [], [] => true
  | x :: a', y :: b' => N.eqb x y && eqb a' b'
  | _, _ => false
  end.

(** [isPrefix p s]: [s] begins with the code units of [p]. *)
Fixpoint isPrefix (p s : jsstring) : bool :=
  match p, s with
  | [], _ => true
  | x :: p', y :: s' => N.eqb x y && isPrefix p' s'
  | _ :: _, [] => false
  end.

(** [String.prototype.startsWith]. *)
Definition startsWith (s p : jsstring) : bool := isPrefix p s.

(** [String.prototype.includes]: [p] occurs somewhere in [s]. *)
Fixpoint includes (s p : jsstring) : bool :=
  isPrefix p s ||
  match s with
  | [] => false
  | _ :: s' => includes s' p
  end.

(** [String.prototype.endsWith]: the last [length p] code units of [s]
    are those of [p]. *)
Definition endsWith (s p : jsstring) : bool :=
  (length p <=? length s)%nat && eqb (skipn (length s - length p) s) p.

(** WhiteSpace and LineTerminator code points of ECMAScript, the ones
    [trim] strips. *)
Definition isWhiteSpace (c : N) : bool :=
  ((9 <=? c) && (c <=? 13)          (* TAB LF VT FF CR *)
   || (c =? 32)                     (* SP *)
   || (c =? 160)                    (* NBSP *)
   || (c =? 5760)                   (* U+1680 *)
   || ((8192 <=? c) && (c <=? 8202))  (* U+2000 .. U+200A *)
   || (c =? 8232) || (c =? 8233)    (* LS PS *)
   || (c =? 8239)                   (* U+202F *)
   || (c =? 8287)                   (* U+205F *)
   || (c =? 12288)                  (* U+3000 *)
   || (c =? 65279))%N.              (* U+FEFF *)

Fixpoint trimStart (s : jsstring) : jsstring :=
  match s with
  | c :: s' => if isWhiteSpace c then trimStart s' else s
  | [] => []
  end.

Definition trimEnd (s : jsstring) : jsstring := rev (trimStart (rev s)).

(** [String.prototype.trim]. *)
Definition trim (s : jsstring) : jsstring := trimEnd (trimStart s).

(** [Array.prototype.join] on an array of strings. *)
Fixpoint join (sep : jsstring) (l : list jsstring) : jsstring :=
  match l with
  | [] => []
  | [x] => x
  | x :: l' => x ++ sep ++ join sep l'
  end.

(** Decimal rendering of an integral number in a template literal. *)
Definition ofNat (n : nat) : jsstring :=
  lit (NilZero.string_of_uint (Nat.to_uint n)).

Definition ofZ (z : Z) : jsstring :=
  lit (NilZero.string_of_int (Z.to_int z)).

(** Truthiness of an optional string: [undefined] and the empty
    string are falsy. *)
Definition truthy (o : option jsstring) : bool :=
  match o with
  | Some (_ :: _) => true
  | _ => false
  end.

(** [o || d] for an optional string [o]. *)
Definition orElse (o : option jsstring) (d : jsstring) : jsstring :=
  match o with
  | Some (c :: s) => c :: s
  | _ => d
  end.

(** A value interpolated in a template literal: [undefined] prints as
    the nine letters of its name. *)
Definition interp (o : option jsstring) : jsstring :=
  match o with
  | Some s => s
  | None => lit "undefined"
  end.

(** [a === b] on optional strings. *)
Definition strictEq (a b : option jsstring) : bool :=
  match a, b with
  | Some x, Some y => eqb x y
  | None, None => true
  | _, _ => false
  end.

End JS.

Import JS.

(* ------------------------------------------------------------------ *)
(** ** Data model ([types.ts] and the [QueueItem] of [App.tsx]) *)

Module Attendee.
Record t := { name : jsstring; company : jsstring }.
End Attendee.

(** ['English' | 'Hindi' | 'Marathi' | 'Mixed'] *)
Inductive Language := English | Hindi | Marathi | Mixed.

Module TranscriptSegment.
Record t := {
  id : jsstring;
  timestamp : jsstring;
  speaker : option jsstring;
  text : jsstring;
  translatedText : option jsstring;
  language : option Language
}.

(** [{ ...seg, speaker: newName }] *)
Definition withSpeaker (seg : t) (newName : jsstring) : t :=
  {| id := id seg; timestamp := timestamp seg; speaker := Some newName;
     text := text seg; translatedText := translatedText seg;
     language := language seg |}.
End TranscriptSegment.

Module Recording.
Record t := {
  id : jsstring;
  name : jsstring;
  projectName : jsstring;
  subject : jsstring;
  transcript : list TranscriptSegment.t;
  fullText : jsstring;
  dateCreated : jsstring;
  meetingDate : jsstring;
  remarks : option jsstring;
  isBookmarked : option bool;
  mediaUrl : option jsstring;
  attendees : option (list Attendee.t)
}.

(** [{ ...rec, isBookmarked: b }] *)
Definition withIsBookmarked (rec : t) (b : bool) : t :=
  {| id := id rec; name := name rec; projectName := projectName rec;
     subject := subject rec; transcript := transcript rec;
     fullText := fullText rec; dateCreated := dateCreated rec;
     meetingDate := meetingDate rec; remarks := remarks rec;
     isBookmarked := Some b; mediaUrl := mediaUrl rec;
     attendees := attendees rec |}.

(** [{ ...rec, transcript: tr, fullText: ft }] *)
Definition withTranscript (rec : t) (tr : list TranscriptSegment.t)
    (ft : jsstring) : t :=
  {| id := id rec; name := name rec; projectName := projectName rec;
     subject := subject rec; transcript := tr; fullText := ft;
     dateCreated := dateCreated rec; meetingDate := meetingDate rec;
     remarks := remarks rec; isBookmarked := isBookmarked rec;
     mediaUrl := mediaUrl rec; attendees := attendees rec |}.
End Recording.

(** [Omit<Recording, 'id' | 'dateCreated'>], the argument of
    [addRecording]. *)
Module RecordingInput.
Record t := {
  name : jsstring;
  projectName : jsstring;
  subject : jsstring;
  transcript : list TranscriptSegment.t;
  fullText : jsstring;
  meetingDate : jsstring;
  remarks : option jsstring;
  isBookmarked : option bool;
  mediaUrl : option jsstring;
  attendees : option (list Attendee.t)
}.
End RecordingInput.

(** The browser's [File]: its name, its MIME type and its bytes. *)
Module File.
Record t := { name : jsstring; type : jsstring; bytes : list N }.
End File.

(** ['pending' | 'processing' | 'done' | 'error'] *)
Inductive Status := pending | processing | done | error.

Definition Status_eqb (a b : Status) : bool :=
  match a, b with
  | pending, pending | processing, processing
  | done, done | error, error => true
  | _, _ => false
  end.

Module QueueItem.
Record t := {
  id : jsstring;
  name : jsstring;
  status : Status;
  progress : option jsstring;
  projectName : jsstring;
  file : File.t
}.

(** [{ ...q, status: st }] *)
Definition withStatus (q : t) (st : Status) : t :=
  {| id := id q; name := name q; status := st; progress := progress q;
     projectName := projectName q; file := file q |}.
End QueueItem.

(** ['dashboard' | 'knowledge_base'] *)
Inductive AppTab := DASHBOARD | KNOWLEDGE_BASE.

(* ------------------------------------------------------------------ *)
(** ** Exceptions *)

(** A thrown [Error] object, as far as the program looks at it: its
    [message], which [err.message?.includes] tolerates to be absent. *)
Record JsError := { message : option jsstring }.

(** How a call ends: with a value or with a thrown error. *)
Inductive completion (A : Type) :=
| Return (a : A)
| Throw (e : JsError).

Arguments Return {A} a.
Arguments Throw {A} e.

(** [new Error(msg)] *)
Definition newError (msg : string) : JsError := {| message := Some (lit msg) |}.

(* ------------------------------------------------------------------ *)
(** ** [services/geminiService.ts] *)

Module GeminiService.

(** One element of [data.segments], before it receives its [id]. *)
Module RawSegment.
Record t := {
  timestamp : jsstring;
  speaker : option jsstring;
  text : jsstring;
  translatedText : option jsstring;
  language : option Language
}.
End RawSegment.

(** The parsed body [data], read through the response schema the
    request declares: an object with a [subject] string and an array of
    [segments] whose members are strings.  [subject] and [segments] may
    be missing, as [data.subject || ...] and [data.segments || []]
    provide for.  [fullText] is not part of the schema any more; the
    field is kept here because the remote model may still send it. *)
Module ResponseData.
Record t := {
  subject : option jsstring;
  segments : option (list RawSegment.t);
  fullText : option jsstring
}.
End ResponseData.

(** What [ai.models.generateContent] resolves to: [response.text] is
    [string | undefined]. *)
Module Response.
Record t := { text : option jsstring }.
End Response.

(** The value [processMedia] resolves to. *)
Module Result.
Record t := {
  transcript : list TranscriptSegment.t;
  fullText : jsstring;
  subject : jsstring
}.
End Result.

(** The environment of a call.
    - [generateContent k media mime]: how the [k]-th request to the
      remote model ends;
    - [JSON_parse]: the parser of the engine, which throws a
      [SyntaxError] whose message is the engine's;
    - [Date_now k idx]: the clock read for segment [idx] of
      attempt [k]. *)
Record Env := {
  generateContent : nat -> jsstring -> jsstring -> completion Response.t;
  JSON_parse : jsstring -> completion ResponseData.t;
  Date_now : nat -> nat -> Z
}.

(** What a call does to its environment, in order. *)
Inductive io :=
| Request (k : nat)          (* a call of generateContent *)
| Parse (text : jsstring)    (* a call of JSON.parse *)
| Sleep (ms : Z).            (* an awaited setTimeout *)

Definition isSleep (e : io) : bool :=
  match e with Sleep _ => true | _ => false end.
Definition isRequest (e : io) : bool :=
  match e with Request _ => true | _ => false end.
Definition isParse (e : io) : bool :=
  match e with Parse _ => true | _ => false end.

Definition sleeps (tr : list io) : nat := length (filter isSleep tr).
Definition requests (tr : list io) : nat := length (filter isRequest tr).
Definition parses (tr : list io) : nat := length (filter isParse tr).

(** The repair of the [catch (parseError)] branch. *)
Definition repair (text : jsstring) : jsstring :=
  let repairedText := trim text in
  if negb (endsWith repairedText (lit "}")) then
    if negb (endsWith repairedText (lit "]")) then repairedText ++ lit "]}"
    else repairedText ++ lit "}"
  else repairedText.

(** [data = JSON.parse(text)], with the inner [try]/[catch]. *)
Definition parseData (E : Env) (text : jsstring)
    : completion ResponseData.t * list io :=
  match JSON_parse E text with
  | Return data => (Return data, [Parse text])
  | Throw parseError =>
      (JSON_parse E (repair text), [Parse text; Parse (repair text)])
  end.

(** [`seg-${idx}-${Date.now()}`] *)
Definition segmentId (idx : nat) (now : Z) : jsstring :=
  lit "seg-" ++ ofNat idx ++ lit "-" ++ ofZ now.

(** [(s, idx) => ({ ...s, id: ... })] *)
Definition withId (E : Env) (k idx : nat) (s : RawSegment.t)
    : TranscriptSegment.t :=
  {| TranscriptSegment.id := segmentId idx (Date_now E k idx);
     TranscriptSegment.timestamp := RawSegment.timestamp s;
     TranscriptSegment.speaker := RawSegment.speaker s;
     TranscriptSegment.text := RawSegment.text s;
     TranscriptSegment.translatedText := RawSegment.translatedText s;
     TranscriptSegment.language := RawSegment.language s |}.

(** [.map((s, idx) => ...)], from index [idx] on. *)
Fixpoint mapSegments (E : Env) (k idx : nat) (l : list RawSegment.t)
    : list TranscriptSegment.t :=
  match l with
  | [] => []
  | s :: l' => withId E k idx s :: mapSegments E k (S idx) l'
  end.

(** [`[${s.timestamp}] ${s.speaker || 'Speaker'}: ${s.text}`] *)
Definition segmentLine (s : TranscriptSegment.t) : jsstring :=
  lit "[" ++ TranscriptSegment.timestamp s ++ lit "] "
    ++ orElse (TranscriptSegment.speaker s) (lit "Speaker")
    ++ lit ": " ++ TranscriptSegment.text s.

(** ['\n'] *)
Definition newline : jsstring := [10%N].

(** The part of the [try] block after [data] is known. *)
Definition buildResult (E : Env) (k : nat) (data : ResponseData.t)
    : Result.t :=
  let segments :=
    mapSegments E k 0
      (match ResponseData.segments data with Some l => l | None => [] end) in
  let fullText := join newline (map segmentLine segments) in
  {| Result.subject := orElse (ResponseData.subject data) (lit "Untitled Recording");
     Result.transcript := segments;
     Result.fullText := fullText |}.

(** The [try] block: one request and what is made of its response. *)
Definition attempt (E : Env) (mediaBase64 mimeType : jsstring) (k : nat)
    : completion Result.t * list io :=
  match generateContent E k mediaBase64 mimeType with
  | Throw err => (Throw err, [Request k])
  | Return response =>
      match Response.text response with
      | None | Some [] =>
          (Throw (newError "Empty response from AI model"), [Request k])
      | Some text =>
          match parseData E text with
          | (Throw err, tr) => (Throw err, Request k :: tr)
          | (Return data, tr) => (Return (buildResult E k data), Request k :: tr)
          end
      end
  end.

(** The condition of the [catch] block beside [retries > 0]. *)
Definition transient (err : JsError) : bool :=
  match message err with
  | Some m =>
      includes m (lit "500") || includes m (lit "xhr")
      || includes m (lit "Unterminated")
  | None => false
  end.

(** [processMedia], started when [k] requests were already made.
    [n] bounds the recursion; [Z.to_nat retries] is enough, since
    every recursive call has [retries > 0] and passes [retries - 1]. *)
Fixpoint processMediaFrom (E : Env) (mediaBase64 mimeType : jsstring)
    (n k : nat) (retries : Z) : completion Result.t * list io :=
  match attempt E mediaBase64 mimeType k with
  | (Return res, tr) => (Return res, tr)
  | (Throw err, tr) =>
      if (0 <? retries)%Z && transient err then
        match n with
        | S n' =>
            let (r, tr') :=
              processMediaFrom E mediaBase64 mimeType n' (S k) (retries - 1) in
            (r, tr ++ Sleep 3000 :: tr')
        | O => (Throw err, tr)
        end
      else (Throw err, tr)
  end.

Definition processMedia (E : Env) (mediaBase64 mimeType : jsstring)
    (k : nat) (retries : Z) : completion Result.t * list io :=
  processMediaFrom E mediaBase64 mimeType (Z.to_nat retries) k retries.

(** The default value of the parameter [retries]. *)
Definition defaultRetries : Z := 2.

(** The older copy of the service kept in the repository: no repair,
    a delay of two seconds, no ['Unterminated'] pattern, and a
    [fullText] taken from the response. *)
Module Legacy.

Definition buildResult (E : Env) (k : nat) (data : ResponseData.t)
    : Result.t :=
  {| Result.subject := orElse (ResponseData.subject data) (lit "Untitled Recording");
     Result.transcript :=
       mapSegments E k 0
         (match ResponseData.segments data with Some l => l | None => [] end);
     Result.fullText := orElse (ResponseData.fullText data) [] |}.

Definition attempt (E : Env) (mediaBase64 mimeType : jsstring) (k : nat)
    : completion Result.t * list io :=
  match generateContent E k mediaBase64 mimeType with
  | Throw err => (Throw err, [Request k])
  | Return response =>
      match Response.text response with
      | None | Some [] =>
          (Throw (newError "Empty response from AI model"), [Request k])
      | Some text =>
          match JSON_parse E text with
          | Throw err => (Throw err, [Request k; Parse text])
          | Return data =>
              (Return (buildResult E k data), [Request k; Parse text])
          end
      end
  end.

Definition transient (err : JsError) : bool :=
  match message err with
  | Some m => includes m (lit "500") || includes m (lit "xhr")
  | None => false
  end.

Fixpoint processMediaFrom (E : Env) (mediaBase64 mimeType : jsstring)
    (n k : nat) (retries : Z) : completion Result.t * list io :=
  match attempt E mediaBase64 mimeType k with
  | (Return res, tr) => (Return res, tr)
  | (Throw err, tr) =>
      if (0 <? retries)%Z && transient err then
        match n with
        | S n' =>
            let (r, tr') :=
              processMediaFrom E mediaBase64 mimeType n' (S k) (retries - 1) in
            (r, tr ++ Sleep 2000 :: tr')
        | O => (Throw err, tr)
        end
      else (Throw err, tr)
  end.

Definition processMedia (E : Env) (mediaBase64 mimeType : jsstring)
    (k : nat) (retries : Z) : completion Result.t * list io :=
  processMediaFrom E mediaBase64 mimeType (Z.to_nat retries) k retries.

End Legacy.

End GeminiService.

(* ------------------------------------------------------------------ *)
(** ** [App.tsx]: recording store and processing queue *)

Module App.

(** The React state of [App] the operations below read or write,
    together with the number of UUIDs drawn so far from
    [crypto.randomUUID]. *)
Record State := {
  activeTab : AppTab;
  recordings : list Recording.t;
  selectedRecording : option Recording.t;
  processingQueue : list QueueItem.t;
  isProcessingGlobal : bool;
  uuidsDrawn : nat
}.

Definition initial : State :=
  {| activeTab := DASHBOARD; recordings := []; selectedRecording := None;
     processingQueue := []; isProcessingGlobal := false; uuidsDrawn := 0 |}.

Definition setActiveTab (t : AppTab) (st : State) : State :=
  {| activeTab := t; recordings := recordings st;
     selectedRecording := selectedRecording st;
     processingQueue := processingQueue st;
     isProcessingGlobal := isProcessingGlobal st;
     uuidsDrawn := uuidsDrawn st |}.

Definition setRecordings (f : list Recording.t -> list Recording.t)
    (st : State) : State :=
  {| activeTab := activeTab st; recordings := f (recordings st);
     selectedRecording := selectedRecording st;
     processingQueue := processingQueue st;
     isProcessingGlobal := isProcessingGlobal st;
     uuidsDrawn := uuidsDrawn st |}.

Definition setSelectedRecording (r : option Recording.t) (st : State) : State :=
  {| activeTab := activeTab st; recordings := recordings st;
     selectedRecording := r;
     processingQueue := processingQueue st;
     isProcessingGlobal := isProcessingGlobal st;
     uuidsDrawn := uuidsDrawn st |}.

Definition setProcessingQueue (f : list QueueItem.t -> list QueueItem.t)
    (st : State) : State :=
  {| activeTab := activeTab st; recordings := recordings st;
     selectedRecording := selectedRecording st;
     processingQueue := f (processingQueue st);
     isProcessingGlobal := isProcessingGlobal st;
     uuidsDrawn := uuidsDrawn st |}.

Definition setIsProcessingGlobal (b : bool) (st : State) : State :=
  {| activeTab := activeTab st; recordings := recordings st;
     selectedRecording := selectedRecording st;
     processingQueue := processingQueue st;
     isProcessingGlobal := b;
     uuidsDrawn := uuidsDrawn st |}.

Definition drawUuids (n : nat) (st : State) : State :=
  {| activeTab := activeTab st; recordings := recordings st;
     selectedRecording := selectedRecording st;
     processingQueue := processingQueue st;
     isProcessingGlobal := isProcessingGlobal st;
     uuidsDrawn := n + uuidsDrawn st |}.

(** [selectedRecording?.id === id] *)
Definition selectedHasId (st : State) (id : jsstring) : bool :=
  match selectedRecording st with
  | Some r => eqb (Recording.id r) id
  | None => false
  end.

Section WithUuid.

(** [crypto.randomUUID()]: [randomUUID n] is the value of the call made
    when [n] identifiers were drawn before. *)
Variable randomUUID : nat -> jsstring.

(** [addRecording]; [now] is [new Date().toLocaleString()]. *)
Definition addRecording (rec : RecordingInput.t) (now : jsstring) (st : State)
    : State * Recording.t :=
  let newRec :=
    {| Recording.id := randomUUID (uuidsDrawn st);
       Recording.name := RecordingInput.name rec;
       Recording.projectName := RecordingInput.projectName rec;
       Recording.subject := RecordingInput.subject rec;
       Recording.transcript := RecordingInput.transcript rec;
       Recording.fullText := RecordingInput.fullText rec;
       Recording.dateCreated := now;
       Recording.meetingDate := RecordingInput.meetingDate rec;
       Recording.remarks := RecordingInput.remarks rec;
       Recording.isBookmarked := RecordingInput.isBookmarked rec;
       Recording.mediaUrl := RecordingInput.mediaUrl rec;
       Recording.attendees := RecordingInput.attendees rec |} in
  (setRecordings (fun prev => newRec :: prev) (drawUuids 1 st), newRec).

(** [files.map(file => ({ id: crypto.randomUUID(), ... }))], the first
    identifier being the [n]-th of the generator. *)
Fixpoint newItems (n : nat) (files : list File.t) (projectName : jsstring)
    : list QueueItem.t :=
  match files with
  | [] => []
  | file :: files' =>
      {| QueueItem.id := randomUUID n;
         QueueItem.name := File.name file;
         QueueItem.status := pending;
         QueueItem.progress := None;
         QueueItem.projectName := projectName;
         QueueItem.file := file |}
      :: newItems (S n) files' projectName
  end.

(** [handleStartUpload] *)
Definition handleStartUpload (files : list File.t) (projectName : jsstring)
    (st : State) : State :=
  let items := newItems (uuidsDrawn st) files projectName in
  setActiveTab DASHBOARD
    (setProcessingQueue (fun prev => prev ++ items)
       (drawUuids (length files) st)).

End WithUuid.

(** [updateRecording] *)
Definition updateRecording (updatedRec : Recording.t) (st : State) : State :=
  let st' :=
    setRecordings
      (map (fun r => if eqb (Recording.id r) (Recording.id updatedRec)
                     then updatedRec else r)) st in
  if selectedHasId st (Recording.id updatedRec)
  then setSelectedRecording (Some updatedRec) st'
  else st'.

(** [deleteRecording] *)
Definition deleteRecording (id : jsstring) (st : State) : State :=
  let st' :=
    setRecordings (filter (fun r => negb (eqb (Recording.id r) id))) st in
  if selectedHasId st id then setSelectedRecording None st' else st'.

(** [handleOpenRecording] *)
Definition handleOpenRecording (rec : Recording.t) (st : State) : State :=
  setActiveTab DASHBOARD (setSelectedRecording (Some rec) st).

(** [prev.map(q => q.id === item.id ? { ...q, status: st } : q)], the
    update every phase of [processQueueItem] makes. *)
Definition markStatus (item : QueueItem.t) (s : Status)
    (queue : list QueueItem.t) : list QueueItem.t :=
  map (fun q => if eqb (QueueItem.id q) (QueueItem.id item)
                then QueueItem.withStatus q s else q) queue.

Definition hasStatus (s : Status) (q : QueueItem.t) : bool :=
  Status_eqb (QueueItem.status q) s.

(** [processingQueue.find(q => q.status === 'pending')] *)
Definition nextItem (queue : list QueueItem.t) : option QueueItem.t :=
  find (hasStatus pending) queue.

(** [processingQueue.some(q => q.status === 'processing')] *)
Definition someProcessing (queue : list QueueItem.t) : bool :=
  existsb (hasStatus processing) queue.

(** [processingQueue.some(q => q.status === 'done' || q.status === 'error')] *)
Definition hasDone (queue : list QueueItem.t) : bool :=
  existsb (fun q => hasStatus done q || hasStatus error q) queue.

(** What a run of the scheduling effect starts besides its state
    updates. *)
Inductive Started :=
| StartedJob (item : QueueItem.t) (queueLength : nat)
      (* processQueueItem(item), whose closure sees a queue of this length *)
| StartedTimer  (* setTimeout(() => setProcessingQueue([]), 5000) *)
| StartedNothing.

(** The scheduling [useEffect], run on the rendered state [st]; the
    first statement of [processQueueItem] is part of the run. *)
Definition schedulingEffect (st : State) : State * Started :=
  let queue := processingQueue st in
  match nextItem queue with
  | Some item =>
      if negb (someProcessing queue) then
        (setProcessingQueue (markStatus item processing)
           (setIsProcessingGlobal true st),
         StartedJob item (length queue))
      else (st, StartedNothing)
  | None =>
      if negb (someProcessing queue) then
        let st' := setIsProcessingGlobal false st in
        if hasDone queue && negb (isProcessingGlobal st)
        then (st', StartedTimer)
        else (st', StartedNothing)
      else (st, StartedNothing)
  end.

(** The part of the mount effect that concerns the recordings:
    [storedRecordings] is [None] when
    [localStorage.getItem('videoscribe_recordings')] is [null] or the
    empty string, and otherwise what [JSON.parse] makes of it. *)
Definition mountEffect (storedRecordings : option (list Recording.t))
    (st : State) : State :=
  match storedRecordings with
  | Some l => setRecordings (fun _ => l) st
  | None => st
  end.

(** The timer of the effect fires. *)
Definition sweep (st : State) : State := setProcessingQueue (fun _ => []) st.

Section WithUuidJobs.

Variable randomUUID : nat -> jsstring.

(** The rest of [processQueueItem] after [processMedia] resolved with
    [result]: [today] is [new Date().toLocaleDateString()], [url] the
    object URL of the file, [now] the creation time, and [queueLength]
    the length of the queue the closure was created with. *)
Definition jobSucceeded (item : QueueItem.t) (result : GeminiService.Result.t)
    (today url now : jsstring) (queueLength : nat) (st : State) : State :=
  let (st1, newRec) :=
    addRecording randomUUID
      {| RecordingInput.name := File.name (QueueItem.file item);
         RecordingInput.projectName := QueueItem.projectName item;
         RecordingInput.subject := GeminiService.Result.subject result;
         RecordingInput.transcript := GeminiService.Result.transcript result;
         RecordingInput.fullText := GeminiService.Result.fullText result;
         RecordingInput.meetingDate := today;
         RecordingInput.remarks := None;
         RecordingInput.isBookmarked := None;
         RecordingInput.mediaUrl := Some url;
         RecordingInput.attendees := None |} now st in
  let st2 := setProcessingQueue (markStatus item done) st1 in
  if Nat.eqb queueLength 1 then setSelectedRecording (Some newRec) st2 else st2.

(** The [catch] branch of [processQueueItem]. *)
Definition jobFailed (item : QueueItem.t) (st : State) : State :=
  setProcessingQueue (markStatus item error) st.

(** What can happen to the application; [Mount] is the run of the
    mount effect, with what it finds in local storage. *)
Inductive Event :=
| StartUpload (files : list File.t) (projectName : jsstring)
| EffectRuns
| JobSucceeds (item : QueueItem.t) (result : GeminiService.Result.t)
    (today url now : jsstring) (queueLength : nat)
| JobFails (item : QueueItem.t)
| TimerFires
| AddRecording (rec : RecordingInput.t) (now : jsstring)
| UpdateRecording (rec : Recording.t)
| DeleteRecording (id : jsstring)
| OpenRecording (rec : Recording.t)
| ClearInitial
| SwitchTab (t : AppTab)
| Mount (storedRecordings : option (list Recording.t)).

Definition step (st : State) (e : Event) : State :=
  match e with
  | StartUpload files projectName => handleStartUpload randomUUID files projectName st
  | EffectRuns => fst (schedulingEffect st)
  | JobSucceeds item result today url now n =>
      jobSucceeded item result today url now n st
  | JobFails item => jobFailed item st
  | TimerFires => sweep st
  | AddRecording rec now => fst (addRecording randomUUID rec now st)
  | UpdateRecording rec => updateRecording rec st
  | DeleteRecording id => deleteRecording id st
  | OpenRecording rec => handleOpenRecording rec st
  | ClearInitial => setSelectedRecording None st
  | SwitchTab t => setActiveTab t st
  | Mount storedRecordings => mountEffect storedRecordings st
  end.

(** The state after a sequence of events, from [initial]. *)
Definition run (events : list Event) : State := fold_left step events initial.

(** Every snapshot the presentation layer can observe is the state
    after some sequence of events. *)
Definition reachable (st : State) : Prop := exists events, run events = st.

(** Every identifier in the queue was drawn from the generator. *)
Definition idsDrawn (st : State) : Prop :=
  Forall (fun q => exists n, n < uuidsDrawn st /\ QueueItem.id q = randomUUID n)
         (processingQueue st).

(** What holds of the queue in every state the application reaches. *)
Definition queueInvariant (st : State) : Prop :=
  NoDup (map QueueItem.id (processingQueue st))
  /\ idsDrawn st
  /\ length (filter (hasStatus processing) (processingQueue st)) <= 1.

(** The queue is in insertion order: its identifiers are those drawn
    at strictly increasing positions of the generator. *)
Definition insertionOrdered (st : State) : Prop :=
  exists ns,
    map QueueItem.id (processingQueue st) = map randomUUID ns
    /\ StronglySorted lt ns
    /\ Forall (fun n => n < uuidsDrawn st) ns.

(** What holds of the store as long as nothing is loaded from local
    storage: the identifiers of its recordings are distinct and were
    drawn from the generator. *)
Definition storeInvariant (st : State) : Prop :=
  NoDup (map Recording.id (recordings st))
  /\ Forall (fun r => exists n, n < uuidsDrawn st /\ Recording.id r = randomUUID n)
            (recordings st).

(** The identifiers of [l] are distinct, and none of them is a value
    the generator gives at position [d] or later. *)
Definition distinctAndUnused (d : nat) (l : list Recording.t) : Prop :=
  NoDup (map Recording.id l)
  /\ forall n, d <= n -> ~ In (randomUUID n) (map Recording.id l).

(** What holds of the store in every state, loads included: the
    identifiers are distinct and the generator has not yet come to any
    of them. *)
Definition storeDistinct (st : State) : Prop :=
  distinctAndUnused (uuidsDrawn st) (recordings st).

(** The event loads nothing from local storage. *)
Definition loadsNothing (e : Event) : Prop :=
  match e with
  | Mount (Some _) => False
  | _ => True
  end.

(** What the event loads from local storage, if anything, are
    recordings with distinct identifiers that the generator never
    gives. *)
Definition loadsDistinct (e : Event) : Prop :=
  match e with
  | Mount (Some l) => distinctAndUnused 0 l
  | _ => True
  end.

End WithUuidJobs.

(** The number of elements of the queue in status [processing]. *)
Definition processingCount (queue : list QueueItem.t) : nat :=
  length (filter (hasStatus processing) queue).

End App.

(* ------------------------------------------------------------------ *)
(** ** [components/KnowledgeBase.tsx] *)

Module KnowledgeBase.

(** [!rec.isBookmarked]: an absent flag counts as [false]. *)
Definition notBookmarked (rec : Recording.t) : bool :=
  match Recording.isBookmarked rec with
  | Some b => negb b
  | None => true
  end.

(** [toggleBookmark], with [onUpdateRecording] bound to
    [App.updateRecording]. *)
Definition toggleBookmark (rec : Recording.t) (st : App.State) : App.State :=
  App.updateRecording (Recording.withIsBookmarked rec (notBookmarked rec)) st.

End KnowledgeBase.

(* ------------------------------------------------------------------ *)
(** ** [components/Dashboard.tsx] *)

Module Dashboard.

(** The local state of the component the rename touches or the
    synchronising effect fills (the chat and the attendee form are left
    out). *)
Record State := {
  activeRecording : option Recording.t;
  transcript : list TranscriptSegment.t;
  fullText : jsstring;
  subject : jsstring;
  projectName : jsstring;
  meetingDate : jsstring;
  remarks : jsstring;
  attendees : list Attendee.t;
  mediaUrl : option jsstring;
  isTranscribed : bool;
  editingSpeakerId : option jsstring
}.

Definition initial : State :=
  {| activeRecording := None; transcript := []; fullText := [];
     subject := []; projectName := []; meetingDate := []; remarks := [];
     attendees := []; mediaUrl := None; isTranscribed := false;
     editingSpeakerId := None |}.

(** The effect on [initialRecording]. *)
Definition syncInitial (initialRecording : option Recording.t) (d : State)
    : State :=
  match initialRecording with
  | Some r =>
      {| activeRecording := Some r;
         transcript := Recording.transcript r;
         fullText := Recording.fullText r;
         subject := Recording.subject r;
         projectName := Recording.projectName r;
         meetingDate := Recording.meetingDate r;
         remarks := orElse (Recording.remarks r) [];
         attendees := match Recording.attendees r with Some l => l | None => [] end;
         mediaUrl := match Recording.mediaUrl r with
                     | Some (c :: u) => Some (c :: u)
                     | _ => None
                     end;
         isTranscribed := true;
         editingSpeakerId := editingSpeakerId d |}
  | None => d
  end.

(** [transcript.find(s => s.id === segmentId)?.speaker] *)
Definition oldName (transcript : list TranscriptSegment.t)
    (segmentId : jsstring) : option jsstring :=
  match find (fun s => eqb (TranscriptSegment.id s) segmentId) transcript with
  | Some s => TranscriptSegment.speaker s
  | None => None
  end.

(** [updatedTranscript] *)
Definition renameIn (transcript : list TranscriptSegment.t)
    (segmentId newName : jsstring) : list TranscriptSegment.t :=
  map (fun seg =>
         if strictEq (TranscriptSegment.speaker seg) (oldName transcript segmentId)
         then TranscriptSegment.withSpeaker seg newName
         else seg) transcript.

(** [`[${s.timestamp}] ${s.speaker}: ${s.text}`] *)
Definition segmentLine (s : TranscriptSegment.t) : jsstring :=
  lit "[" ++ TranscriptSegment.timestamp s ++ lit "] "
    ++ interp (TranscriptSegment.speaker s)
    ++ lit ": " ++ TranscriptSegment.text s.

Definition fullTextOf (transcript : list TranscriptSegment.t) : jsstring :=
  join [10%N] (map segmentLine transcript).

Definition setEditingSpeakerId (v : option jsstring) (d : State) : State :=
  {| activeRecording := activeRecording d; transcript := transcript d;
     fullText := fullText d; subject := subject d;
     projectName := projectName d; meetingDate := meetingDate d;
     remarks := remarks d; attendees := attendees d; mediaUrl := mediaUrl d;
     isTranscribed := isTranscribed d; editingSpeakerId := v |}.

Definition setTranscriptAndFullText (tr : list TranscriptSegment.t)
    (ft : jsstring) (d : State) : State :=
  {| activeRecording := activeRecording d; transcript := tr;
     fullText := ft; subject := subject d;
     projectName := projectName d; meetingDate := meetingDate d;
     remarks := remarks d; attendees := attendees d; mediaUrl := mediaUrl d;
     isTranscribed := isTranscribed d; editingSpeakerId := editingSpeakerId d |}.

(** [handleRenameSpeaker]: the new local state and, when it is called,
    the argument of [onUpdateRecording]. *)
Definition handleRenameSpeaker (segmentId newName : jsstring) (d : State)
    : State * option Recording.t :=
  match trim newName with
  | [] => (setEditingSpeakerId None d, None)
  | _ :: _ =>
      let updatedTranscript := renameIn (transcript d) segmentId newName in
      let newFullText := fullTextOf updatedTranscript in
      let d' := setEditingSpeakerId None
                  (setTranscriptAndFullText updatedTranscript newFullText d) in
      match activeRecording d with
      | Some r =>
          (d', Some (Recording.withTranscript r updatedTranscript newFullText))
      | None => (d', None)
      end
  end.

(** The handler together with the store behind [onUpdateRecording]. *)
Definition renameSpeaker (segmentId newName : jsstring)
    (ds : State * App.State) : State * App.State :=
  let (d', call) := handleRenameSpeaker segmentId newName (fst ds) in
  match call with
  | Some r => (d', App.updateRecording r (snd ds))
  | None => (d', snd ds)
  end.

End Dashboard.

(* ------------------------------------------------------------------ *)
(** ** Environments that differ in the [fullText] of the response only *)

Module Agreement.

Import GeminiService.

(** Two parsed bodies with the same subject and the same segments. *)
Definition sameButFullText (d d' : ResponseData.t) : Prop :=
  ResponseData.subject d = ResponseData.subject d'
  /\ ResponseData.segments d = ResponseData.segments d'.

(** Two environments whose remote model, clock and parser agree, except
    that a body parsed by one may carry a [fullText] the other lacks or
    has with another value. *)
Definition agreeUpToFullText (E E' : Env) : Prop :=
  (forall k media mime,
      generateContent E k media mime = generateContent E' k media mime)
  /\ (forall k idx, Date_now E k idx = Date_now E' k idx)
  /\ (forall text,
        match JSON_parse E text, JSON_parse E' text with
        | Return d, Return d' => sameButFullText d d'
        | Throw e, Throw e' => e = e'
        | _, _ => False
        end).

End Agreement.

(* ------------------------------------------------------------------ *)
(** ** Concrete inputs used by the examples *)

Module Sample.

Import GeminiService.

(** The double quote, and a JSON string literal. *)
Definition dq : jsstring := [34%N].
Definition str (s : string) : jsstring := dq ++ lit s ++ dq.

Definition media : jsstring := lit "UklGRiQAAABXQVZF".
Definition mime : jsstring := lit "audio/wav".

(** The body of a well-formed response: an object with the subject
    [Support call], two segments and a [fullText].  The first segment is
    [00:01 / Agent / Hello]; the second, [00:05 / Namaste], has the
    empty string as its speaker label; the [fullText] is [MODEL TEXT],
    sent although the schema does not ask for one. *)
Definition goodText : jsstring :=
  lit "{" ++ str "subject" ++ lit ":" ++ str "Support call" ++ lit ","
    ++ str "segments" ++ lit ":[{"
    ++ str "timestamp" ++ lit ":" ++ str "00:01" ++ lit ","
    ++ str "speaker" ++ lit ":" ++ str "Agent" ++ lit ","
    ++ str "text" ++ lit ":" ++ str "Hello" ++ lit "},{"
    ++ str "timestamp" ++ lit ":" ++ str "00:05" ++ lit ","
    ++ str "speaker" ++ lit ":" ++ dq ++ dq ++ lit ","
    ++ str "text" ++ lit ":" ++ str "Namaste" ++ lit "}],"
    ++ str "fullText" ++ lit ":" ++ str "MODEL TEXT" ++ lit "}".

Definition goodData : ResponseData.t :=
  {| ResponseData.subject := Some (lit "Support call");
     ResponseData.segments :=
       Some [ {| RawSegment.timestamp := lit "00:01";
                 RawSegment.speaker := Some (lit "Agent");
                 RawSegment.text := lit "Hello";
                 RawSegment.translatedText := None;
                 RawSegment.language := None |};
              {| RawSegment.timestamp := lit "00:05";
                 RawSegment.speaker := Some [];
                 RawSegment.text := lit "Namaste";
                 RawSegment.translatedText := None;
                 RawSegment.language := None |} ];
     ResponseData.fullText := Some (lit "MODEL TEXT") |}.

(** The same body cut off inside the text of the second segment, after
    the letters [Nam], as a response that hit the output limit ends. *)
Definition truncatedText : jsstring := firstn 138 goodText.

(** The same body cut off right after the closing brace of the first
    segment. *)
Definition cutAfterSegment : jsstring := firstn 92 goodText.

(** The same body cut off right after the bracket that opens the
    array of segments. *)
Definition cutAfterBracket : jsstring := firstn 38 goodText.

Definition noSegmentsData : ResponseData.t :=
  {| ResponseData.subject := Some (lit "Support call");
     ResponseData.segments := Some [];
     ResponseData.fullText := None |}.

Definition syntaxError (msg : jsstring) : JsError := {| message := Some msg |}.

(** The parser of the engine on the texts above, with the messages V8
    gives; any other text is rejected as ending too early. *)
Definition parse (text : jsstring) : completion ResponseData.t :=
  if eqb text goodText then Return goodData
  else if eqb text (cutAfterBracket ++ lit "]}") then Return noSegmentsData
  else if eqb text truncatedText then
    Throw (syntaxError (lit "Unterminated string in JSON at position "
                          ++ ofNat (length truncatedText)))
  else if eqb text (truncatedText ++ lit "]}") then
    Throw (syntaxError (lit "Unterminated string in JSON at position "
                          ++ ofNat (length truncatedText + 2)))
  else Throw (syntaxError (lit "Unexpected end of JSON input")).

Definition clock (k idx : nat) : Z := 1700000000000 + Z.of_nat idx.

(** A server error of the remote service. *)
Definition serverError : JsError :=
  newError "got status: 500 Internal Server Error".

(** An error that matches no pattern. *)
Definition keyError : JsError :=
  newError "API key not valid. Please pass a valid API key.".

(** One transient error, then the well-formed response. *)
Definition flaky : Env :=
  {| generateContent := fun k _ _ =>
       match k with
       | O => Throw serverError
       | _ => Return {| Response.text := Some goodText |}
       end;
     JSON_parse := parse;
     Date_now := clock |}.

(** A service that answers every request with a server error. *)
Definition down : Env :=
  {| generateContent := fun _ _ _ => Throw serverError;
     JSON_parse := parse;
     Date_now := clock |}.

(** A service whose responses have no text. *)
Definition silent : Env :=
  {| generateContent := fun _ _ _ => Return {| Response.text := None |};
     JSON_parse := parse;
     Date_now := clock |}.

(** A service that rejects the key. *)
Definition denied : Env :=
  {| generateContent := fun _ _ _ => Throw keyError;
     JSON_parse := parse;
     Date_now := clock |}.

(** A truncated first response, then the well-formed one. *)
Definition truncatedOnce : Env :=
  {| generateContent := fun k _ _ =>
       match k with
       | O => Return {| Response.text := Some truncatedText |}
       | _ => Return {| Response.text := Some goodText |}
       end;
     JSON_parse := parse;
     Date_now := clock |}.

(** A response cut off between two segments. *)
Definition cutOnce : Env :=
  {| generateContent := fun _ _ _ =>
       Return {| Response.text := Some cutAfterSegment |};
     JSON_parse := parse;
     Date_now := clock |}.

(** A response cut off before the first segment. *)
Definition cutEarly : Env :=
  {| generateContent := fun _ _ _ =>
       Return {| Response.text := Some cutAfterBracket |};
     JSON_parse := parse;
     Date_now := clock |}.

(** A service that always sends the well-formed response. *)
Definition steady : Env :=
  {| generateContent := fun _ _ _ => Return {| Response.text := Some goodText |};
     JSON_parse := parse;
     Date_now := clock |}.

(** The well-formed response without its [fullText] member. *)
Definition goodDataNoFullText : ResponseData.t :=
  {| ResponseData.subject := ResponseData.subject goodData;
     ResponseData.segments := ResponseData.segments goodData;
     ResponseData.fullText := None |}.

(** The engine of the examples, reading the well-formed body without
    its [fullText] member. *)
Definition parseNoFullText (text : jsstring) : completion ResponseData.t :=
  if eqb text goodText then Return goodDataNoFullText else parse text.

Definition steadyNoFullText : Env :=
  {| generateContent := generateContent steady;
     JSON_parse := parseNoFullText;
     Date_now := clock |}.

(** The line of a segment as the words [[timestamp] speaker: text]
    read, with the speaker label of the segment as it is. *)
Definition lineAsWritten (s : TranscriptSegment.t) : jsstring :=
  lit "[" ++ TranscriptSegment.timestamp s ++ lit "] "
    ++ interp (TranscriptSegment.speaker s)
    ++ lit ": " ++ TranscriptSegment.text s.

(** The identifier generator of the examples: [uuid-0], [uuid-1], ... *)
Definition uuid (n : nat) : jsstring := lit "uuid-" ++ ofNat n.

Definition fileA : File.t :=
  {| File.name := lit "call-1.wav"; File.type := lit "audio/wav";
     File.bytes := [82; 73; 70; 70]%N |}.
Definition fileB : File.t :=
  {| File.name := lit "standup.mp4"; File.type := lit "video/mp4";
     File.bytes := [0; 0; 0; 24]%N |}.
Definition fileC : File.t :=
  {| File.name := lit "call-2.wav"; File.type := lit "audio/wav";
     File.bytes := [82; 73; 70; 70]%N |}.

Definition project : jsstring := lit "Acme onboarding".

(** Two files are submitted and the effect runs once. *)
Definition twoUploaded : list (App.Event) :=
  [App.StartUpload [fileA; fileB] project; App.EffectRuns].

(** The first job finishes, the effect runs, a third file arrives. *)
Definition busyDay : list (App.Event) :=
  twoUploaded ++
  [App.JobFails
     {| QueueItem.id := uuid 0; QueueItem.name := lit "call-1.wav";
        QueueItem.status := pending; QueueItem.progress := None;
        QueueItem.projectName := project; QueueItem.file := fileA |};
   App.StartUpload [fileC] project].

Definition seg (id ts : string) (sp : option jsstring) (tx : string)
    : TranscriptSegment.t :=
  {| TranscriptSegment.id := lit id; TranscriptSegment.timestamp := lit ts;
     TranscriptSegment.speaker := sp; TranscriptSegment.text := lit tx;
     TranscriptSegment.translatedText := None;
     TranscriptSegment.language := Some English |}.

Definition seg0 := seg "seg-0-1700000000000" "00:01" (Some (lit "Speaker 1")) "Good morning".
Definition seg1 := seg "seg-1-1700000000000" "00:04" (Some (lit "Speaker 2")) "Morning, shall we start?".
Definition seg2 := seg "seg-2-1700000000001" "00:09" (Some (lit "Speaker 1")) "Yes, the invoice first.".
Definition seg3 := seg "seg-3-1700000000001" "00:15" None "(inaudible)".

Definition talk : list TranscriptSegment.t := [seg0; seg1; seg2; seg3].

Definition recA : Recording.t :=
  {| Recording.id := lit "7d3f0c1e-0001"; Recording.name := lit "call-1.wav";
     Recording.projectName := project; Recording.subject := lit "Invoice review";
     Recording.transcript := talk;
     Recording.fullText := Dashboard.fullTextOf talk;
     Recording.dateCreated := lit "11/2/2026, 9:00:00 AM";
     Recording.meetingDate := lit "11/2/2026";
     Recording.remarks := None; Recording.isBookmarked := None;
     Recording.mediaUrl := Some (lit "blob:1"); Recording.attendees := None |}.

Definition recB : Recording.t :=
  {| Recording.id := lit "7d3f0c1e-0002"; Recording.name := lit "standup.mp4";
     Recording.projectName := project; Recording.subject := lit "Daily standup";
     Recording.transcript := [];
     Recording.fullText := [];
     Recording.dateCreated := lit "11/2/2026, 10:00:00 AM";
     Recording.meetingDate := lit "11/2/2026";
     Recording.remarks := Some (lit "short"); Recording.isBookmarked := Some true;
     Recording.mediaUrl := None; Recording.attendees := Some [] |}.

(** A store with two recordings, the first one selected. *)
Definition store : App.State :=
  {| App.activeTab := KNOWLEDGE_BASE; App.recordings := [recB; recA];
     App.selectedRecording := Some recA; App.processingQueue := [];
     App.isProcessingGlobal := false; App.uuidsDrawn := 2 |}.

(** The dashboard showing [recA]. *)
Definition dashboardA : Dashboard.State :=
  Dashboard.syncInitial (Some recA) Dashboard.initial.

(** A new name made of blanks only. *)
Definition blankName : jsstring := lit "   ".

End Sample.

(* ------------------------------------------------------------------ *)
(** ** [App.tsx]: a job from start to end, and the queue left alone *)

Module Jobs.

(** What [processQueueItem] has in hand once its awaits are over: how
    reading the file and [processMedia] ended, and the values of
    [new Date().toLocaleDateString()], [URL.createObjectURL(item.file)]
    and [new Date().toLocaleString()] it reads on success. *)
Record Awaited := {
  outcome : completion GeminiService.Result.t;
  today : jsstring;
  url : jsstring;
  now : jsstring
}.

(** ['done'] after the [try] block, ['error'] after the [catch]. *)
Definition verdict (a : Awaited) : Status :=
  match outcome a with
  | Return _ => done
  | Throw _ => error
  end.

Section WithUuid.

Variable randomUUID : nat -> jsstring.

(** [processQueueItem] after its first statement: the [try] block from
    the awaited result on, or the [catch] block. *)
Definition finish (a : Awaited) (item : QueueItem.t) (queueLength : nat)
    (st : App.State) : App.State :=
  match outcome a with
  | Return result =>
      App.jobSucceeded randomUUID item result (today a) (url a) (now a)
        queueLength st
  | Throw _ => App.jobFailed item st
  end.

(** The queue left alone: the effect runs; the job it started, if
    any, ends as [world] says for its item; the effect runs again; and
    so on at most [fuel] times.  The items whose jobs were started are
    returned in the order of their start. *)
Fixpoint processAll (fuel : nat) (world : QueueItem.t -> Awaited)
    (st : App.State) : App.State * list QueueItem.t :=
  match fuel with
  | O => (st, [])
  | S fuel' =>
      match App.schedulingEffect st with
      | (st', App.StartedJob item n) =>
          let (final, started) :=
            processAll fuel' world (finish (world item) item n st') in
          (final, item :: started)
      | (st', _) => (st', [])
      end
  end.

End WithUuid.

(** The transcripts the successful jobs of [items] hand to the store. *)
Definition transcriptsOf (world : QueueItem.t -> Awaited)
    (items : list QueueItem.t) : list (list TranscriptSegment.t) :=
  flat_map (fun item =>
              match outcome (world item) with
              | Return result => [GeminiService.Result.transcript result]
              | Throw _ => []
              end) items.

End Jobs.

(* ------------------------------------------------------------------ *)
(** ** More concrete inputs *)

Module Scenario.

(** The first file is transcribed, the others fail. *)
Definition world (item : QueueItem.t) : Jobs.Awaited :=
  if eqb (QueueItem.name item) (lit "call-1.wav") then
    {| Jobs.outcome :=
         Return (GeminiService.buildResult Sample.steady 0 Sample.goodData);
       Jobs.today := lit "11/2/2026"; Jobs.url := lit "blob:7";
       Jobs.now := lit "11/2/2026, 9:00:00 AM" |}
  else
    {| Jobs.outcome := Throw Sample.serverError;
       Jobs.today := lit "11/2/2026"; Jobs.url := lit "blob:8";
       Jobs.now := lit "11/2/2026, 9:05:00 AM" |}.

(** Three files submitted to the idle application. *)
Definition threeUploaded : App.State :=
  App.run Sample.uuid
    [App.StartUpload [Sample.fileA; Sample.fileB; Sample.fileC] Sample.project].


End Scenario.

(* ------------------------------------------------------------------ *)
(** ** Saved points ([types.ts], [App.tsx]) *)

Module SavedPoint.
Record t := {
  id : jsstring;
  recordingId : option jsstring;
  sourceVideo : jsstring;
  timestamp : jsstring;
  content : jsstring;
  dateSaved : jsstring
}.
End SavedPoint.

(** [Omit<SavedPoint, 'id' | 'dateSaved'>], the argument of
    [addSavedPoint]. *)
Module SavedPointInput.
Record t := {
  recordingId : option jsstring;
  sourceVideo : jsstring;
  timestamp : jsstring;
  content : jsstring
}.
End SavedPointInput.

Module Workspace.

(** The state of [App] with its saved points beside the rest. *)
Record State := {
  app : App.State;
  savedPoints : list SavedPoint.t
}.

Section WithUuid.

Variable randomUUID : nat -> jsstring.

(** [addSavedPoint]; [now] is [new Date().toLocaleString()]. *)
Definition addSavedPoint (point : SavedPointInput.t) (now : jsstring)
    (ws : State) : State :=
  let newPoint :=
    {| SavedPoint.id := randomUUID (App.uuidsDrawn (app ws));
       SavedPoint.recordingId := SavedPointInput.recordingId point;
       SavedPoint.sourceVideo := SavedPointInput.sourceVideo point;
       SavedPoint.timestamp := SavedPointInput.timestamp point;
       SavedPoint.content := SavedPointInput.content point;
       SavedPoint.dateSaved := now |} in
  {| app := App.drawUuids 1 (app ws);
     savedPoints := newPoint :: savedPoints ws |}.

End WithUuid.

(** [updateSavedPoint] *)
Definition updateSavedPoint (updatedPoint : SavedPoint.t) (ws : State) : State :=
  {| app := app ws;
     savedPoints :=
       map (fun p => if eqb (SavedPoint.id p) (SavedPoint.id updatedPoint)
                     then updatedPoint else p) (savedPoints ws) |}.

(** [deleteSavedPoint] *)
Definition deleteSavedPoint (id : jsstring) (ws : State) : State :=
  {| app := app ws;
     savedPoints :=
       filter (fun p => negb (eqb (SavedPoint.id p) id)) (savedPoints ws) |}.

(** The mount effect of [App]: both stored lists are read and, when
    present, put in the state. *)
Definition mountEffect (storedPoints : option (list SavedPoint.t))
    (storedRecordings : option (list Recording.t)) (ws : State) : State :=
  {| app := App.mountEffect storedRecordings (app ws);
     savedPoints :=
       match storedPoints with
       | Some l => l
       | None => savedPoints ws
       end |}.

(** An operation of [App] on the recordings or the queue leaves the
    saved points alone. *)
Definition onApp (f : App.State -> App.State) (ws : State) : State :=
  {| app := f (app ws); savedPoints := savedPoints ws |}.

End Workspace.

(* ------------------------------------------------------------------ *)
(** ** [components/Dashboard.tsx]: attendees, metadata, saved segments *)

Module DashboardHandlers.

(** [{ ...rec, attendees: l }] *)
Definition withAttendees (rec : Recording.t) (l : list Attendee.t) : Recording.t :=
  {| Recording.id := Recording.id rec; Recording.name := Recording.name rec;
     Recording.projectName := Recording.projectName rec;
     Recording.subject := Recording.subject rec;
     Recording.transcript := Recording.transcript rec;
     Recording.fullText := Recording.fullText rec;
     Recording.dateCreated := Recording.dateCreated rec;
     Recording.meetingDate := Recording.meetingDate rec;
     Recording.remarks := Recording.remarks rec;
     Recording.isBookmarked := Recording.isBookmarked rec;
     Recording.mediaUrl := Recording.mediaUrl rec;
     Recording.attendees := Some l |}.

(** [{ ...rec, subject, projectName, meetingDate, remarks, attendees }] *)
Definition withMetadata (rec : Recording.t)
    (subject projectName meetingDate remarks : jsstring)
    (attendees : list Attendee.t) : Recording.t :=
  {| Recording.id := Recording.id rec; Recording.name := Recording.name rec;
     Recording.projectName := projectName;
     Recording.subject := subject;
     Recording.transcript := Recording.transcript rec;
     Recording.fullText := Recording.fullText rec;
     Recording.dateCreated := Recording.dateCreated rec;
     Recording.meetingDate := meetingDate;
     Recording.remarks := Some remarks;
     Recording.isBookmarked := Recording.isBookmarked rec;
     Recording.mediaUrl := Recording.mediaUrl rec;
     Recording.attendees := Some attendees |}.

Definition setAttendees (l : list Attendee.t) (d : Dashboard.State)
    : Dashboard.State :=
  {| Dashboard.activeRecording := Dashboard.activeRecording d;
     Dashboard.transcript := Dashboard.transcript d;
     Dashboard.fullText := Dashboard.fullText d;
     Dashboard.subject := Dashboard.subject d;
     Dashboard.projectName := Dashboard.projectName d;
     Dashboard.meetingDate := Dashboard.meetingDate d;
     Dashboard.remarks := Dashboard.remarks d;
     Dashboard.attendees := l;
     Dashboard.mediaUrl := Dashboard.mediaUrl d;
     Dashboard.isTranscribed := Dashboard.isTranscribed d;
     Dashboard.editingSpeakerId := Dashboard.editingSpeakerId d |}.

(** [{ name: '', company: '' }] *)
Definition emptyAttendee : Attendee.t :=
  {| Attendee.name := []; Attendee.company := [] |}.

(** What a handler leaves behind: the local state, the attendee form
    and, when it is called, the argument of [onUpdateRecording]. *)
Record Outcome := {
  dashboard : Dashboard.State;
  newAttendee : Attendee.t;
  updateCall : option Recording.t
}.

(** [handleAddAttendee] *)
Definition handleAddAttendee (form : Attendee.t) (d : Dashboard.State)
    : Outcome :=
  match trim (Attendee.name form) with
  | [] => {| dashboard := d; newAttendee := form; updateCall := None |}
  | _ :: _ =>
      let updated := Dashboard.attendees d ++ [form] in
      {| dashboard := setAttendees updated d;
         newAttendee := emptyAttendee;
         updateCall :=
           match Dashboard.activeRecording d with
           | Some r => Some (withAttendees r updated)
           | None => None
           end |}
  end.

(** [attendees.filter((_, i) => i !== index)], the elements being
    numbered from [i] on. *)
Fixpoint removeAt (i index : nat) (l : list Attendee.t) : list Attendee.t :=
  match l with
  | [] => []
  | a :: l' =>
      if Nat.eqb i index then removeAt (S i) index l'
      else a :: removeAt (S i) index l'
  end.

(** [handleRemoveAttendee] *)
Definition handleRemoveAttendee (index : nat) (form : Attendee.t)
    (d : Dashboard.State) : Outcome :=
  let updated := removeAt 0 index (Dashboard.attendees d) in
  {| dashboard := setAttendees updated d;
     newAttendee := form;
     updateCall :=
       match Dashboard.activeRecording d with
       | Some r => Some (withAttendees r updated)
       | None => None
       end |}.

(** [handleUpdateMetadata]: the argument of [onUpdateRecording] when it
    is called, and [isEditingMetadata] afterwards. *)
Definition handleUpdateMetadata (isEditingMetadata : bool) (d : Dashboard.State)
    : option Recording.t * bool :=
  match Dashboard.activeRecording d with
  | Some r =>
      (Some (withMetadata r (Dashboard.subject d) (Dashboard.projectName d)
               (Dashboard.meetingDate d) (Dashboard.remarks d)
               (Dashboard.attendees d)),
       false)
  | None => (None, isEditingMetadata)
  end.

(** The setters behind the metadata inputs. *)
Inductive Input :=
| InputSubject (v : jsstring)
| InputProjectName (v : jsstring)
| InputMeetingDate (v : jsstring)
| InputRemarks (v : jsstring).

Definition input (d : Dashboard.State) (i : Input) : Dashboard.State :=
  {| Dashboard.activeRecording := Dashboard.activeRecording d;
     Dashboard.transcript := Dashboard.transcript d;
     Dashboard.fullText := Dashboard.fullText d;
     Dashboard.subject :=
       match i with InputSubject v => v | _ => Dashboard.subject d end;
     Dashboard.projectName :=
       match i with InputProjectName v => v | _ => Dashboard.projectName d end;
     Dashboard.meetingDate :=
       match i with InputMeetingDate v => v | _ => Dashboard.meetingDate d end;
     Dashboard.remarks :=
       match i with InputRemarks v => v | _ => Dashboard.remarks d end;
     Dashboard.attendees := Dashboard.attendees d;
     Dashboard.mediaUrl := Dashboard.mediaUrl d;
     Dashboard.isTranscribed := Dashboard.isTranscribed d;
     Dashboard.editingSpeakerId := Dashboard.editingSpeakerId d |}.

(** [`[${seg.speaker || 'Speaker'}] ${seg.text}${seg.translatedText ?
    ` (EN: ${seg.translatedText})` : ''}`] *)
Definition snippet (seg : TranscriptSegment.t) : jsstring :=
  lit "[" ++ orElse (TranscriptSegment.speaker seg) (lit "Speaker") ++ lit "] "
    ++ TranscriptSegment.text seg
    ++ (if truthy (TranscriptSegment.translatedText seg)
        then lit " (EN: " ++ interp (TranscriptSegment.translatedText seg) ++ lit ")"
        else []).

(** [saveTranscriptSegment]: the argument of [onSavePoint]. *)
Definition saveTranscriptSegment (seg : TranscriptSegment.t)
    (d : Dashboard.State) : SavedPointInput.t :=
  {| SavedPointInput.recordingId := None;
     SavedPointInput.sourceVideo :=
       orElse (match Dashboard.activeRecording d with
               | Some r => Some (Recording.name r)
               | None => None
               end) (lit "Unknown Recording");
     SavedPointInput.timestamp := TranscriptSegment.timestamp seg;
     SavedPointInput.content := snippet seg |}.

(** [processingQueue.some(q => q.status === 'processing' ||
    q.status === 'pending')] *)
Definition isProcessing (queue : list QueueItem.t) : bool :=
  existsb (fun q => App.hasStatus processing q || App.hasStatus pending q) queue.

End DashboardHandlers.

(* ------------------------------------------------------------------ *)
(** ** [services/geminiService.ts] and [Dashboard.tsx]: the chat *)

Module Chat.

(** ['user' | 'model'] *)
Inductive Role := user | model.

Record ChatMessage := { role : Role; content : jsstring }.

(** [chat.sendMessage] on the chat created for a transcript:
    [sendMessage k transcript query] is how the [k]-th question ends. *)
Definition Env := nat -> jsstring -> jsstring -> completion GeminiService.Response.t.

(** [chatWithTranscript]; the parameter [history] is not read. *)
Definition chatWithTranscript (sendMessage : Env) (k : nat)
    (query transcript : jsstring) (history : list ChatMessage)
    : completion jsstring :=
  match sendMessage k transcript query with
  | Return response =>
      Return (orElse (GeminiService.Response.text response)
                (lit "I'm sorry, I couldn't process that request."))
  | Throw err => Throw err
  end.

(** The chat state of the dashboard. *)
Record State := {
  chatHistory : list ChatMessage;
  userInput : jsstring;
  isChatting : bool
}.

(** [handleChat] up to its [await]: the state it leaves and the
    message it sends, if it sends one. *)
Definition submit (st : State) : State * option jsstring :=
  match trim (userInput st), isChatting st with
  | _ :: _, false =>
      let userMsg := trim (userInput st) in
      ({| chatHistory := chatHistory st ++ [{| role := user; content := userMsg |}];
          userInput := [];
          isChatting := true |},
       Some userMsg)
  | _, _ => (st, None)
  end.

(** [handleChat] after its [await]: the [try], [catch] and [finally]
    blocks. *)
Definition settle (answer : completion jsstring) (st : State) : State :=
  {| chatHistory :=
       chatHistory st ++
       [{| role := model;
           content :=
             match answer with
             | Return response => response
             | Throw _ =>
                 lit "Sorry, I encountered an error while processing your request."
             end |}];
     userInput := userInput st;
     isChatting := false |}.

(** [handleChat], from the submission to the answer; [fullText] is the
    transcript shown. *)
Definition handleChat (sendMessage : Env) (k : nat) (fullText : jsstring)
    (st : State) : State :=
  match submit st with
  | (st', Some userMsg) =>
      settle (chatWithTranscript sendMessage k userMsg fullText (chatHistory st)) st'
  | (st', None) => st'
  end.

End Chat.

(* ------------------------------------------------------------------ *)
(** ** [components/KnowledgeBase.tsx]: search and the edit form *)

Module KnowledgeBaseForms.

Section WithEngine.

(** [String.prototype.toLowerCase] of the engine. *)
Variable toLowerCase : jsstring -> jsstring.

(** The test of the [filter] in [filteredRecordings]. *)
Definition matches (q : jsstring) (rec : Recording.t) : bool :=
  includes (toLowerCase (Recording.projectName rec)) q
  || includes (toLowerCase (Recording.subject rec)) q
  || includes (toLowerCase (Recording.name rec)) q.

(** [filteredRecordings] *)
Definition filteredRecordings (searchQuery : jsstring)
    (recordings : list Recording.t) : list Recording.t :=
  match trim searchQuery with
  | [] => recordings
  | _ :: _ => filter (matches (toLowerCase searchQuery)) recordings
  end.

(** [bookmarkedMeetings] *)
Definition bookmarkedMeetings (searchQuery : jsstring)
    (recordings : list Recording.t) : list Recording.t :=
  filter (fun r => match Recording.isBookmarked r with
                   | Some true => true
                   | _ => false
                   end)
         (filteredRecordings searchQuery recordings).

End WithEngine.

(** The inputs of the edit form, each
    [setEditingRecording({ ...editingRecording, field: value })]. *)
Inductive Edit :=
| EditProjectName (v : jsstring)
| EditMeetingDate (v : jsstring)
| EditSubject (v : jsstring)
| EditRemarks (v : jsstring).

Definition edit (rec : Recording.t) (e : Edit) : Recording.t :=
  {| Recording.id := Recording.id rec; Recording.name := Recording.name rec;
     Recording.projectName :=
       match e with EditProjectName v => v | _ => Recording.projectName rec end;
     Recording.subject :=
       match e with EditSubject v => v | _ => Recording.subject rec end;
     Recording.transcript := Recording.transcript rec;
     Recording.fullText := Recording.fullText rec;
     Recording.dateCreated := Recording.dateCreated rec;
     Recording.meetingDate :=
       match e with EditMeetingDate v => v | _ => Recording.meetingDate rec end;
     Recording.remarks :=
       match e with EditRemarks v => Some v | _ => Recording.remarks rec end;
     Recording.isBookmarked := Recording.isBookmarked rec;
     Recording.mediaUrl := Recording.mediaUrl rec;
     Recording.attendees := Recording.attendees rec |}.

(** [handleEditRecordingSave]: the store and [editingRecording]
    afterwards. *)
Definition handleEditRecordingSave (editingRecording : option Recording.t)
    (st : App.State) : App.State * option Recording.t :=
  match editingRecording with
  | Some r => (App.updateRecording r st, None)
  | None => (st, None)
  end.

(** The edit button on [rec], the inputs [edits] in order, then the
    save button. *)
Definition editAndSave (rec : Recording.t) (edits : list Edit) (st : App.State)
    : App.State :=
  fst (handleEditRecordingSave (Some (fold_left edit edits rec)) st).

End KnowledgeBaseForms.

(* ------------------------------------------------------------------ *)
(** ** [components/VideoUploader.tsx] *)

Module VideoUploader.

(** ['video' | 'audio'] *)
Inductive Mode := video | audio.

(** A call of [onFilesSelect]. *)
Definition Selection : Type := list File.t * jsstring.

(** [handleChange]: [files] is [e.target.files], [null] included. *)
Definition handleChange (files : option (list File.t)) (projectName : jsstring)
    : option Selection :=
  match files with
  | Some (f :: l) => Some (f :: l, orElse (Some projectName) (lit "Untitled Project"))
  | _ => None
  end.

(** [recorder.onstop]: [chunks] are the recorded blobs, [now] is
    [Date.now()]. *)
Definition onstop (mode : Mode) (chunks : list (list N)) (now : Z)
    (projectName : jsstring) : Selection :=
  let finalType := match mode with video => lit "video/mp4" | audio => lit "audio/mp3" end in
  let extension := match mode with video => lit "mp4" | audio => lit "mp3" end in
  let file :=
    {| File.name := lit "capture_" ++ ofZ now ++ lit "." ++ extension;
       File.type := finalType;
       File.bytes := concat chunks |} in
  ([file],
   orElse (Some projectName)
     (match mode with audio => lit "Phone Call Log" | video => lit "Live Recording" end)).

(** [onFilesSelect] bound to [App.handleStartUpload] through the
    dashboard. *)
Definition select (randomUUID : nat -> jsstring) (call : option Selection)
    (st : App.State) : App.State :=
  match call with
  | Some (files, projectName) => App.handleStartUpload randomUUID files projectName st
  | None => st
  end.

End VideoUploader.

(* ------------------------------------------------------------------ *)
(** ** [components/Dashboard.tsx]: the simulated cloud upload *)

Module CloudSync.

(** ['google' | 'onedrive'] *)
Inductive Service := google | onedrive.

(** [CloudCredentials] *)
Record Credentials := {
  service : option Service;
  username : jsstring;
  password : option jsstring
}.

(** [{ service: null, username: '' }] *)
Definition noCredentials : Credentials :=
  {| service := None; username := []; password := None |}.

(** ['idle' | 'syncing' | 'success' | 'error'] *)
Inductive SyncStatus := idle | syncing | success | error.

(** The sync state of the dashboard; [intervalRunning] tells whether
    the interval set by [handleFinalSync] is still set. *)
Record State := {
  showCloudModal : bool;
  cloudCreds : Credentials;
  isSyncing : bool;
  syncProgress : Z;
  syncStatus : SyncStatus;
  intervalRunning : bool
}.

(** [!cloudCreds.service || !cloudCreds.username || !cloudCreds.password] *)
Definition incomplete (c : Credentials) : bool :=
  match service c with None => true | Some _ => false end
  || negb (truthy (Some (username c)))
  || negb (truthy (password c)).

(** [handleFinalSync] *)
Definition handleFinalSync (st : State) : State :=
  if incomplete (cloudCreds st) then st
  else {| showCloudModal := false; cloudCreds := cloudCreds st;
          isSyncing := true; syncProgress := 0; syncStatus := syncing;
          intervalRunning := true |}.

(** One call of the interval's callback. *)
Definition tick (st : State) : State :=
  if intervalRunning st then
    if (100 <=? syncProgress st)%Z then
      {| showCloudModal := showCloudModal st; cloudCreds := noCredentials;
         isSyncing := false; syncProgress := 100; syncStatus := success;
         intervalRunning := false |}
    else
      {| showCloudModal := showCloudModal st; cloudCreds := cloudCreds st;
         isSyncing := isSyncing st; syncProgress := syncProgress st + 5;
         syncStatus := syncStatus st; intervalRunning := true |}
  else st.

(** [setTimeout(() => setSyncStatus('idle'), 4000)], set by the last
    call of the callback, fires. *)
Definition statusTimeout (st : State) : State :=
  {| showCloudModal := showCloudModal st; cloudCreds := cloudCreds st;
     isSyncing := isSyncing st; syncProgress := syncProgress st;
     syncStatus := idle; intervalRunning := intervalRunning st |}.

(** [n] calls of the callback in a row. *)
Fixpoint ticks (n : nat) (st : State) : State :=
  match n with
  | O => st
  | S n' => ticks n' (tick st)
  end.

End CloudSync.

(* ------------------------------------------------------------------ *)
(** ** Concrete inputs for the further properties *)

Module Cases.

Definition itemA : QueueItem.t :=
  {| QueueItem.id := Sample.uuid 0; QueueItem.name := lit "call-1.wav";
     QueueItem.status := pending; QueueItem.progress := None;
     QueueItem.projectName := Sample.project; QueueItem.file := Sample.fileA |}.

(** One file was submitted and its job has failed. *)
Definition settled : App.State :=
  App.run Sample.uuid
    [App.StartUpload [Sample.fileA] Sample.project; App.EffectRuns;
     App.JobFails itemA].

Definition alice : Attendee.t :=
  {| Attendee.name := lit "Alice Rao"; Attendee.company := lit "Acme" |}.
Definition bob : Attendee.t :=
  {| Attendee.name := lit "Bob"; Attendee.company := [] |}.
Definition nobody : Attendee.t :=
  {| Attendee.name := lit "  "; Attendee.company := lit "Acme" |}.

(** The dashboard showing [recA] with one attendee entered. *)
Definition dashboardWithAlice : Dashboard.State :=
  DashboardHandlers.setAttendees [alice] Sample.dashboardA.

Definition workspace : Workspace.State :=
  {| Workspace.app := Sample.store; Workspace.savedPoints := [] |}.

(** A model that answers every question with the same words. *)
Definition oracle : Chat.Env :=
  fun _ _ _ => Return {| GeminiService.Response.text := Some (lit "- Invoice due Friday") |}.

(** A model that is out of reach. *)
Definition offline : Chat.Env := fun _ _ _ => Throw Sample.serverError.

(** A model that answers with nothing. *)
Definition mute : Chat.Env :=
  fun _ _ _ => Return {| GeminiService.Response.text := Some [] |}.

Definition asking : Chat.State :=
  {| Chat.chatHistory := []; Chat.userInput := lit "  When is the invoice due? ";
     Chat.isChatting := false |}.

(** A lower-casing of the letters A to Z, for the examples. *)
Definition lowerAscii (s : jsstring) : jsstring :=
  map (fun c => if ((65 <=? c) && (c <=? 90))%N then (c + 32)%N else c) s.

Definition signedIn : CloudSync.State :=
  {| CloudSync.showCloudModal := true;
     CloudSync.cloudCreds :=
       {| CloudSync.service := Some CloudSync.google;
          CloudSync.username := lit "asha";
          CloudSync.password := Some (lit "secret") |};
     CloudSync.isSyncing := false; CloudSync.syncProgress := 0;
     CloudSync.syncStatus := CloudSync.idle;
     CloudSync.intervalRunning := false |}.

(** A manual entry of the knowledge base. *)
Definition manualEntry : RecordingInput.t :=
  {| RecordingInput.name := lit "Manual Log";
     RecordingInput.projectName := Sample.project;
     RecordingInput.subject := lit "Kick-off notes";
     RecordingInput.transcript := [];
     RecordingInput.fullText := [];
     RecordingInput.meetingDate := lit "11/2/2026";
     RecordingInput.remarks := Some [];
     RecordingInput.isBookmarked := None;
     RecordingInput.mediaUrl := None;
     RecordingInput.attendees := Some [] |}.

(** Two manual entries are added to the empty store. *)
Definition entries : list App.Event :=
  [App.AddRecording manualEntry (lit "11/2/2026, 9:00:00 AM");
   App.AddRecording manualEntry (lit "11/2/2026, 9:30:00 AM")].

Definition twoEntries : App.State := App.run Sample.uuid entries.

(** A session that finds the two recordings of the sample store in
    local storage, adds a manual entry and deletes a loaded one. *)
Definition reloaded : list App.Event :=
  [App.Mount (Some [Sample.recB; Sample.recA]);
   App.AddRecording manualEntry (lit "11/3/2026, 9:00:00 AM");
   App.DeleteRecording (Recording.id Sample.recB)].

(** The saved points after one segment was saved. *)
Definition withPoint : Workspace.State :=
  Workspace.addSavedPoint Sample.uuid
    (DashboardHandlers.saveTranscriptSegment Sample.seg1 Sample.dashboardA)
    (lit "11/2/2026, 10:30:00 AM") workspace.

(** The labelled segments of the sample transcript. *)
Definition labelled : list TranscriptSegment.t :=
  [Sample.seg0; Sample.seg1; Sample.seg2].

End Cases.

(* ================================================================== *)
(** * Properties *)

(* ------------------------------------------------------------------ *)
(** ** Facts about strings *)

Lemma eqb_eq (a b : jsstring) : eqb a b = true <-> a = b.
Proof.
  revert b; induction a as [|x a IH]; intros [|y b]; simpl;
    try (split; [discriminate | congruence]); try tauto.
  rewrite andb_true_iff, N.eqb_eq, IH.
  split; [intros [-> ->]; reflexivity | intros H; injection H; auto].
Qed.

Lemma eqb_refl (a : jsstring) : eqb a a = true.
Proof. apply eqb_eq; reflexivity. Qed.

Lemma eqb_neq (a b : jsstring) : eqb a b = false <-> a <> b.
Proof.
  destruct (eqb a b) eqn:E.
  - apply eqb_eq in E. split; [discriminate | congruence].
  - split; [intros _ H | reflexivity].
    apply eqb_eq in H. congruence.
Qed.

Lemma isPrefix_spec (p s : jsstring) :
  isPrefix p s = true <-> exists t, s = p ++ t.
Proof.
  revert s; induction p as [|x p IH]; intros s; simpl.
  - split; [intros _; exists s; reflexivity | reflexivity].
  - destruct s as [|y s].
    + split; [discriminate | intros [t H]; discriminate].
    + rewrite andb_true_iff, N.eqb_eq, IH. split.
      * intros [-> [t ->]]. exists t; reflexivity.
      * intros [t H]. injection H as -> ->. eauto.
Qed.

(** [includes] is the substring test. *)
Lemma includes_spec (s p : jsstring) :
  includes s p = true <-> exists a b, s = a ++ p ++ b.
Proof.
  induction s as [|c s IH].
  - simpl. rewrite orb_false_r, isPrefix_spec. split.
    + intros [t H]. exists [], t. exact H.
    + intros [a [b H]]. destruct a; [exists b; exact H | discriminate].
  - cbn [includes]. rewrite orb_true_iff, isPrefix_spec, IH. split.
    + intros [[t H] | [a [b H]]].
      * exists [], t. exact H.
      * exists (c :: a), b. simpl. rewrite H. reflexivity.
    + intros [a [b H]]. destruct a as [|d a].
      * left. exists b. exact H.
      * right. injection H as _ H. eauto.
Qed.

(** [endsWith] is the suffix test. *)
Lemma endsWith_spec (s p : jsstring) :
  endsWith s p = true <-> exists a, s = a ++ p.
Proof.
  unfold endsWith. rewrite andb_true_iff, Nat.leb_le, eqb_eq. split.
  - intros [_ H]. set (n := length s - length p) in *.
    exists (firstn n s). rewrite <- H. symmetry. apply firstn_skipn.
  - intros [a ->]. rewrite length_app. split; [lia|].
    replace (length a + length p - length p) with (length a + 0) by lia.
    rewrite skipn_app, Nat.add_0_r, skipn_all.
    replace (length a - length a) with 0 by lia. reflexivity.
Qed.

(* ------------------------------------------------------------------ *)
(** ** The transcription client *)

Section Service.

Import GeminiService.

Variable E : Env.
Variables media mime : jsstring.

(** The trace of one attempt: one request, no sleep, at most two calls
    of the parser. *)
Lemma attempt_trace (k : nat) :
  let tr := snd (attempt E media mime k) in
  requests tr = 1 /\ sleeps tr = 0 /\ parses tr <= 2.
Proof.
  unfold attempt, parseData.
  destruct (generateContent E k media mime) as [response|err]; simpl; auto.
  destruct (Response.text response) as [[|c text]|]; simpl; auto.
  destruct (JSON_parse E (c :: text)) as [data|pe]; simpl; auto.
  destruct (JSON_parse E (repair (c :: text))) as [data|pe']; simpl; auto.
Qed.

Lemma requests_app (a b : list io) : requests (a ++ b) = requests a + requests b.
Proof. unfold requests. rewrite filter_app, length_app. reflexivity. Qed.

Lemma sleeps_app (a b : list io) : sleeps (a ++ b) = sleeps a + sleeps b.
Proof. unfold sleeps. rewrite filter_app, length_app. reflexivity. Qed.

(** The recursion of the source: [processMedia] is its [try] block,
    and in the [catch] block either a delay of three seconds followed by
    [processMedia] with one retry less, or the error thrown again. *)
Lemma processMedia_unfold (k : nat) (retries : Z) :
  processMedia E media mime k retries =
  match attempt E media mime k with
  | (Return res, tr) => (Return res, tr)
  | (Throw err, tr) =>
      if (0 <? retries)%Z && transient err then
        let (r, tr') := processMedia E media mime (S k) (retries - 1) in
        (r, tr ++ Sleep 3000 :: tr')
      else (Throw err, tr)
  end.
Proof.
  unfold processMedia.
  destruct (Z.to_nat retries) as [|n] eqn:Hn; simpl;
    destruct (attempt E media mime k) as [[res|err] tr]; try reflexivity.
  - destruct (0 <? retries)%Z eqn:Hr; [|reflexivity].
    apply Z.ltb_lt in Hr. lia.
  - destruct (0 <? retries)%Z eqn:Hr; [|reflexivity]. simpl.
    destruct (transient err); [|reflexivity].
    replace (Z.to_nat (retries - 1)) with n by lia. reflexivity.
Qed.

(** A call makes one request more than it sleeps, and sleeps at most
    [retries] times. *)
Lemma processMedia_bound (retries : Z) (k : nat) :
  let tr := snd (processMedia E media mime k retries) in
  requests tr = S (sleeps tr) /\ sleeps tr <= Z.to_nat retries.
Proof.
  unfold processMedia.
  remember (Z.to_nat retries) as n eqn:Hn.
  revert retries k Hn. induction n as [|n IH]; intros retries k Hn; simpl;
    pose proof (attempt_trace k) as (Hq & Hs & _);
    destruct (attempt E media mime k) as [[res|err] tr]; simpl in *;
    try (split; lia).
  - destruct ((0 <? retries)%Z && transient err); simpl; split; lia.
  - destruct ((0 <? retries)%Z && transient err) eqn:Hc; simpl; [|split; lia].
    apply andb_true_iff in Hc as [Hr _]. apply Z.ltb_lt in Hr.
    specialize (IH (retries - 1)%Z (S k) ltac:(lia)).
    destruct (processMediaFrom E media mime n (S k) (retries - 1)) as [r tr'].
    simpl in *. rewrite requests_app, sleeps_app. simpl.
    unfold requests, sleeps in *. simpl. lia.
Qed.

(** An error is retried exactly when retries are left and its message
    contains one of the three patterns. *)
Lemma transient_spec (err : JsError) :
  transient err = true <->
  exists m, message err = Some m /\
    ((exists a b, m = a ++ lit "500" ++ b)
     \/ (exists a b, m = a ++ lit "xhr" ++ b)
     \/ (exists a b, m = a ++ lit "Unterminated" ++ b)).
Proof.
  unfold transient. destruct (message err) as [m|].
  - rewrite !orb_true_iff, !includes_spec. split.
    + intros H. exists m. split; [reflexivity | tauto].
    + intros [m' [Hm H]]. injection Hm as <-. tauto.
  - split; [discriminate | intros [m [H _]]; discriminate].
Qed.

(** An error that is not transient ends the call at once. *)
Lemma processMedia_fatal (k : nat) (retries : Z) (err : JsError) (tr : list io) :
  attempt E media mime k = (Throw err, tr) ->
  transient err = false ->
  processMedia E media mime k retries = (Throw err, tr).
Proof.
  intros Ha Ht. rewrite processMedia_unfold, Ha, Ht, andb_false_r. reflexivity.
Qed.

(** A transient error with retries left costs one delay and one more
    call. *)
Lemma processMedia_retry (k : nat) (retries : Z) (err : JsError) (tr : list io) :
  attempt E media mime k = (Throw err, tr) ->
  transient err = true ->
  (0 < retries)%Z ->
  processMedia E media mime k retries =
  (fst (processMedia E media mime (S k) (retries - 1)),
   tr ++ Sleep 3000 :: snd (processMedia E media mime (S k) (retries - 1))).
Proof.
  intros Ha Ht Hr. rewrite processMedia_unfold, Ha, Ht.
  apply Z.ltb_lt in Hr. rewrite Hr. cbn [andb].
  destruct (processMedia E media mime (S k) (retries - 1)). reflexivity.
Qed.

Lemma processMedia_success (k : nat) (retries : Z) (res : Result.t) (tr : list io) :
  attempt E media mime k = (Return res, tr) ->
  processMedia E media mime k retries = (Return res, tr).
Proof. intros Ha. rewrite processMedia_unfold, Ha. reflexivity. Qed.

Lemma attempt_sleeps (k : nat) r tr :
  attempt E media mime k = (r, tr) -> sleeps tr = 0 /\ requests tr = 1.
Proof.
  intros H. pose proof (attempt_trace k) as (Hq & Hs & _).
  rewrite H in Hq, Hs. auto.
Qed.

(** C2: an error is transient when its message contains [500], [xhr]
    or [Unterminated]; any other error ends the call at once, and a call
    never sleeps more often than it has retries, two by default.  A
    transient error followed by a success gives the success after one
    delay; three transient errors in a row give the third error after
    two delays and three requests. *)
Theorem processMedia_retries_transient_errors_twice (k : nat) :
  (forall err,
      transient err = true <->
      exists m, message err = Some m /\
        ((exists a b, m = a ++ lit "500" ++ b)
         \/ (exists a b, m = a ++ lit "xhr" ++ b)
         \/ (exists a b, m = a ++ lit "Unterminated" ++ b)))
  /\ (forall retries err tr,
      attempt E media mime k = (Throw err, tr) ->
      transient err = false ->
      processMedia E media mime k retries = (Throw err, tr))
  /\ (forall retries,
      requests (snd (processMedia E media mime k retries))
        = S (sleeps (snd (processMedia E media mime k retries)))
      /\ sleeps (snd (processMedia E media mime k retries)) <= Z.to_nat retries)
  /\ (forall err tr1 res tr2,
      attempt E media mime k = (Throw err, tr1) ->
      transient err = true ->
      attempt E media mime (S k) = (Return res, tr2) ->
      processMedia E media mime k defaultRetries
        = (Return res, tr1 ++ Sleep 3000 :: tr2)
      /\ sleeps (tr1 ++ Sleep 3000 :: tr2) = 1
      /\ requests (tr1 ++ Sleep 3000 :: tr2) = 2)
  /\ (forall e1 e2 e3 tr1 tr2 tr3,
      attempt E media mime k = (Throw e1, tr1) -> transient e1 = true ->
      attempt E media mime (S k) = (Throw e2, tr2) -> transient e2 = true ->
      attempt E media mime (S (S k)) = (Throw e3, tr3) -> transient e3 = true ->
      processMedia E media mime k defaultRetries
        = (Throw e3, tr1 ++ Sleep 3000 :: tr2 ++ Sleep 3000 :: tr3)
      /\ sleeps (tr1 ++ Sleep 3000 :: tr2 ++ Sleep 3000 :: tr3) = 2
      /\ requests (tr1 ++ Sleep 3000 :: tr2 ++ Sleep 3000 :: tr3) = 3).
Proof.
  split; [exact transient_spec|]. split; [|split; [|split]].
  - intros retries err tr. apply processMedia_fatal.
  - intros retries. apply processMedia_bound.
  - intros err tr1 res tr2 H1 T1 H2.
    destruct (attempt_sleeps _ H1) as [S1 Q1].
    destruct (attempt_sleeps _ H2) as [S2 Q2].
    split; [|split].
    + rewrite (processMedia_retry _ H1 T1) by (unfold defaultRetries; lia).
      rewrite (processMedia_success _ _ H2). reflexivity.
    + rewrite sleeps_app. change (sleeps (Sleep 3000 :: tr2)) with (S (sleeps tr2)). lia.
    + rewrite requests_app. change (requests (Sleep 3000 :: tr2)) with (requests tr2). lia.
  - intros e1 e2 e3 tr1 tr2 tr3 H1 T1 H2 T2 H3 T3.
    destruct (attempt_sleeps _ H1) as [S1 Q1].
    destruct (attempt_sleeps _ H2) as [S2 Q2].
    destruct (attempt_sleeps _ H3) as [S3 Q3].
    split; [|split].
    + rewrite (processMedia_retry _ H1 T1) by (unfold defaultRetries; lia).
      rewrite (processMedia_retry _ H2 T2) by (unfold defaultRetries; lia).
      rewrite (processMedia_unfold (S (S k))), H3, T3. reflexivity.
    + rewrite sleeps_app.
      change (sleeps (Sleep 3000 :: tr2 ++ Sleep 3000 :: tr3))
        with (S (sleeps (tr2 ++ Sleep 3000 :: tr3))).
      rewrite sleeps_app. change (sleeps (Sleep 3000 :: tr3)) with (S (sleeps tr3)). lia.
    + rewrite requests_app.
      change (requests (Sleep 3000 :: tr2 ++ Sleep 3000 :: tr3))
        with (requests (tr2 ++ Sleep 3000 :: tr3)).
      rewrite requests_app. change (requests (Sleep 3000 :: tr3)) with (requests tr3). lia.
Qed.

End Service.

Section ServiceResponses.

Import GeminiService.

Variable E : Env.
Variables media mime : jsstring.

(** C6: a response without text ends the call with the error
    [Empty response from AI model], after the one request and without
    any delay, whatever the number of retries left. *)
Theorem processMedia_empty_response_is_fatal
    (k : nat) (retries : Z) (response : Response.t) :
  generateContent E k media mime = Return response ->
  truthy (Response.text response) = false ->
  processMedia E media mime k retries
  = (Throw (newError "Empty response from AI model"), [Request k]).
Proof.
  intros Hg Ht. apply processMedia_fatal; [|reflexivity].
  unfold attempt. rewrite Hg.
  destruct (Response.text response) as [[|c text]|];
    [reflexivity | discriminate | reflexivity].
Qed.

(** The text appended by the repair. *)
Lemma repair_spec (text : jsstring) :
  repair text =
  trim text ++
    (if endsWith (trim text) (lit "}") then []
     else if endsWith (trim text) (lit "]") then lit "}" else lit "]}").
Proof.
  unfold repair.
  destruct (endsWith (trim text) (lit "}")); simpl; [symmetry; apply app_nil_r|].
  destruct (endsWith (trim text) (lit "]")); reflexivity.
Qed.

(** C7 (as amended): a body with text that the parser rejects is
    repaired once and parsed once more; when the second parse fails too
    its error is handled like any other: thrown to the caller when no
    retry is left or the message matches no pattern, and otherwise
    followed by a delay and a new request. *)
Theorem processMedia_repairs_malformed_response_once
    (k : nat) (retries : Z) (response : Response.t) (text : jsstring)
    (parseError : JsError) :
  generateContent E k media mime = Return response ->
  Response.text response = Some text ->
  text <> [] ->
  JSON_parse E text = Throw parseError ->
  repair text =
    trim text ++
      (if endsWith (trim text) (lit "}") then []
       else if endsWith (trim text) (lit "]") then lit "}" else lit "]}")
  /\ attempt E media mime k =
       (match JSON_parse E (repair text) with
        | Return data => Return (buildResult E k data)
        | Throw err => Throw err
        end,
        [Request k; Parse text; Parse (repair text)])
  /\ (forall data, JSON_parse E (repair text) = Return data ->
        processMedia E media mime k retries =
        (Return (buildResult E k data),
         [Request k; Parse text; Parse (repair text)]))
  /\ (forall err, JSON_parse E (repair text) = Throw err ->
        processMedia E media mime k retries =
        if (0 <? retries)%Z && transient err then
          (fst (processMedia E media mime (S k) (retries - 1)),
           [Request k; Parse text; Parse (repair text)]
             ++ Sleep 3000 :: snd (processMedia E media mime (S k) (retries - 1)))
        else (Throw err, [Request k; Parse text; Parse (repair text)])).
Proof.
  intros Hg Ht Hne Hp.
  assert (Ha : attempt E media mime k =
       (match JSON_parse E (repair text) with
        | Return data => Return (buildResult E k data)
        | Throw err => Throw err
        end,
        [Request k; Parse text; Parse (repair text)])).
  { unfold attempt, parseData. rewrite Hg, Ht.
    destruct text as [|c text]; [congruence|]. rewrite Hp.
    destruct (JSON_parse E (repair (c :: text))); reflexivity. }
  split; [apply repair_spec|]. split; [exact Ha|]. split.
  - intros data Hd. rewrite Hd in Ha. apply processMedia_success. exact Ha.
  - intros err He. rewrite He in Ha.
    rewrite processMedia_unfold, Ha.
    destruct ((0 <? retries)%Z && transient err); [|reflexivity].
    destruct (processMedia E media mime (S k) (retries - 1)). reflexivity.
Qed.

(** A successful attempt returns what [buildResult] makes of some
    parsed body. *)
Lemma attempt_returns (k : nat) (res : Result.t) (tr : list io) :
  attempt E media mime k = (Return res, tr) ->
  exists data, res = buildResult E k data.
Proof.
  unfold attempt.
  destruct (generateContent E k media mime) as [response|err]; [|discriminate].
  destruct (Response.text response) as [[|c text]|]; try discriminate.
  destruct (parseData E (c :: text)) as [[data|err] tr']; [|discriminate].
  intros H. injection H as <- _. exists data. reflexivity.
Qed.

Lemma processMediaFrom_returns (n k : nat) (retries : Z) (res : Result.t)
    (tr : list io) :
  processMediaFrom E media mime n k retries = (Return res, tr) ->
  exists k' data, res = buildResult E k' data.
Proof.
  revert k retries tr. induction n as [|n IH]; intros k retries tr; simpl;
    destruct (attempt E media mime k) as [[res0|err] tr0] eqn:Ha.
  - intros H. injection H as <- _.
    destruct (attempt_returns _ Ha) as [data ->]. eauto.
  - destruct ((0 <? retries)%Z && transient err); discriminate.
  - intros H. injection H as <- _.
    destruct (attempt_returns _ Ha) as [data ->]. eauto.
  - destruct ((0 <? retries)%Z && transient err); [|discriminate].
    destruct (processMediaFrom E media mime n (S k) (retries - 1))
      as [r tr'] eqn:Hrec.
    intros H. injection H as -> _. eapply IH. exact Hrec.
Qed.

End ServiceResponses.

Section ServiceAgreement.

Import GeminiService Agreement.

Variables E E' : Env.
Variables media mime : jsstring.
Hypothesis agree : agreeUpToFullText E E'.

Lemma mapSegments_agree (k idx : nat) (l : list RawSegment.t) :
  mapSegments E k idx l = mapSegments E' k idx l.
Proof.
  destruct agree as (_ & Hclock & _).
  revert idx; induction l as [|s l IH]; intros idx; simpl; [reflexivity|].
  unfold withId. rewrite Hclock, IH. reflexivity.
Qed.

Lemma buildResult_agree (k : nat) (d d' : ResponseData.t) :
  sameButFullText d d' -> buildResult E k d = buildResult E' k d'.
Proof.
  intros [Hs Hg]. unfold buildResult. rewrite Hs, Hg, mapSegments_agree.
  reflexivity.
Qed.

Lemma parseData_agree (k : nat) (text : jsstring) :
  match parseData E text, parseData E' text with
  | (Return d, tr), (Return d', tr') => sameButFullText d d' /\ tr = tr'
  | (Throw e, tr), (Throw e', tr') => e = e' /\ tr = tr'
  | _, _ => False
  end.
Proof.
  destruct agree as (_ & _ & Hparse). unfold parseData.
  pose proof (Hparse text) as H1. pose proof (Hparse (repair text)) as H2.
  destruct (JSON_parse E text), (JSON_parse E' text); try contradiction.
  - split; [exact H1 | reflexivity].
  - destruct (JSON_parse E (repair text)), (JSON_parse E' (repair text));
      try contradiction; split; auto.
Qed.

Lemma attempt_agree (k : nat) :
  attempt E media mime k = attempt E' media mime k.
Proof.
  unfold attempt. destruct agree as (Hgen & _ & _). rewrite Hgen.
  destruct (generateContent E' k media mime) as [response|err]; [|reflexivity].
  destruct (Response.text response) as [[|c text]|]; try reflexivity.
  pose proof (parseData_agree k (c :: text)) as H.
  destruct (parseData E (c :: text)) as [[d|e] tr],
           (parseData E' (c :: text)) as [[d'|e'] tr']; try contradiction.
  - destruct H as [H ->]. rewrite (buildResult_agree k H). reflexivity.
  - destruct H as [-> ->]. reflexivity.
Qed.

Lemma processMedia_agree (k : nat) (retries : Z) :
  processMedia E media mime k retries = processMedia E' media mime k retries.
Proof.
  unfold processMedia. generalize (Z.to_nat retries) as n.
  intros n; revert k retries; induction n as [|n IH]; intros k retries; simpl;
    rewrite attempt_agree; [reflexivity|].
  rewrite IH. reflexivity.
Qed.

End ServiceAgreement.

(** The two cases of a line of the derived text. *)
Lemma segmentLine_cases (s : TranscriptSegment.t) :
  (forall sp, TranscriptSegment.speaker s = Some sp -> sp <> [] ->
     GeminiService.segmentLine s =
     lit "[" ++ TranscriptSegment.timestamp s ++ lit "] " ++ sp
       ++ lit ": " ++ TranscriptSegment.text s)
  /\ (truthy (TranscriptSegment.speaker s) = false ->
     GeminiService.segmentLine s =
     lit "[" ++ TranscriptSegment.timestamp s ++ lit "] " ++ lit "Speaker"
       ++ lit ": " ++ TranscriptSegment.text s).
Proof.
  unfold GeminiService.segmentLine. split.
  - intros sp -> Hne. destruct sp; [congruence | reflexivity].
  - destruct (TranscriptSegment.speaker s) as [[|c sp]|];
      [reflexivity | discriminate | reflexivity].
Qed.

(** C3 (as amended): the [fullText] of a successful result is the
    lines [[timestamp] label: text] of the returned segments, in order
    and joined by newlines, where the label is the speaker of the
    segment, or the word [Speaker] when the segment has no speaker or an
    empty one; the result is the same whatever [fullText] the response
    carries. *)
Theorem processMedia_fullText_is_derived_from_segments
    (E : GeminiService.Env) (media mime : jsstring) (k : nat) (retries : Z)
    (res : GeminiService.Result.t) (tr : list GeminiService.io) :
  GeminiService.processMedia E media mime k retries = (Return res, tr) ->
  GeminiService.Result.fullText res =
    join GeminiService.newline
      (map GeminiService.segmentLine (GeminiService.Result.transcript res))
  /\ (forall s sp,
        TranscriptSegment.speaker s = Some sp -> sp <> [] ->
        GeminiService.segmentLine s =
        lit "[" ++ TranscriptSegment.timestamp s ++ lit "] " ++ sp
          ++ lit ": " ++ TranscriptSegment.text s)
  /\ (forall s,
        truthy (TranscriptSegment.speaker s) = false ->
        GeminiService.segmentLine s =
        lit "[" ++ TranscriptSegment.timestamp s ++ lit "] " ++ lit "Speaker"
          ++ lit ": " ++ TranscriptSegment.text s)
  /\ (forall E',
        Agreement.agreeUpToFullText E E' ->
        GeminiService.processMedia E' media mime k retries = (Return res, tr)).
Proof.
  intros H. split; [|split; [|split]].
  - unfold GeminiService.processMedia in H.
    destruct (processMediaFrom_returns _ _ _ _ _ _ H) as (k' & data & ->).
    reflexivity.
  - intros s. apply segmentLine_cases.
  - intros s. apply segmentLine_cases.
  - intros E' Hagree. rewrite <- (processMedia_agree media mime Hagree). exact H.
Qed.

(* ------------------------------------------------------------------ *)
(** ** The transcription client on the sample services *)

Lemma processMedia_retries_witness :
  GeminiService.processMedia Sample.denied Sample.media Sample.mime 0 7
    = (Throw Sample.keyError, [GeminiService.Request 0])
  /\ (GeminiService.processMedia Sample.flaky Sample.media Sample.mime 0
        GeminiService.defaultRetries
      = (Return (GeminiService.buildResult Sample.flaky 1 Sample.goodData),
         [GeminiService.Request 0] ++ GeminiService.Sleep 3000
           :: [GeminiService.Request 1; GeminiService.Parse Sample.goodText])
      /\ GeminiService.sleeps
           ([GeminiService.Request 0] ++ GeminiService.Sleep 3000
              :: [GeminiService.Request 1; GeminiService.Parse Sample.goodText]) = 1
      /\ GeminiService.requests
           ([GeminiService.Request 0] ++ GeminiService.Sleep 3000
              :: [GeminiService.Request 1; GeminiService.Parse Sample.goodText]) = 2)
  /\ (GeminiService.processMedia Sample.down Sample.media Sample.mime 0
        GeminiService.defaultRetries
      = (Throw Sample.serverError,
         [GeminiService.Request 0] ++ GeminiService.Sleep 3000
           :: [GeminiService.Request 1] ++ GeminiService.Sleep 3000
           :: [GeminiService.Request 2])
      /\ GeminiService.sleeps
           ([GeminiService.Request 0] ++ GeminiService.Sleep 3000
              :: [GeminiService.Request 1] ++ GeminiService.Sleep 3000
              :: [GeminiService.Request 2]) = 2
      /\ GeminiService.requests
           ([GeminiService.Request 0] ++ GeminiService.Sleep 3000
              :: [GeminiService.Request 1] ++ GeminiService.Sleep 3000
              :: [GeminiService.Request 2]) = 3).
Proof.
  destruct (processMedia_retries_transient_errors_twice
              Sample.denied Sample.media Sample.mime 0)
    as (_ & Hfatal & _ & _ & _).
  destruct (processMedia_retries_transient_errors_twice
              Sample.flaky Sample.media Sample.mime 0)
    as (_ & _ & _ & Honce & _).
  destruct (processMedia_retries_transient_errors_twice
              Sample.down Sample.media Sample.mime 0)
    as (_ & _ & _ & _ & Hthrice).
  split; [|split].
  - apply Hfatal; vm_compute; reflexivity.
  - apply Honce with (err := Sample.serverError); vm_compute; reflexivity.
  - apply Hthrice with (e1 := Sample.serverError) (e2 := Sample.serverError);
      vm_compute; reflexivity.
Defined.

Lemma processMedia_empty_response_witness :
  GeminiService.processMedia Sample.silent Sample.media Sample.mime 0 2
  = (Throw (newError "Empty response from AI model"), [GeminiService.Request 0]).
Proof.
  apply processMedia_empty_response_is_fatal
    with (response := {| GeminiService.Response.text := None |});
    reflexivity.
Defined.

Lemma sample_truncated_nonempty : Sample.truncatedText <> [].
Proof. vm_compute. discriminate. Qed.

(** The truncated body is repaired once; the repaired text fails to
    parse with an [Unterminated string] error, which is transient. *)
Lemma processMedia_repairs_witness :
  GeminiService.attempt Sample.truncatedOnce Sample.media Sample.mime 0
  = (Throw (Sample.syntaxError
              (lit "Unterminated string in JSON at position 140")),
     [GeminiService.Request 0; GeminiService.Parse Sample.truncatedText;
      GeminiService.Parse (Sample.truncatedText ++ lit "]}")]).
Proof.
  destruct (processMedia_repairs_malformed_response_once
              Sample.truncatedOnce Sample.media Sample.mime 0 2
              (response :=
                 {| GeminiService.Response.text := Some Sample.truncatedText |})
              (text := Sample.truncatedText)
              (parseError := Sample.syntaxError
                 (lit "Unterminated string in JSON at position 138")))
    as (_ & Hattempt & _ & _).
  - reflexivity.
  - reflexivity.
  - exact sample_truncated_nonempty.
  - vm_compute. reflexivity.
  - rewrite Hattempt. vm_compute. reflexivity.
Defined.

(** C7, as stated, fails: the first body is malformed and its repair
    does not parse either, yet the call does not fail; it waits, asks
    again and returns the transcript of the second response. *)
Lemma malformed_response_after_failed_repair_is_retried :
  GeminiService.generateContent Sample.truncatedOnce 0 Sample.media Sample.mime
    = Return {| GeminiService.Response.text := Some Sample.truncatedText |}
  /\ GeminiService.JSON_parse Sample.truncatedOnce Sample.truncatedText
     = Throw (Sample.syntaxError
                (lit "Unterminated string in JSON at position 138"))
  /\ GeminiService.JSON_parse Sample.truncatedOnce
       (GeminiService.repair Sample.truncatedText)
     = Throw (Sample.syntaxError
                (lit "Unterminated string in JSON at position 140"))
  /\ GeminiService.processMedia Sample.truncatedOnce Sample.media Sample.mime 0
       GeminiService.defaultRetries
     = (Return (GeminiService.buildResult Sample.truncatedOnce 1 Sample.goodData),
        [GeminiService.Request 0; GeminiService.Parse Sample.truncatedText;
         GeminiService.Parse (GeminiService.repair Sample.truncatedText);
         GeminiService.Sleep 3000;
         GeminiService.Request 1; GeminiService.Parse Sample.goodText]).
Proof.
  split; [reflexivity|]. split; [vm_compute; reflexivity|].
  split; vm_compute; reflexivity.
Qed.

Lemma sample_agreement :
  Agreement.agreeUpToFullText Sample.steady Sample.steadyNoFullText.
Proof.
  split; [|split]; try reflexivity.
  intros text. cbn [GeminiService.JSON_parse Sample.steady Sample.steadyNoFullText].
  unfold Sample.parseNoFullText.
  destruct (eqb text Sample.goodText) eqn:Hg.
  - unfold Sample.parse. rewrite Hg. split; reflexivity.
  - destruct (Sample.parse text) as [d|e]; [split|]; reflexivity.
Qed.

Lemma processMedia_fullText_witness :
  GeminiService.Result.fullText
    (GeminiService.buildResult Sample.steady 0 Sample.goodData)
  = join GeminiService.newline
      (map GeminiService.segmentLine
         (GeminiService.Result.transcript
            (GeminiService.buildResult Sample.steady 0 Sample.goodData)))
  /\ GeminiService.processMedia Sample.steadyNoFullText Sample.media Sample.mime 0
       GeminiService.defaultRetries
     = (Return (GeminiService.buildResult Sample.steady 0 Sample.goodData),
        [GeminiService.Request 0; GeminiService.Parse Sample.goodText]).
Proof.
  destruct (processMedia_fullText_is_derived_from_segments
              Sample.steady Sample.media Sample.mime 0 GeminiService.defaultRetries
              (res := GeminiService.buildResult Sample.steady 0 Sample.goodData)
              (tr := [GeminiService.Request 0; GeminiService.Parse Sample.goodText]))
    as (Htext & _ & _ & Hagree).
  - vm_compute. reflexivity.
  - split; [exact Htext | apply Hagree, sample_agreement].
Defined.

(** C3, as stated, fails.  The second returned segment has the empty
    string as its speaker: its line in [fullText] reads
    [[00:05] Speaker: Namaste], not the segment's own fields.  And the
    older copy of the service returns the [fullText] of the response. *)
Lemma fullText_is_not_the_fields_as_written :
  (exists res tr,
      GeminiService.processMedia Sample.steady Sample.media Sample.mime 0
        GeminiService.defaultRetries = (Return res, tr)
      /\ map TranscriptSegment.speaker (GeminiService.Result.transcript res)
         = [Some (lit "Agent"); Some []]
      /\ GeminiService.Result.fullText res
         = lit "[00:01] Agent: Hello" ++ [10%N] ++ lit "[00:05] Speaker: Namaste"
      /\ join GeminiService.newline
           (map Sample.lineAsWritten (GeminiService.Result.transcript res))
         = lit "[00:01] Agent: Hello" ++ [10%N] ++ lit "[00:05] : Namaste"
      /\ GeminiService.Result.fullText res
         <> join GeminiService.newline
              (map Sample.lineAsWritten (GeminiService.Result.transcript res)))
  /\ (exists res tr,
      GeminiService.Legacy.processMedia Sample.steady Sample.media Sample.mime 0
        GeminiService.defaultRetries = (Return res, tr)
      /\ GeminiService.ResponseData.fullText Sample.goodData
         = Some (lit "MODEL TEXT")
      /\ GeminiService.Result.fullText res = lit "MODEL TEXT").
Proof.
  split.
  - eexists; eexists. split; [vm_compute; reflexivity|].
    split; [vm_compute; reflexivity|]. split; [vm_compute; reflexivity|].
    split; [vm_compute; reflexivity|]. vm_compute. discriminate.
  - eexists; eexists. split; [vm_compute; reflexivity|].
    split; vm_compute; reflexivity.
Qed.

(* ------------------------------------------------------------------ *)
(** ** The processing queue *)

Section Queue.

Import App.

Lemma markStatus_ids (item : QueueItem.t) (s : Status) (queue : list QueueItem.t) :
  map QueueItem.id (markStatus item s queue) = map QueueItem.id queue.
Proof.
  unfold markStatus. rewrite map_map. apply map_ext.
  intros q. destruct (eqb (QueueItem.id q) (QueueItem.id item)); reflexivity.
Qed.

Lemma markStatus_length (item : QueueItem.t) (s : Status) (queue : list QueueItem.t) :
  length (markStatus item s queue) = length queue.
Proof. apply length_map. Qed.

(** Marking with a status other than [processing] never adds a
    processing element. *)
Lemma markStatus_settles (item : QueueItem.t) (s : Status)
    (queue : list QueueItem.t) :
  s <> processing ->
  processingCount (markStatus item s queue) <= processingCount queue.
Proof.
  intros Hs. unfold processingCount, markStatus.
  induction queue as [|q queue IH]; cbn [map filter length]; [lia|].
  set (q' := if eqb (QueueItem.id q) (QueueItem.id item)
             then QueueItem.withStatus q s else q).
  assert (H : hasStatus processing q' = true -> hasStatus processing q = true).
  { subst q'. destruct (eqb (QueueItem.id q) (QueueItem.id item)); [|auto].
    unfold hasStatus. simpl. destruct s; simpl; congruence. }
  destruct (hasStatus processing q') eqn:E1, (hasStatus processing q) eqn:E2;
    cbn [length]; try lia.
Qed.

(** With distinct identifiers, marking touches the one element. *)
Lemma markStatus_split (item : QueueItem.t) (s : Status)
    (pre post : list QueueItem.t) :
  NoDup (map QueueItem.id (pre ++ item :: post)) ->
  markStatus item s (pre ++ item :: post)
  = pre ++ QueueItem.withStatus item s :: post.
Proof.
  intros Hnd. unfold markStatus. rewrite map_app. simpl.
  rewrite eqb_refl. rewrite map_app in Hnd. simpl in Hnd.
  apply NoDup_remove in Hnd as [_ Hnotin].
  f_equal; [|f_equal].
  - rewrite <- (map_id pre) at 2. apply map_ext_in. intros q Hq.
    destruct (eqb (QueueItem.id q) (QueueItem.id item)) eqn:He; [|reflexivity].
    apply eqb_eq in He. exfalso. apply Hnotin. apply in_or_app. left.
    rewrite <- He. apply in_map. exact Hq.
  - rewrite <- (map_id post) at 2. apply map_ext_in. intros q Hq.
    destruct (eqb (QueueItem.id q) (QueueItem.id item)) eqn:He; [|reflexivity].
    apply eqb_eq in He. exfalso. apply Hnotin. apply in_or_app. right.
    rewrite <- He. apply in_map. exact Hq.
Qed.

(** [find] returns the first element that passes the test. *)
Lemma find_first {A : Type} (f : A -> bool) (l : list A) (x : A) :
  find f l = Some x ->
  exists pre post,
    l = pre ++ x :: post /\ Forall (fun y => f y = false) pre /\ f x = true.
Proof.
  induction l as [|y l IH]; simpl; [discriminate|].
  destruct (f y) eqn:Hy.
  - intros H. injection H as ->. exists [], l. auto.
  - intros H. destruct (IH H) as (pre & post & -> & Hpre & Hx).
    exists (y :: pre), post. auto.
Qed.

Lemma find_none_iff {A : Type} (f : A -> bool) (l : list A) :
  find f l = None <-> Forall (fun y => f y = false) l.
Proof.
  induction l as [|y l IH]; simpl.
  - split; auto.
  - destruct (f y) eqn:Hy.
    + split; [discriminate | intros H; inversion H; congruence].
    + rewrite IH. split; [auto | intros H; inversion H; auto].
Qed.

Lemma someProcessing_count (queue : list QueueItem.t) :
  someProcessing queue = false <-> processingCount queue = 0.
Proof.
  unfold someProcessing, processingCount.
  induction queue as [|q queue IH]; simpl; [tauto|].
  destruct (hasStatus processing q); simpl; [split; [discriminate|lia] | exact IH].
Qed.

Lemma processingCount_app (a b : list QueueItem.t) :
  processingCount (a ++ b) = processingCount a + processingCount b.
Proof. unfold processingCount. rewrite filter_app, length_app. reflexivity. Qed.

Lemma hasStatus_true (s : Status) (q : QueueItem.t) :
  hasStatus s q = true <-> QueueItem.status q = s.
Proof.
  unfold hasStatus. destruct (QueueItem.status q), s; simpl;
    split; congruence.
Qed.

End Queue.

Section QueueInvariant.

Import App.

Variable randomUUID : nat -> jsstring.

Lemma idsDrawn_ids (st : State) :
  idsDrawn randomUUID st <->
  Forall (fun i => exists n, n < uuidsDrawn st /\ i = randomUUID n)
         (map QueueItem.id (processingQueue st)).
Proof. unfold idsDrawn. rewrite Forall_map. reflexivity. Qed.

(** A state whose queue has the identifiers of an earlier one, in the
    same order, inherits the first two parts of the invariant. *)
Lemma queueInvariant_same_ids (st st' : State) :
  queueInvariant randomUUID st ->
  map QueueItem.id (processingQueue st') = map QueueItem.id (processingQueue st) ->
  uuidsDrawn st <= uuidsDrawn st' ->
  processingCount (processingQueue st') <= 1 ->
  queueInvariant randomUUID st'.
Proof.
  intros (Hnd & Hdrawn & _) Hids Hle Hcount. split; [|split].
  - rewrite Hids. exact Hnd.
  - apply idsDrawn_ids. rewrite Hids. apply idsDrawn_ids in Hdrawn.
    eapply Forall_impl; [|exact Hdrawn].
    intros i (n & Hn & ->). exists n. split; [lia | reflexivity].
  - exact Hcount.
Qed.

Lemma newItems_ids (n : nat) (files : list File.t) (projectName : jsstring) :
  map QueueItem.id (newItems randomUUID n files projectName)
  = map randomUUID (seq n (length files)).
Proof.
  revert n; induction files as [|f files IH]; intros n; simpl; [reflexivity|].
  rewrite IH. reflexivity.
Qed.

Lemma newItems_files (n : nat) (files : list File.t) (projectName : jsstring) :
  map QueueItem.file (newItems randomUUID n files projectName) = files.
Proof.
  revert n; induction files as [|f files IH]; intros n; simpl; [reflexivity|].
  rewrite IH. reflexivity.
Qed.

Lemma newItems_pending (n : nat) (files : list File.t) (projectName : jsstring) :
  Forall (fun q => QueueItem.status q = pending
                   /\ QueueItem.projectName q = projectName
                   /\ QueueItem.name q = File.name (QueueItem.file q)
                   /\ QueueItem.progress q = None)
         (newItems randomUUID n files projectName).
Proof.
  revert n; induction files as [|f files IH]; intros n; simpl; constructor; auto.
Qed.

Lemma newItems_length (n : nat) (files : list File.t) (projectName : jsstring) :
  length (newItems randomUUID n files projectName) = length files.
Proof.
  revert n; induction files as [|f files IH]; intros n; simpl; auto.
Qed.

Lemma newItems_not_processing (n : nat) (files : list File.t)
    (projectName : jsstring) :
  processingCount (newItems randomUUID n files projectName) = 0.
Proof.
  unfold processingCount.
  revert n; induction files as [|f files IH]; intros n; simpl; auto.
Qed.

Hypothesis randomUUID_inj : forall m n, randomUUID m = randomUUID n -> m = n.

Lemma initial_invariant : queueInvariant randomUUID initial.
Proof.
  split; [constructor | split; [constructor | simpl; lia]].
Qed.

Lemma handleStartUpload_invariant (files : list File.t) (projectName : jsstring)
    (st : State) :
  queueInvariant randomUUID st ->
  queueInvariant randomUUID (handleStartUpload randomUUID files projectName st).
Proof.
  intros (Hnd & Hdrawn & Hcount). apply idsDrawn_ids in Hdrawn.
  split; [|split].
  - simpl. rewrite map_app, newItems_ids. apply NoDup_app; [exact Hnd| |].
    + apply Injective_map_NoDup; [exact randomUUID_inj | apply seq_NoDup].
    + intros i Hold Hnew. rewrite Forall_forall in Hdrawn.
      destruct (Hdrawn i Hold) as (n & Hn & ->).
      apply in_map_iff in Hnew as (m & Hm & Hin).
      apply randomUUID_inj in Hm. subst m. apply in_seq in Hin. lia.
  - apply idsDrawn_ids. simpl. rewrite map_app, newItems_ids.
    apply Forall_app. split.
    + eapply Forall_impl; [|exact Hdrawn].
      intros i (n & Hn & ->). exists n. split; [lia | reflexivity].
    + apply Forall_forall. intros i Hin.
      apply in_map_iff in Hin as (m & <- & Hin). apply in_seq in Hin.
      exists m. split; [lia | reflexivity].
  - simpl. fold (processingCount (processingQueue st
        ++ newItems randomUUID (uuidsDrawn st) files projectName)).
    rewrite processingCount_app, newItems_not_processing.
    unfold processingCount. lia.
Qed.

(** What the effect does when it dispatches. *)
Lemma schedulingEffect_dispatch (st : State) (item : QueueItem.t) :
  NoDup (map QueueItem.id (processingQueue st)) ->
  nextItem (processingQueue st) = Some item ->
  someProcessing (processingQueue st) = false ->
  exists pre post,
    processingQueue st = pre ++ item :: post
    /\ Forall (fun q => QueueItem.status q <> pending) pre
    /\ QueueItem.status item = pending
    /\ schedulingEffect st =
       (setProcessingQueue (fun _ => pre ++ QueueItem.withStatus item processing :: post)
          (setIsProcessingGlobal true st),
        StartedJob item (length (processingQueue st)))
    /\ processingCount (pre ++ QueueItem.withStatus item processing :: post) = 1.
Proof.
  intros Hnd Hnext Hfree.
  destruct (find_first _ _ Hnext) as (pre & post & Hq & Hpre & Hitem).
  exists pre, post. split; [exact Hq|]. split; [|split; [|split]].
  - eapply Forall_impl; [|exact Hpre]. intros q Hf Hp.
    apply hasStatus_true in Hp. congruence.
  - apply hasStatus_true. exact Hitem.
  - unfold schedulingEffect. rewrite Hnext, Hfree. cbn [negb].
    f_equal. unfold setProcessingQueue. f_equal.
    cbn [processingQueue setIsProcessingGlobal].
    rewrite Hq. rewrite Hq in Hnd. apply markStatus_split. exact Hnd.
  - apply someProcessing_count in Hfree. rewrite Hq in Hfree.
    rewrite processingCount_app in *.
    change (item :: post) with ([item] ++ post) in Hfree.
    change (QueueItem.withStatus item processing :: post)
      with ([QueueItem.withStatus item processing] ++ post).
    rewrite processingCount_app in *.
    change (processingCount [QueueItem.withStatus item processing]) with 1.
    lia.
Qed.

Lemma schedulingEffect_invariant (st : State) :
  queueInvariant randomUUID st ->
  queueInvariant randomUUID (fst (schedulingEffect st)).
Proof.
  intros Hinv. pose proof Hinv as (Hnd & _ & Hcount).
  destruct (nextItem (processingQueue st)) as [item|] eqn:Hnext;
    destruct (someProcessing (processingQueue st)) eqn:Hfree.
  - unfold schedulingEffect. rewrite Hnext, Hfree. exact Hinv.
  - destruct (schedulingEffect_dispatch _ Hnd Hnext Hfree)
      as (pre & post & Hq & _ & _ & Heff & Hone).
    rewrite Heff. cbn [fst].
    apply queueInvariant_same_ids with (st := st); auto.
    + cbn [processingQueue setProcessingQueue]. rewrite Hq, !map_app. reflexivity.
    + cbn [processingQueue setProcessingQueue]. rewrite Hone. lia.
  - unfold schedulingEffect. rewrite Hnext, Hfree. exact Hinv.
  - unfold schedulingEffect. rewrite Hnext, Hfree. cbn [negb].
    destruct (hasDone (processingQueue st) && negb (isProcessingGlobal st));
      cbn [fst]; apply queueInvariant_same_ids with (st := st); auto.
Qed.

Lemma step_invariant (st : State) (e : Event) :
  queueInvariant randomUUID st -> queueInvariant randomUUID (step randomUUID st e).
Proof.
  intros Hinv. pose proof Hinv as (Hnd & Hdrawn & Hcount).
  destruct e; cbn [step].
  - apply handleStartUpload_invariant. exact Hinv.
  - apply schedulingEffect_invariant. exact Hinv.
  - unfold jobSucceeded, addRecording.
    destruct (Nat.eqb queueLength 1);
      apply queueInvariant_same_ids with (st := st); auto; cbn;
      try apply markStatus_ids; try lia;
      (etransitivity; [apply markStatus_settles; discriminate | exact Hcount]).
  - apply queueInvariant_same_ids with (st := st); auto; cbn.
    + apply markStatus_ids.
    + etransitivity; [apply markStatus_settles; discriminate | exact Hcount].
  - split; [constructor | split; [constructor | simpl; lia]].
  - apply queueInvariant_same_ids with (st := st); auto; cbn; lia.
  - unfold updateRecording.
    destruct (selectedHasId st (Recording.id rec));
      apply queueInvariant_same_ids with (st := st); auto.
  - unfold deleteRecording.
    destruct (selectedHasId st id);
      apply queueInvariant_same_ids with (st := st); auto.
  - apply queueInvariant_same_ids with (st := st); auto.
  - apply queueInvariant_same_ids with (st := st); auto.
  - apply queueInvariant_same_ids with (st := st); auto.
  - destruct storedRecordings;
      apply queueInvariant_same_ids with (st := st); auto.
Qed.

Lemma run_invariant (events : list Event) :
  queueInvariant randomUUID (run randomUUID events).
Proof.
  unfold run. induction events as [|e events IH] using rev_ind.
  - apply initial_invariant.
  - rewrite fold_left_app. apply step_invariant. exact IH.
Qed.

Lemma reachable_invariant (st : State) :
  reachable randomUUID st -> queueInvariant randomUUID st.
Proof. intros [events <-]. apply run_invariant. Qed.

(** The queue of a reachable state is in insertion order. *)
Lemma sorted_then_later (ns : list nat) (n len : nat) :
  StronglySorted lt ns -> Forall (fun m => m < n) ns ->
  StronglySorted lt (ns ++ seq n len).
Proof.
  intros Hs Hlt. induction ns as [|m ns IH]; simpl.
  - clear. revert n. induction len as [|len IH]; intros n; simpl; constructor.
    + apply IH.
    + apply Forall_forall. intros k Hk. apply in_seq in Hk. lia.
  - inversion Hs as [|? ? Hs' Hall]; subst. inversion Hlt as [|? ? Hm Hlt']; subst.
    constructor; [apply IH; assumption|].
    apply Forall_app. split; [exact Hall|].
    apply Forall_forall. intros k Hk. apply in_seq in Hk. lia.
Qed.

Lemma insertionOrdered_same_ids (st st' : State) :
  insertionOrdered randomUUID st ->
  map QueueItem.id (processingQueue st') = map QueueItem.id (processingQueue st) ->
  uuidsDrawn st <= uuidsDrawn st' ->
  insertionOrdered randomUUID st'.
Proof.
  intros (ns & Hids & Hs & Hlt) Heq Hle. exists ns.
  split; [congruence|]. split; [exact Hs|].
  eapply Forall_impl; [|exact Hlt]. intros n Hn. simpl in Hn. lia.
Qed.

Lemma schedulingEffect_ids (st : State) :
  map QueueItem.id (processingQueue (fst (schedulingEffect st)))
    = map QueueItem.id (processingQueue st)
  /\ uuidsDrawn (fst (schedulingEffect st)) = uuidsDrawn st.
Proof.
  unfold schedulingEffect.
  destruct (nextItem (processingQueue st)),
           (someProcessing (processingQueue st)); cbn [negb fst]; auto.
  - split; [apply markStatus_ids | reflexivity].
  - destruct (hasDone (processingQueue st) && negb (isProcessingGlobal st)); auto.
Qed.

Lemma step_insertionOrdered (st : State) (e : Event) :
  insertionOrdered randomUUID st ->
  insertionOrdered randomUUID (step randomUUID st e).
Proof.
  intros Hinv. destruct e; cbn [step].
  - destruct Hinv as (ns & Hids & Hs & Hlt).
    exists (ns ++ seq (uuidsDrawn st) (length files)). split; [|split].
    + cbn. rewrite !map_app, newItems_ids, Hids. reflexivity.
    + apply sorted_then_later; assumption.
    + cbn. apply Forall_app. split.
      * eapply Forall_impl; [|exact Hlt]. intros n Hn. simpl in Hn. lia.
      * apply Forall_forall. intros n Hn. apply in_seq in Hn. lia.
  - destruct (schedulingEffect_ids st) as [Hi Hu].
    apply insertionOrdered_same_ids with (st := st); auto. lia.
  - unfold jobSucceeded, addRecording.
    destruct (Nat.eqb queueLength 1);
      apply insertionOrdered_same_ids with (st := st); auto; cbn;
      try apply markStatus_ids; lia.
  - apply insertionOrdered_same_ids with (st := st); auto; cbn.
    apply markStatus_ids.
  - exists []. split; [reflexivity|]. split; constructor.
  - apply insertionOrdered_same_ids with (st := st); auto; cbn; lia.
  - apply insertionOrdered_same_ids with (st := st); auto;
      unfold updateRecording;
      destruct (selectedHasId st (Recording.id rec)); cbn; auto.
  - apply insertionOrdered_same_ids with (st := st); auto;
      unfold deleteRecording; destruct (selectedHasId st id); cbn; auto.
  - apply insertionOrdered_same_ids with (st := st); auto.
  - apply insertionOrdered_same_ids with (st := st); auto.
  - apply insertionOrdered_same_ids with (st := st); auto.
  - destruct storedRecordings;
      apply insertionOrdered_same_ids with (st := st); auto.
Qed.

Lemma reachable_insertionOrdered (st : State) :
  reachable randomUUID st -> insertionOrdered randomUUID st.
Proof.
  intros [events <-]. unfold run.
  induction events as [|e events IH] using rev_ind.
  - exists []. split; [reflexivity|]. split; constructor.
  - rewrite fold_left_app. apply step_insertionOrdered. exact IH.
Qed.

End QueueInvariant.

Section QueueClaims.

Import App.

Variable randomUUID : nat -> jsstring.

(** C4: [handleStartUpload] appends one item per file, in the order of
    the files, each one [pending], named after its file and carrying the
    given project name; the items already queued stay as they are, and
    so do the recordings. *)
Theorem handleStartUpload_appends_pending_items
    (files : list File.t) (projectName : jsstring) (st : State) :
  exists items,
    processingQueue (handleStartUpload randomUUID files projectName st)
      = processingQueue st ++ items
    /\ length items = length files
    /\ map QueueItem.file items = files
    /\ Forall (fun q => QueueItem.status q = pending
                        /\ QueueItem.projectName q = projectName
                        /\ QueueItem.name q = File.name (QueueItem.file q)
                        /\ QueueItem.progress q = None) items
    /\ map QueueItem.id items
       = map randomUUID (seq (uuidsDrawn st) (length files))
    /\ recordings (handleStartUpload randomUUID files projectName st)
       = recordings st
    /\ selectedRecording (handleStartUpload randomUUID files projectName st)
       = selectedRecording st.
Proof.
  exists (newItems randomUUID (uuidsDrawn st) files projectName).
  split; [reflexivity|]. split; [apply newItems_length|].
  split; [apply newItems_files|]. split; [apply newItems_pending|].
  split; [apply newItems_ids|]. split; reflexivity.
Qed.

Hypothesis randomUUID_inj : forall m n, randomUUID m = randomUUID n -> m = n.

(** C5: the queue of a reachable state is in insertion order; when
    it has no item in processing and some item pending, the effect
    starts the job of its first pending item and turns that item, and no
    other, to [processing]: in the queue it leaves, the items before
    and after are as they were, and in their place between them stands
    an item whose status is [processing] and whose identifier, name,
    progress, project and file are those of the item started. *)
Theorem scheduler_dispatches_first_pending_item (st : State) :
  reachable randomUUID st ->
  someProcessing (processingQueue st) = false ->
  (exists q, In q (processingQueue st) /\ QueueItem.status q = pending) ->
  insertionOrdered randomUUID st
  /\ exists pre item post,
    processingQueue st = pre ++ item :: post
    /\ Forall (fun q => QueueItem.status q <> pending) pre
    /\ QueueItem.status item = pending
    /\ snd (schedulingEffect st) = StartedJob item (length (processingQueue st))
    /\ processingQueue (fst (schedulingEffect st))
       = pre ++ QueueItem.withStatus item processing :: post
    /\ (exists started,
          processingQueue (fst (schedulingEffect st)) = pre ++ started :: post
          /\ QueueItem.status started = processing
          /\ QueueItem.id started = QueueItem.id item
          /\ QueueItem.name started = QueueItem.name item
          /\ QueueItem.progress started = QueueItem.progress item
          /\ QueueItem.projectName started = QueueItem.projectName item
          /\ QueueItem.file started = QueueItem.file item)
    /\ map QueueItem.status (processingQueue (fst (schedulingEffect st)))
       = map QueueItem.status pre ++ processing :: map QueueItem.status post
    /\ processingCount (processingQueue (fst (schedulingEffect st))) = 1
    /\ isProcessingGlobal (fst (schedulingEffect st)) = true.
Proof.
  intros Hreach Hfree (q & Hin & Hq).
  split; [apply reachable_insertionOrdered; assumption|].
  destruct (reachable_invariant randomUUID_inj Hreach) as (Hnd & _ & _).
  destruct (nextItem (processingQueue st)) as [item|] eqn:Hnext.
  - destruct (schedulingEffect_dispatch _ Hnd Hnext Hfree)
      as (pre & post & Hsplit & Hpre & Hitem & Heff & Hone).
    exists pre, item, post. rewrite Heff.
    cbn [fst snd processingQueue setProcessingQueue isProcessingGlobal
         setIsProcessingGlobal].
    split; [exact Hsplit|]. split; [exact Hpre|]. split; [exact Hitem|].
    split; [reflexivity|]. split; [reflexivity|].
    split; [|split; [|split; [exact Hone | reflexivity]]].
    + exists (QueueItem.withStatus item processing). repeat split.
    + rewrite map_app. reflexivity.
  - exfalso. apply find_none_iff in Hnext. rewrite Forall_forall in Hnext.
    specialize (Hnext q Hin). apply hasStatus_true in Hq. congruence.
Qed.

(** C1: in every reachable state at most one item of the queue is
    [processing]; the effect leaves a state with an item in processing
    as it is, and the job it starts otherwise is that of a pending item
    of the queue. *)
Theorem at_most_one_item_is_processing (st : State) :
  reachable randomUUID st ->
  processingCount (processingQueue st) <= 1
  /\ (someProcessing (processingQueue st) = true ->
      schedulingEffect st = (st, StartedNothing))
  /\ (forall item n,
        snd (schedulingEffect st) = StartedJob item n ->
        someProcessing (processingQueue st) = false
        /\ In item (processingQueue st)
        /\ QueueItem.status item = pending)
  /\ processingCount (processingQueue (fst (schedulingEffect st))) <= 1.
Proof.
  intros Hreach.
  pose proof (reachable_invariant randomUUID_inj Hreach) as Hinv.
  split; [apply Hinv|]. split; [|split].
  - intros Hbusy. unfold schedulingEffect. rewrite Hbusy.
    destruct (nextItem (processingQueue st)); reflexivity.
  - intros item n. unfold schedulingEffect.
    destruct (nextItem (processingQueue st)) as [item'|] eqn:Hnext;
      destruct (someProcessing (processingQueue st)) eqn:Hfree; cbn [negb snd];
      try discriminate.
    + intros H. injection H as -> _. split; [reflexivity|].
      destruct (find_first _ _ Hnext) as (pre & post & Hq & _ & Hitem).
      split; [rewrite Hq; apply in_elt | apply hasStatus_true; exact Hitem].
    + destruct (hasDone (processingQueue st) && negb (isProcessingGlobal st));
        discriminate.
  - apply (schedulingEffect_invariant (randomUUID := randomUUID)). exact Hinv.
Qed.

End QueueClaims.

(* ------------------------------------------------------------------ *)
(** ** The queue on the sample uploads *)

Lemma lit_inj (a b : string) : lit a = lit b -> a = b.
Proof.
  unfold lit. intros H.
  rewrite <- (string_of_list_ascii_of_string a),
          <- (string_of_list_ascii_of_string b).
  f_equal. revert H.
  generalize (list_ascii_of_string a) (list_ascii_of_string b).
  intros l; induction l as [|x l IH]; intros [|y l']; simpl;
    try discriminate; [reflexivity|].
  intros H. injection H as Hx Hl. f_equal; [|auto].
  rewrite <- (ascii_N_embedding x), <- (ascii_N_embedding y), Hx. reflexivity.
Qed.

Lemma to_uint_not_nil (n : nat) : Nat.to_uint n <> Decimal.Nil.
Proof.
  intros H. pose proof (DecimalNat.Unsigned.of_to n) as Hn.
  rewrite H in Hn. simpl in Hn. subst n. discriminate H.
Qed.

Lemma sample_uuid_inj (m n : nat) : Sample.uuid m = Sample.uuid n -> m = n.
Proof.
  unfold Sample.uuid, ofNat. intros H. apply app_inv_head in H.
  apply lit_inj in H.
  apply DecimalNat.Unsigned.to_uint_inj.
  pose proof (NilZero.usu _ (to_uint_not_nil m)) as Hm.
  pose proof (NilZero.usu _ (to_uint_not_nil n)) as Hn.
  rewrite H in Hm. congruence.
Qed.

Lemma scheduler_dispatch_witness :
  App.insertionOrdered Sample.uuid (App.run Sample.uuid Sample.busyDay)
  /\ map QueueItem.status
       (App.processingQueue (App.run Sample.uuid Sample.busyDay))
     = [error; pending; pending]
  /\ (exists pre item post,
        App.processingQueue (App.run Sample.uuid Sample.busyDay)
          = pre ++ item :: post
        /\ Forall (fun q => QueueItem.status q <> pending) pre
        /\ QueueItem.status item = pending
        /\ snd (App.schedulingEffect (App.run Sample.uuid Sample.busyDay))
           = App.StartedJob item 3
        /\ map QueueItem.status
             (App.processingQueue
                (fst (App.schedulingEffect (App.run Sample.uuid Sample.busyDay))))
           = map QueueItem.status pre ++ processing :: map QueueItem.status post)
  /\ map QueueItem.status
       (App.processingQueue
          (fst (App.schedulingEffect (App.run Sample.uuid Sample.busyDay))))
     = [error; processing; pending]
  /\ map QueueItem.name
       (App.processingQueue
          (fst (App.schedulingEffect (App.run Sample.uuid Sample.busyDay))))
     = [lit "call-1.wav"; lit "standup.mp4"; lit "call-2.wav"].
Proof.
  destruct (@scheduler_dispatches_first_pending_item Sample.uuid sample_uuid_inj
              (App.run Sample.uuid Sample.busyDay))
    as (Hord & pre & item & post & Hsplit & Hpre & Hitem & Hjob & _ & _
        & Hstatus & _).
  - exists Sample.busyDay. reflexivity.
  - vm_compute. reflexivity.
  - eexists. split; [right; left; reflexivity | vm_compute; reflexivity].
  - split; [exact Hord|]. split; [vm_compute; reflexivity|].
    split; [|split; vm_compute; reflexivity].
    exists pre, item, post. repeat split; assumption.
Defined.

Lemma one_processing_witness :
  App.processingCount
    (App.processingQueue (App.run Sample.uuid Sample.twoUploaded)) <= 1
  /\ App.schedulingEffect (App.run Sample.uuid Sample.twoUploaded)
     = (App.run Sample.uuid Sample.twoUploaded, App.StartedNothing).
Proof.
  destruct (at_most_one_item_is_processing sample_uuid_inj
              (st := App.run Sample.uuid Sample.twoUploaded))
    as (Hcount & Hbusy & _ & _).
  - exists Sample.twoUploaded. reflexivity.
  - split; [exact Hcount | apply Hbusy; vm_compute; reflexivity].
Defined.

(* ------------------------------------------------------------------ *)
(** ** The recording store *)

Section Store.

Import App.

(** [map] with the replacement of [updateRecording] keeps the
    identifiers, in order. *)
Lemma replace_ids (u : Recording.t) (l : list Recording.t) :
  map Recording.id
    (map (fun r => if eqb (Recording.id r) (Recording.id u) then u else r) l)
  = map Recording.id l.
Proof.
  rewrite map_map. apply map_ext. intros r.
  destruct (eqb (Recording.id r) (Recording.id u)) eqn:He; [|reflexivity].
  apply eqb_eq in He. congruence.
Qed.

(** With distinct identifiers the replacement touches one place. *)
Lemma replace_split (u old : Recording.t) (pre post : list Recording.t) :
  Recording.id u = Recording.id old ->
  NoDup (map Recording.id (pre ++ old :: post)) ->
  map (fun r => if eqb (Recording.id r) (Recording.id u) then u else r)
      (pre ++ old :: post)
  = pre ++ u :: post.
Proof.
  intros Hid Hnd. rewrite map_app. simpl. rewrite Hid, eqb_refl.
  rewrite map_app in Hnd. simpl in Hnd.
  apply NoDup_remove in Hnd as [_ Hnotin].
  f_equal; [|f_equal].
  - rewrite <- (map_id pre) at 2. apply map_ext_in. intros r Hr.
    destruct (eqb (Recording.id r) (Recording.id old)) eqn:He; [|reflexivity].
    apply eqb_eq in He. exfalso. apply Hnotin. apply in_or_app. left.
    rewrite <- He. apply in_map. exact Hr.
  - rewrite <- (map_id post) at 2. apply map_ext_in. intros r Hr.
    destruct (eqb (Recording.id r) (Recording.id old)) eqn:He; [|reflexivity].
    apply eqb_eq in He. exfalso. apply Hnotin. apply in_or_app. right.
    rewrite <- He. apply in_map. exact Hr.
Qed.

Lemma updateRecording_recordings (u : Recording.t) (st : State) :
  recordings (updateRecording u st)
  = map (fun r => if eqb (Recording.id r) (Recording.id u) then u else r)
        (recordings st).
Proof.
  unfold updateRecording.
  destruct (selectedHasId st (Recording.id u)); reflexivity.
Qed.

Lemma updateRecording_selected (u : Recording.t) (st : State) :
  selectedRecording (updateRecording u st)
  = if selectedHasId st (Recording.id u) then Some u else selectedRecording st.
Proof.
  unfold updateRecording.
  destruct (selectedHasId st (Recording.id u)); reflexivity.
Qed.

Lemma updateRecording_queue (u : Recording.t) (st : State) :
  processingQueue (updateRecording u st) = processingQueue st.
Proof.
  unfold updateRecording.
  destruct (selectedHasId st (Recording.id u)); reflexivity.
Qed.

(** C9: toggling the bookmark of a recording of the store, whose
    identifiers are distinct, puts in its place the same recording with
    the flag negated (an absent flag counting as false); the other
    recordings, their order and the queue are untouched. *)
Theorem toggleBookmark_flips_only_the_flag (rec : Recording.t) (st : State) :
  In rec (recordings st) ->
  NoDup (map Recording.id (recordings st)) ->
  exists pre post rec',
    recordings st = pre ++ rec :: post
    /\ recordings (KnowledgeBase.toggleBookmark rec st) = pre ++ rec' :: post
    /\ Recording.isBookmarked rec'
       = Some (negb (match Recording.isBookmarked rec with
                     | Some b => b
                     | None => false
                     end))
    /\ (Recording.id rec' = Recording.id rec
        /\ Recording.name rec' = Recording.name rec
        /\ Recording.projectName rec' = Recording.projectName rec
        /\ Recording.subject rec' = Recording.subject rec
        /\ Recording.transcript rec' = Recording.transcript rec
        /\ Recording.fullText rec' = Recording.fullText rec
        /\ Recording.dateCreated rec' = Recording.dateCreated rec
        /\ Recording.meetingDate rec' = Recording.meetingDate rec
        /\ Recording.remarks rec' = Recording.remarks rec
        /\ Recording.mediaUrl rec' = Recording.mediaUrl rec
        /\ Recording.attendees rec' = Recording.attendees rec)
    /\ processingQueue (KnowledgeBase.toggleBookmark rec st) = processingQueue st
    /\ selectedRecording (KnowledgeBase.toggleBookmark rec st)
       = if selectedHasId st (Recording.id rec) then Some rec'
         else selectedRecording st.
Proof.
  intros Hin Hnd. destruct (in_split _ _ Hin) as (pre & post & Hsplit).
  exists pre, post,
    (Recording.withIsBookmarked rec (KnowledgeBase.notBookmarked rec)).
  split; [exact Hsplit|]. split.
  - unfold KnowledgeBase.toggleBookmark. rewrite updateRecording_recordings.
    rewrite Hsplit. rewrite Hsplit in Hnd.
    apply (@replace_split
             (Recording.withIsBookmarked rec (KnowledgeBase.notBookmarked rec))
             rec pre post eq_refl Hnd).
  - split.
    + unfold KnowledgeBase.notBookmarked. simpl.
      destruct (Recording.isBookmarked rec) as [[|]|]; reflexivity.
    + split; [repeat split|]. split.
      * apply updateRecording_queue.
      * exact (updateRecording_selected
                 (Recording.withIsBookmarked rec (KnowledgeBase.notBookmarked rec))
                 st).
Qed.

(** C10: deleting by identifier keeps exactly the recordings with
    another identifier, in their order; the selection is cleared when it
    has the identifier and kept otherwise; the queue is untouched. *)
Theorem deleteRecording_removes_that_recording_only (id : jsstring) (st : State) :
  (forall r, In r (recordings (deleteRecording id st))
             <-> In r (recordings st) /\ Recording.id r <> id)
  /\ recordings (deleteRecording id st)
     = filter (fun r => negb (eqb (Recording.id r) id)) (recordings st)
  /\ (forall pre rec post,
        recordings st = pre ++ rec :: post ->
        Recording.id rec = id ->
        NoDup (map Recording.id (recordings st)) ->
        recordings (deleteRecording id st) = pre ++ post)
  /\ (forall r, selectedRecording st = Some r -> Recording.id r = id ->
        selectedRecording (deleteRecording id st) = None)
  /\ (forall r, selectedRecording st = Some r -> Recording.id r <> id ->
        selectedRecording (deleteRecording id st) = Some r)
  /\ (selectedRecording st = None ->
        selectedRecording (deleteRecording id st) = None)
  /\ processingQueue (deleteRecording id st) = processingQueue st.
Proof.
  assert (Hrec : recordings (deleteRecording id st)
     = filter (fun r => negb (eqb (Recording.id r) id)) (recordings st)).
  { unfold deleteRecording. destruct (selectedHasId st id); reflexivity. }
  split; [|split; [exact Hrec|split; [|split; [|split; [|split]]]]].
  - intros r. rewrite Hrec, filter_In, negb_true_iff, eqb_neq. tauto.
  - intros pre rec post Hsplit Hid Hnd. rewrite Hrec, Hsplit.
    rewrite Hsplit, map_app in Hnd. simpl in Hnd.
    apply NoDup_remove in Hnd as [_ Hnotin].
    rewrite filter_app. simpl. rewrite Hid, eqb_refl. simpl.
    f_equal; apply forallb_filter_id; apply forallb_forall; intros r Hr;
      apply negb_true_iff, eqb_neq; intros He; apply Hnotin, in_or_app;
      [left | right]; rewrite Hid, <- He; apply in_map; exact Hr.
  - intros r Hsel Hid. unfold deleteRecording, selectedHasId.
    rewrite Hsel, Hid, eqb_refl. reflexivity.
  - intros r Hsel Hid. unfold deleteRecording, selectedHasId. rewrite Hsel.
    apply eqb_neq in Hid. rewrite Hid. cbn. exact Hsel.
  - intros Hsel. unfold deleteRecording, selectedHasId. rewrite Hsel. cbn.
    exact Hsel.
  - unfold deleteRecording. destruct (selectedHasId st id); reflexivity.
Qed.

End Store.

Section StoreInvariant.

Import App.

Variable randomUUID : nat -> jsstring.

(** Dropping recordings keeps their identifiers distinct. *)
Lemma filter_keeps_ids_distinct (keep : Recording.t -> bool)
    (recs : list Recording.t) :
  NoDup (map Recording.id recs) ->
  NoDup (map Recording.id (filter keep recs)).
Proof.
  intros Hnd. induction recs as [|r recs IH]; cbn [filter map] in *; [exact Hnd|].
  apply NoDup_cons_iff in Hnd as [Hfresh Hrest].
  destruct (keep r); cbn [map]; [|exact (IH Hrest)].
  apply NoDup_cons; [|exact (IH Hrest)].
  intros Hin. apply Hfresh.
  apply in_map_iff in Hin as (r0 & Hid & Hr0).
  apply filter_In in Hr0 as [Hr0 _].
  apply in_map_iff. exists r0. auto.
Qed.

(** A store whose identifiers are distinct and among those of an
    earlier store inherits the invariant. *)
Lemma storeInvariant_sub (st st' : State) :
  storeInvariant randomUUID st ->
  NoDup (map Recording.id (recordings st')) ->
  incl (map Recording.id (recordings st')) (map Recording.id (recordings st)) ->
  uuidsDrawn st <= uuidsDrawn st' ->
  storeInvariant randomUUID st'.
Proof.
  intros (_ & Hdrawn) Hnd Hsub Hle. split; [exact Hnd|].
  apply Forall_forall. intros r Hr.
  destruct (proj1 (in_map_iff _ _ _) (Hsub _ (in_map Recording.id _ _ Hr)))
    as (r0 & Hid & Hr0).
  rewrite Forall_forall in Hdrawn. destruct (Hdrawn r0 Hr0) as (n & Hn & Hrn).
  exists n. split; [lia | congruence].
Qed.

Hypothesis randomUUID_inj : forall m n, randomUUID m = randomUUID n -> m = n.

Lemma addRecording_storeInvariant (rec : RecordingInput.t) (now : jsstring)
    (st : State) :
  storeInvariant randomUUID st ->
  storeInvariant randomUUID (fst (addRecording randomUUID rec now st)).
Proof.
  intros (Hnd & Hdrawn). split; simpl.
  - constructor; [|exact Hnd]. intros Hin.
    apply in_map_iff in Hin as (r & Hid & Hr).
    rewrite Forall_forall in Hdrawn. destruct (Hdrawn r Hr) as (n & Hn & Hrn).
    rewrite Hrn in Hid. apply randomUUID_inj in Hid. lia.
  - constructor.
    + exists (uuidsDrawn st). split; [lia | reflexivity].
    + eapply Forall_impl; [|exact Hdrawn].
      intros r (n & Hn & Hid). exists n. split; [lia | exact Hid].
Qed.

Lemma schedulingEffect_store (st : State) :
  recordings (fst (schedulingEffect st)) = recordings st
  /\ uuidsDrawn (fst (schedulingEffect st)) = uuidsDrawn st.
Proof.
  unfold schedulingEffect.
  destruct (nextItem (processingQueue st)),
           (someProcessing (processingQueue st)); cbn [negb fst]; auto.
  destruct (hasDone (processingQueue st) && negb (isProcessingGlobal st)); auto.
Qed.

Lemma step_storeInvariant (st : State) (e : Event) :
  loadsNothing e ->
  storeInvariant randomUUID st -> storeInvariant randomUUID (step randomUUID st e).
Proof.
  intros Hload Hinv. pose proof Hinv as (Hnd & Hdrawn).
  destruct e; cbn [step];
    try (destruct storedRecordings; [destruct Hload | exact Hinv]).
  - apply storeInvariant_sub with (st := st); auto; cbn; [apply incl_refl | lia].
  - destruct (schedulingEffect_store st) as [Hr Hu].
    apply storeInvariant_sub with (st := st); auto; rewrite ?Hr, ?Hu; auto.
    apply incl_refl.
  - pose proof (addRecording_storeInvariant
                  {| RecordingInput.name := File.name (QueueItem.file item);
                     RecordingInput.projectName := QueueItem.projectName item;
                     RecordingInput.subject := GeminiService.Result.subject result;
                     RecordingInput.transcript := GeminiService.Result.transcript result;
                     RecordingInput.fullText := GeminiService.Result.fullText result;
                     RecordingInput.meetingDate := today;
                     RecordingInput.remarks := None;
                     RecordingInput.isBookmarked := None;
                     RecordingInput.mediaUrl := Some url;
                     RecordingInput.attendees := None |} now Hinv) as Hadd.
    unfold jobSucceeded. unfold addRecording in *. cbn [fst] in Hadd.
    destruct (Nat.eqb queueLength 1); exact Hadd.
  - exact Hinv.
  - exact Hinv.
  - apply addRecording_storeInvariant. exact Hinv.
  - apply storeInvariant_sub with (st := st); auto;
      rewrite ?updateRecording_recordings, ?replace_ids; auto.
    + apply incl_refl.
    + unfold updateRecording.
      destruct (selectedHasId st (Recording.id rec)); cbn; lia.
  - assert (Hrec : recordings (deleteRecording id st)
       = filter (fun r => negb (eqb (Recording.id r) id)) (recordings st)).
    { unfold deleteRecording. destruct (selectedHasId st id); reflexivity. }
    apply storeInvariant_sub with (st := st); auto; rewrite ?Hrec.
    + apply filter_keeps_ids_distinct. exact Hnd.
    + intros i Hi. apply in_map_iff in Hi as (r & <- & Hr).
      apply in_map. apply filter_In in Hr as [Hr _]. exact Hr.
    + unfold deleteRecording. destruct (selectedHasId st id); cbn; lia.
  - exact Hinv.
  - exact Hinv.
  - exact Hinv.
Qed.

(** As long as nothing is loaded from local storage the recordings of
    the store have distinct identifiers drawn from the generator. *)
Lemma run_storeInvariant (events : list Event) :
  Forall loadsNothing events ->
  storeInvariant randomUUID (run randomUUID events).
Proof.
  unfold run. induction events as [|e events IH] using rev_ind; intros Hload.
  - split; constructor.
  - apply Forall_app in Hload as [Hload He]. inversion He; subst.
    rewrite fold_left_app. apply step_storeInvariant; auto.
Qed.

(** The invariant of a session without loads gives the one that loads
    keep too. *)
Lemma storeInvariant_distinct (st : State) :
  storeInvariant randomUUID st -> storeDistinct randomUUID st.
Proof.
  intros (Hnd & Hdrawn). split; [exact Hnd|].
  intros n Hn Hin. apply in_map_iff in Hin as (r & Hid & Hr).
  rewrite Forall_forall in Hdrawn. destruct (Hdrawn r Hr) as (m & Hm & Hrm).
  rewrite Hrm in Hid. apply randomUUID_inj in Hid. lia.
Qed.

(** A store whose identifiers are distinct and among those of an
    earlier store has none the generator is still to give. *)
Lemma storeDistinct_sub (st st' : State) :
  storeDistinct randomUUID st ->
  NoDup (map Recording.id (recordings st')) ->
  incl (map Recording.id (recordings st')) (map Recording.id (recordings st)) ->
  uuidsDrawn st <= uuidsDrawn st' ->
  storeDistinct randomUUID st'.
Proof.
  intros (_ & Hfresh) Hnd Hsub Hle. split; [exact Hnd|].
  intros n Hn Hin. apply (Hfresh n); [lia | apply Hsub; exact Hin].
Qed.

Lemma addRecording_storeDistinct (rec : RecordingInput.t) (now : jsstring)
    (st : State) :
  storeDistinct randomUUID st ->
  storeDistinct randomUUID (fst (addRecording randomUUID rec now st)).
Proof.
  intros (Hnd & Hfresh). split; simpl.
  - constructor; [|exact Hnd]. apply Hfresh. lia.
  - intros n Hn [Hid | Hin].
    + apply randomUUID_inj in Hid. lia.
    + apply (Hfresh n); [lia | exact Hin].
Qed.

Lemma step_storeDistinct (st : State) (e : Event) :
  loadsDistinct randomUUID e ->
  storeDistinct randomUUID st -> storeDistinct randomUUID (step randomUUID st e).
Proof.
  intros Hload Hinv. pose proof Hinv as (Hnd & Hfresh).
  destruct e; cbn [step].
  - apply storeDistinct_sub with (st := st); auto; cbn; [apply incl_refl | lia].
  - destruct (schedulingEffect_store st) as [Hr Hu].
    apply storeDistinct_sub with (st := st); auto; rewrite ?Hr, ?Hu; auto.
    apply incl_refl.
  - pose proof (addRecording_storeDistinct
                  {| RecordingInput.name := File.name (QueueItem.file item);
                     RecordingInput.projectName := QueueItem.projectName item;
                     RecordingInput.subject := GeminiService.Result.subject result;
                     RecordingInput.transcript := GeminiService.Result.transcript result;
                     RecordingInput.fullText := GeminiService.Result.fullText result;
                     RecordingInput.meetingDate := today;
                     RecordingInput.remarks := None;
                     RecordingInput.isBookmarked := None;
                     RecordingInput.mediaUrl := Some url;
                     RecordingInput.attendees := None |} now Hinv) as Hadd.
    unfold jobSucceeded. unfold addRecording in *. cbn [fst] in Hadd.
    destruct (Nat.eqb queueLength 1); exact Hadd.
  - exact Hinv.
  - exact Hinv.
  - apply addRecording_storeDistinct. exact Hinv.
  - apply storeDistinct_sub with (st := st); auto;
      rewrite ?updateRecording_recordings, ?replace_ids; auto.
    + apply incl_refl.
    + unfold updateRecording.
      destruct (selectedHasId st (Recording.id rec)); cbn; lia.
  - assert (Hrec : recordings (deleteRecording id st)
       = filter (fun r => negb (eqb (Recording.id r) id)) (recordings st)).
    { unfold deleteRecording. destruct (selectedHasId st id); reflexivity. }
    apply storeDistinct_sub with (st := st); auto; rewrite ?Hrec.
    + apply filter_keeps_ids_distinct. exact Hnd.
    + intros i Hi. apply in_map_iff in Hi as (r & <- & Hr).
      apply in_map. apply filter_In in Hr as [Hr _]. exact Hr.
    + unfold deleteRecording. destruct (selectedHasId st id); cbn; lia.
  - exact Hinv.
  - exact Hinv.
  - exact Hinv.
  - destruct storedRecordings as [l|]; [|exact Hinv].
    destruct Hload as (Hl & Hunused). split; [exact Hl|].
    intros n _. apply Hunused. lia.
Qed.

(** Whatever a session loads, as long as the loaded recordings have
    distinct identifiers the generator never gives, the store keeps
    its identifiers distinct. *)
Lemma run_storeDistinct (events : list Event) :
  Forall (loadsDistinct randomUUID) events ->
  storeDistinct randomUUID (run randomUUID events).
Proof.
  unfold run. induction events as [|e events IH] using rev_ind; intros Hload.
  - split; [constructor | intros n _ []].
  - apply Forall_app in Hload as [Hload He]. inversion He; subst.
    rewrite fold_left_app. apply step_storeDistinct; auto.
Qed.

End StoreInvariant.

(* ------------------------------------------------------------------ *)
(** ** Renaming a speaker *)

Section Rename.

Import Dashboard.

Lemma strictEq_eq (a b : option jsstring) : strictEq a b = true <-> a = b.
Proof.
  destruct a as [x|], b as [y|]; simpl;
    try (split; [discriminate | congruence]); [|tauto].
  rewrite eqb_eq. split; [congruence | intros H; injection H; auto].
Qed.

Lemma strictEq_neq (a b : option jsstring) : strictEq a b = false <-> a <> b.
Proof.
  destruct (strictEq a b) eqn:E.
  - apply strictEq_eq in E. split; [discriminate | congruence].
  - split; [intros _ H | reflexivity]. apply strictEq_eq in H. congruence.
Qed.

(** A blank name ends the edit and changes nothing else. *)
Lemma handleRenameSpeaker_blank (segmentId newName : jsstring) (d : State) :
  trim newName = [] ->
  handleRenameSpeaker segmentId newName d = (setEditingSpeakerId None d, None).
Proof. intros H. unfold handleRenameSpeaker. rewrite H. reflexivity. Qed.

(** C8 (as amended): with a recording open in the dashboard and a new
    name that is not blank, renaming from an anchor segment hands to the
    store the same recording in which every segment with the anchor's
    old speaker has the new name as its speaker and its identifier,
    timestamp, text, translation and language as before, every other
    segment is as before, and [fullText] is computed again from these
    segments, one line [[timestamp] speaker: text] per segment, joined
    by line feeds; a blank new name leaves the recording alone. *)
Theorem handleRenameSpeaker_renames_the_speaker_everywhere
    (r : Recording.t) (d0 : State) (segmentId newName : jsstring)
    (anchor : TranscriptSegment.t) :
  find (fun s => eqb (TranscriptSegment.id s) segmentId) (Recording.transcript r)
    = Some anchor ->
  (trim newName = [] ->
     handleRenameSpeaker segmentId newName (syncInitial (Some r) d0)
     = (setEditingSpeakerId None (syncInitial (Some r) d0), None))
  /\ (trim newName <> [] ->
      exists r',
        snd (handleRenameSpeaker segmentId newName (syncInitial (Some r) d0))
          = Some r'
        /\ length (Recording.transcript r') = length (Recording.transcript r)
        /\ (forall i seg,
              nth_error (Recording.transcript r) i = Some seg ->
              (TranscriptSegment.speaker seg = TranscriptSegment.speaker anchor ->
                 nth_error (Recording.transcript r') i
                 = Some (TranscriptSegment.withSpeaker seg newName))
              /\ (TranscriptSegment.speaker seg <> TranscriptSegment.speaker anchor ->
                 nth_error (Recording.transcript r') i = Some seg))
        /\ Recording.fullText r' = fullTextOf (Recording.transcript r')
        /\ (Recording.id r' = Recording.id r
            /\ Recording.name r' = Recording.name r
            /\ Recording.projectName r' = Recording.projectName r
            /\ Recording.subject r' = Recording.subject r
            /\ Recording.dateCreated r' = Recording.dateCreated r
            /\ Recording.meetingDate r' = Recording.meetingDate r
            /\ Recording.remarks r' = Recording.remarks r
            /\ Recording.isBookmarked r' = Recording.isBookmarked r
            /\ Recording.mediaUrl r' = Recording.mediaUrl r
            /\ Recording.attendees r' = Recording.attendees r)
        /\ transcript (fst (handleRenameSpeaker segmentId newName
                              (syncInitial (Some r) d0)))
           = Recording.transcript r'
        /\ fullText (fst (handleRenameSpeaker segmentId newName
                            (syncInitial (Some r) d0)))
           = Recording.fullText r'
        /\ (forall st,
              snd (renameSpeaker segmentId newName (syncInitial (Some r) d0, st))
              = App.updateRecording r' st)
        /\ (forall i seg,
              nth_error (Recording.transcript r) i = Some seg ->
              exists seg',
                nth_error (Recording.transcript r') i = Some seg'
                /\ TranscriptSegment.id seg' = TranscriptSegment.id seg
                /\ TranscriptSegment.timestamp seg' = TranscriptSegment.timestamp seg
                /\ TranscriptSegment.text seg' = TranscriptSegment.text seg
                /\ TranscriptSegment.translatedText seg'
                   = TranscriptSegment.translatedText seg
                /\ TranscriptSegment.language seg' = TranscriptSegment.language seg
                /\ (TranscriptSegment.speaker seg = TranscriptSegment.speaker anchor ->
                    TranscriptSegment.speaker seg' = Some newName)
                /\ (TranscriptSegment.speaker seg <> TranscriptSegment.speaker anchor ->
                    TranscriptSegment.speaker seg' = TranscriptSegment.speaker seg))
        /\ Recording.fullText r'
           = join [10%N]
               (map (fun s => lit "[" ++ TranscriptSegment.timestamp s ++ lit "] "
                                ++ interp (TranscriptSegment.speaker s)
                                ++ lit ": " ++ TranscriptSegment.text s)
                    (Recording.transcript r'))).
Proof.
  intros Hfind. split; [apply handleRenameSpeaker_blank|].
  intros Hname.
  assert (Hold : oldName (Recording.transcript r) segmentId
                 = TranscriptSegment.speaker anchor).
  { unfold oldName. rewrite Hfind. reflexivity. }
  exists (Recording.withTranscript r
            (renameIn (Recording.transcript r) segmentId newName)
            (fullTextOf (renameIn (Recording.transcript r) segmentId newName))).
  assert (Hrun : handleRenameSpeaker segmentId newName (syncInitial (Some r) d0)
    = (setEditingSpeakerId None
         (setTranscriptAndFullText
            (renameIn (Recording.transcript r) segmentId newName)
            (fullTextOf (renameIn (Recording.transcript r) segmentId newName))
            (syncInitial (Some r) d0)),
       Some (Recording.withTranscript r
               (renameIn (Recording.transcript r) segmentId newName)
               (fullTextOf (renameIn (Recording.transcript r) segmentId newName))))).
  { unfold handleRenameSpeaker.
    destruct (trim newName) as [|c rest]; [congruence | reflexivity]. }
  split; [rewrite Hrun; reflexivity|].
  split; [apply length_map|]. split; [|split; [reflexivity|]].
  - intros i seg Hnth. cbn [Recording.transcript Recording.withTranscript].
    unfold renameIn. rewrite nth_error_map, Hnth, Hold. cbn [option_map].
    split; intros Hsp.
    + apply strictEq_eq in Hsp. rewrite Hsp. reflexivity.
    + apply strictEq_neq in Hsp. rewrite Hsp. reflexivity.
  - split; [repeat split|]. split; [rewrite Hrun; reflexivity|].
    split; [rewrite Hrun; reflexivity|].
    split; [intros st; unfold renameSpeaker; cbn [fst snd]; rewrite Hrun;
            reflexivity|].
    split; [|reflexivity].
    intros i seg Hnth. cbn [Recording.transcript Recording.withTranscript].
    unfold renameIn. rewrite nth_error_map, Hnth, Hold. cbn [option_map].
    destruct (strictEq (TranscriptSegment.speaker seg)
                       (TranscriptSegment.speaker anchor)) eqn:Hsp.
    + eexists. split; [reflexivity|].
      do 5 (split; [reflexivity|]). split; [reflexivity|].
      intros Hne. apply strictEq_eq in Hsp. contradiction.
    + eexists. split; [reflexivity|].
      do 5 (split; [reflexivity|]). split; [|reflexivity].
      intros Heq. apply strictEq_neq in Hsp. contradiction.
Qed.

End Rename.

(* ------------------------------------------------------------------ *)
(** ** The store and the rename on the sample recordings *)

Lemma sample_store_ids : NoDup (map Recording.id (App.recordings Sample.store)).
Proof.
  repeat constructor; simpl; intros H;
    repeat (destruct H as [H | H]; [vm_compute in H; discriminate|]); exact H.
Qed.

Lemma toggleBookmark_witness :
  exists pre post rec',
    App.recordings Sample.store = pre ++ Sample.recA :: post
    /\ App.recordings (KnowledgeBase.toggleBookmark Sample.recA Sample.store)
       = pre ++ rec' :: post
    /\ Recording.isBookmarked rec' = Some true
    /\ Recording.fullText rec' = Recording.fullText Sample.recA
    /\ App.selectedRecording (KnowledgeBase.toggleBookmark Sample.recA Sample.store)
       = Some rec'.
Proof.
  destruct (@toggleBookmark_flips_only_the_flag Sample.recA Sample.store)
    as (pre & post & rec' & Hsplit & Hnew & Hflag & Hfields & _ & Hsel).
  - right. left. reflexivity.
  - exact sample_store_ids.
  - exists pre, post, rec'. split; [exact Hsplit|]. split; [exact Hnew|].
    split; [exact Hflag|]. split; [apply Hfields | exact Hsel].
Defined.

Lemma deleteRecording_witness :
  App.recordings (App.deleteRecording (Recording.id Sample.recA) Sample.store)
    = [Sample.recB]
  /\ App.selectedRecording
       (App.deleteRecording (Recording.id Sample.recA) Sample.store) = None
  /\ App.selectedRecording
       (App.deleteRecording (Recording.id Sample.recB) Sample.store)
     = Some Sample.recA.
Proof.
  destruct (deleteRecording_removes_that_recording_only
              (Recording.id Sample.recA) Sample.store)
    as (_ & _ & Hone & Hclear & _ & _ & _).
  destruct (deleteRecording_removes_that_recording_only
              (Recording.id Sample.recB) Sample.store)
    as (_ & _ & _ & _ & Hkeep & _ & _).
  split; [|split].
  - apply (Hone [Sample.recB] Sample.recA []);
      [reflexivity | reflexivity | exact sample_store_ids].
  - apply (Hclear Sample.recA); reflexivity.
  - apply (Hkeep Sample.recA); [reflexivity|].
    vm_compute. discriminate.
Defined.

Lemma sample_name_not_blank : trim (lit "Priya") <> [].
Proof. vm_compute. discriminate. Qed.

Lemma handleRenameSpeaker_witness :
  exists r',
    snd (Dashboard.handleRenameSpeaker (TranscriptSegment.id Sample.seg2)
           (lit "Priya") Sample.dashboardA) = Some r'
    /\ nth_error (Recording.transcript r') 0
       = Some (TranscriptSegment.withSpeaker Sample.seg0 (lit "Priya"))
    /\ nth_error (Recording.transcript r') 1 = Some Sample.seg1
    /\ Recording.fullText r' = Dashboard.fullTextOf (Recording.transcript r')
    /\ map TranscriptSegment.speaker (Recording.transcript r')
       = [Some (lit "Priya"); Some (lit "Speaker 2"); Some (lit "Priya"); None]
    /\ map TranscriptSegment.text (Recording.transcript r')
       = [lit "Good morning"; lit "Morning, shall we start?";
          lit "Yes, the invoice first."; lit "(inaudible)"]
    /\ Recording.fullText r'
       = lit "[00:01] Priya: Good morning" ++ [10%N]
         ++ lit "[00:04] Speaker 2: Morning, shall we start?" ++ [10%N]
         ++ lit "[00:09] Priya: Yes, the invoice first." ++ [10%N]
         ++ lit "[00:15] undefined: (inaudible)".
Proof.
  destruct (@handleRenameSpeaker_renames_the_speaker_everywhere
              Sample.recA Dashboard.initial
              (TranscriptSegment.id Sample.seg2) (lit "Priya") Sample.seg2)
    as (_ & Hrename).
  - vm_compute. reflexivity.
  - destruct (Hrename sample_name_not_blank)
      as (r' & Hcall & _ & Hsegs & Htext & _).
    exists r'. split; [exact Hcall|].
    split; [apply (Hsegs 0 Sample.seg0); reflexivity|].
    split; [apply (Hsegs 1 Sample.seg1);
            [reflexivity | vm_compute; discriminate]|].
    split; [exact Htext|].
    vm_compute in Hcall. injection Hcall as <-.
    split; [vm_compute; reflexivity|]. split; vm_compute; reflexivity.
Defined.

(** C8, as stated, fails: with a new name made of blanks the handler
    returns before any segment is touched, so the segments that share
    the anchor's speaker keep the old label. *)
Lemma blank_rename_updates_no_segment :
  find (fun s => eqb (TranscriptSegment.id s) (TranscriptSegment.id Sample.seg0))
       (Recording.transcript Sample.recA) = Some Sample.seg0
  /\ Dashboard.renameSpeaker (TranscriptSegment.id Sample.seg0) Sample.blankName
       (Sample.dashboardA, Sample.store)
     = (Sample.dashboardA, Sample.store)
  /\ map TranscriptSegment.speaker
       (Dashboard.transcript
          (fst (Dashboard.renameSpeaker (TranscriptSegment.id Sample.seg0)
                  Sample.blankName (Sample.dashboardA, Sample.store))))
     = [Some (lit "Speaker 1"); Some (lit "Speaker 2");
        Some (lit "Speaker 1"); None]
  /\ Dashboard.transcript
       (fst (Dashboard.renameSpeaker (TranscriptSegment.id Sample.seg0)
               Sample.blankName (Sample.dashboardA, Sample.store)))
     <> map (fun seg =>
               if strictEq (TranscriptSegment.speaker seg)
                           (TranscriptSegment.speaker Sample.seg0)
               then TranscriptSegment.withSpeaker seg Sample.blankName
               else seg)
            (Recording.transcript Sample.recA).
Proof.
  split; [vm_compute; reflexivity|]. split; [vm_compute; reflexivity|].
  split; [vm_compute; reflexivity|]. vm_compute. discriminate.
Qed.

(* ================================================================== *)
(** * Further properties *)

(* ------------------------------------------------------------------ *)
(** ** Trimming and the repair *)

Lemma trimStart_kept (s : jsstring) (c : N) :
  isWhiteSpace c = false -> trimStart (c :: s) = c :: s.
Proof. intros H. simpl. rewrite H. reflexivity. Qed.

(** What [trimStart] leaves is empty or begins with a character that
    is not white space. *)
Lemma trimStart_head (s : jsstring) :
  trimStart s = []
  \/ exists c r, trimStart s = c :: r /\ isWhiteSpace c = false.
Proof.
  induction s as [|c s IH]; simpl; [left; reflexivity|].
  destruct (isWhiteSpace c) eqn:Hc; [exact IH|].
  right. exists c, s. auto.
Qed.

Lemma trimStart_idem (s : jsstring) : trimStart (trimStart s) = trimStart s.
Proof.
  destruct (trimStart_head s) as [-> | (c & r & -> & Hc)]; [reflexivity|].
  apply trimStart_kept. exact Hc.
Qed.

(** [trimStart] drops a prefix. *)
Lemma trimStart_suffix (s : jsstring) : exists p, s = p ++ trimStart s.
Proof.
  induction s as [|c s [p IH]]; simpl; [exists []; reflexivity|].
  destruct (isWhiteSpace c).
  - exists (c :: p). simpl. rewrite <- IH. reflexivity.
  - exists []. reflexivity.
Qed.

(** A trimmed string is not changed by [trimStart]. *)
Lemma trimStart_trim (s : jsstring) : trimStart (trim s) = trim s.
Proof.
  unfold trim, trimEnd.
  destruct (trimStart_suffix (rev (trimStart s))) as [p Hp].
  set (u := trimStart (rev (trimStart s))) in *.
  assert (Hv : trimStart s = rev u ++ rev p).
  { rewrite <- rev_app_distr, <- Hp, rev_involutive. reflexivity. }
  destruct (rev u) as [|c r] eqn:Hu; [reflexivity|].
  destruct (trimStart_head s) as [He | (c' & r' & Hs & Hc)].
  - rewrite He in Hv. discriminate.
  - rewrite Hs in Hv. simpl in Hv. injection Hv as -> _.
    apply trimStart_kept. exact Hc.
Qed.

Lemma trimStart_rev_trim (s : jsstring) :
  trimStart (rev (trim s)) = rev (trim s).
Proof.
  unfold trim, trimEnd. rewrite rev_involutive. apply trimStart_idem.
Qed.

(** A string that [trimStart] keeps, from both ends, is its own
    [trim]. *)
Lemma trim_kept (s : jsstring) :
  trimStart s = s -> trimStart (rev s) = rev s -> trim s = s.
Proof.
  intros H1 H2. unfold trim, trimEnd. rewrite H1, H2. apply rev_involutive.
Qed.

Lemma trim_idem (s : jsstring) : trim (trim s) = trim s.
Proof. apply trim_kept; [apply trimStart_trim | apply trimStart_rev_trim]. Qed.

(** Appending a suffix that begins and ends with characters that are
    not white space to a trimmed string gives a trimmed string. *)
Lemma trim_app_kept (s : jsstring) (a z : N) (m : jsstring) :
  isWhiteSpace a = false -> isWhiteSpace z = false ->
  trim (trim s ++ a :: m ++ [z]) = trim s ++ a :: m ++ [z].
Proof.
  intros Ha Hz. apply trim_kept.
  - pose proof (trimStart_trim s) as Ht.
    destruct (trim s) as [|c r]; simpl in *.
    + rewrite Ha. reflexivity.
    + destruct (isWhiteSpace c); [|reflexivity].
      exfalso. pose proof (trimStart_suffix r) as [p Hp].
      rewrite Ht in Hp. apply (f_equal (@length N)) in Hp.
      rewrite length_app in Hp. simpl in Hp. lia.
  - change (a :: m ++ [z]) with ((a :: m) ++ [z]).
    rewrite app_assoc, rev_app_distr. simpl. rewrite Hz. reflexivity.
Qed.

Lemma trim_app_brace (s : jsstring) :
  trim (trim s ++ lit "}") = trim s ++ lit "}".
Proof.
  apply trim_kept.
  - pose proof (trimStart_trim s) as Ht.
    destruct (trim s) as [|c r]; simpl in *; [reflexivity|].
    destruct (isWhiteSpace c); [|reflexivity].
    exfalso. pose proof (trimStart_suffix r) as [p Hp].
    rewrite Ht in Hp. apply (f_equal (@length N)) in Hp.
    rewrite length_app in Hp. simpl in Hp. lia.
  - rewrite rev_app_distr. reflexivity.
Qed.

(** X1: whatever the text, the repaired text ends with a closing
    brace and has no white space around it, and repairing it again
    changes nothing. *)
Theorem repair_ends_with_a_brace_and_is_idempotent (text : jsstring) :
  endsWith (GeminiService.repair text) (lit "}") = true
  /\ trim (GeminiService.repair text) = GeminiService.repair text
  /\ GeminiService.repair (GeminiService.repair text) = GeminiService.repair text.
Proof.
  assert (H : endsWith (GeminiService.repair text) (lit "}") = true
              /\ trim (GeminiService.repair text) = GeminiService.repair text).
  { unfold GeminiService.repair. cbv zeta.
    destruct (endsWith (trim text) (lit "}")) eqn:Hb; cbn [negb].
    - split; [exact Hb | apply trim_idem].
    - destruct (endsWith (trim text) (lit "]")) eqn:Hk; cbn [negb].
      + split; [apply endsWith_spec; exists (trim text); reflexivity|].
        apply trim_app_brace.
      + split; [apply endsWith_spec; exists (trim text ++ lit "]");
                rewrite <- app_assoc; reflexivity|].
        apply (trim_app_kept text 93%N 125%N []); reflexivity. }
  destruct H as [Hend Htrim]. split; [exact Hend|]. split; [exact Htrim|].
  unfold GeminiService.repair at 1. cbv zeta. rewrite Htrim, Hend. reflexivity.
Qed.

(* ------------------------------------------------------------------ *)
(** ** More on the transcription client *)

Section ServiceMore.

Import GeminiService.

Variable E : Env.
Variables media mime : jsstring.

(** X2: with no retries left, zero or a negative number of them, a
    call is its single attempt: one request and no delay, also when the
    error is transient. *)
Theorem processMedia_without_retries_is_one_attempt (k : nat) (retries : Z) :
  (retries <= 0)%Z ->
  processMedia E media mime k retries = attempt E media mime k
  /\ requests (snd (processMedia E media mime k retries)) = 1
  /\ sleeps (snd (processMedia E media mime k retries)) = 0.
Proof.
  intros Hr.
  assert (Heq : processMedia E media mime k retries = attempt E media mime k).
  { rewrite processMedia_unfold.
    destruct (attempt E media mime k) as [[res|err] tr]; [reflexivity|].
    replace (0 <? retries)%Z with false; [reflexivity|].
    symmetry. apply Z.ltb_ge. exact Hr. }
  rewrite Heq. pose proof (attempt_trace E media mime k) as (Hq & Hs & _).
  auto.
Qed.

Lemma orElse_nonempty (o : option jsstring) (d : jsstring) :
  d <> [] -> orElse o d <> [].
Proof. intros Hd. destruct o as [[|c s]|]; simpl; congruence. Qed.

Lemma mapSegments_length (k idx : nat) (l : list RawSegment.t) :
  length (mapSegments E k idx l) = length l.
Proof. revert idx; induction l; intros idx; simpl; auto. Qed.

Lemma mapSegments_nth (k idx i : nat) (l : list RawSegment.t) (s : RawSegment.t) :
  nth_error l i = Some s ->
  nth_error (mapSegments E k idx l) i = Some (withId E k (idx + i) s).
Proof.
  revert idx i; induction l as [|x l IH]; intros idx [|i]; simpl;
    try discriminate.
  - intros H. injection H as ->. rewrite Nat.add_0_r. reflexivity.
  - intros H. rewrite (IH (S idx) i H). f_equal. f_equal. lia.
Qed.

(** Where the result of a successful attempt comes from. *)
Lemma attempt_provenance (k : nat) (res : Result.t) (tr : list io) :
  attempt E media mime k = (Return res, tr) ->
  exists response text data,
    generateContent E k media mime = Return response
    /\ Response.text response = Some text
    /\ text <> []
    /\ (JSON_parse E text = Return data
        \/ (exists e, JSON_parse E text = Throw e)
           /\ JSON_parse E (repair text) = Return data)
    /\ res = buildResult E k data.
Proof.
  unfold attempt, parseData.
  destruct (generateContent E k media mime) as [response|err]; [|discriminate].
  destruct (Response.text response) as [[|c text]|] eqn:Ht; try discriminate.
  destruct (JSON_parse E (c :: text)) as [data|pe] eqn:Hp.
  - intros H. injection H as <- _.
    exists response, (c :: text), data.
    split; [reflexivity|]. split; [exact Ht|]. split; [discriminate|].
    split; [left; exact Hp | reflexivity].
  - destruct (JSON_parse E (repair (c :: text))) as [data|pe'] eqn:Hp2;
      [|discriminate].
    intros H. injection H as <- _.
    exists response, (c :: text), data.
    split; [reflexivity|]. split; [exact Ht|]. split; [discriminate|].
    split; [right; split; [exists pe; exact Hp | exact Hp2] | reflexivity].
Qed.

(** A successful call returns the result of its last attempt, the one
    of request [k + sleeps tr]. *)
Lemma processMediaFrom_last_attempt (n k : nat) (retries : Z) (res : Result.t)
    (tr : list io) :
  processMediaFrom E media mime n k retries = (Return res, tr) ->
  exists tr0 tr1,
    tr = tr0 ++ tr1
    /\ attempt E media mime (k + sleeps tr) = (Return res, tr1).
Proof.
  revert k retries tr. induction n as [|n IH]; intros k retries tr; simpl;
    destruct (attempt E media mime k) as [[res0|err] tr0] eqn:Ha.
  - intros H. injection H as <- <-. exists [], tr0.
    destruct (attempt_sleeps _ _ _ _ Ha) as [-> _].
    rewrite Nat.add_0_r. auto.
  - destruct ((0 <? retries)%Z && transient err); discriminate.
  - intros H. injection H as <- <-. exists [], tr0.
    destruct (attempt_sleeps _ _ _ _ Ha) as [-> _].
    rewrite Nat.add_0_r. auto.
  - destruct ((0 <? retries)%Z && transient err); [|discriminate].
    destruct (processMediaFrom E media mime n (S k) (retries - 1))
      as [r tr'] eqn:Hrec.
    intros H. injection H as -> <-.
    destruct (IH _ _ _ Hrec) as (t0 & t1 & Htr & Hatt).
    exists (tr0 ++ Sleep 3000 :: t0), t1. split.
    + rewrite Htr, <- app_assoc. reflexivity.
    + destruct (attempt_sleeps _ _ _ _ Ha) as [Hs0 _].
      rewrite sleeps_app.
      change (sleeps (Sleep 3000 :: tr')) with (S (sleeps tr')).
      rewrite Hs0. simpl.
      replace (k + S (sleeps tr')) with (S k + sleeps tr') by lia.
      exact Hatt.
Qed.

(** X3: a successful call returns what it builds from the body of the
    last response it received, parsed as it is or after the repair;
    the subject of the result is that of the body, or
    [Untitled Recording] when the body has none, so it is never empty;
    the transcript has the segments of that body, in order, each with
    the timestamp, speaker, text, translation and language the body
    gives it and the identifier [seg-<index>-<time>]. *)
Theorem processMedia_returns_the_last_response
    (k : nat) (retries : Z) (res : Result.t) (tr : list io) :
  processMedia E media mime k retries = (Return res, tr) ->
  exists response text data,
    generateContent E (k + sleeps tr) media mime = Return response
    /\ Response.text response = Some text
    /\ text <> []
    /\ (JSON_parse E text = Return data
        \/ (exists e, JSON_parse E text = Throw e)
           /\ JSON_parse E (repair text) = Return data)
    /\ res = buildResult E (k + sleeps tr) data
    /\ Result.subject res <> []
    /\ (forall i s,
          nth_error (match ResponseData.segments data with
                     | Some l => l
                     | None => []
                     end) i = Some s ->
          nth_error (Result.transcript res) i
          = Some (withId E (k + sleeps tr) i s))
    /\ length (Result.transcript res)
       = length (match ResponseData.segments data with
                 | Some l => l
                 | None => []
                 end)
    /\ (forall i s,
          nth_error (match ResponseData.segments data with
                     | Some l => l
                     | None => []
                     end) i = Some s ->
          exists seg,
            nth_error (Result.transcript res) i = Some seg
            /\ TranscriptSegment.id seg
               = lit "seg-" ++ ofNat i ++ lit "-"
                 ++ ofZ (Date_now E (k + sleeps tr) i)
            /\ TranscriptSegment.timestamp seg = RawSegment.timestamp s
            /\ TranscriptSegment.speaker seg = RawSegment.speaker s
            /\ TranscriptSegment.text seg = RawSegment.text s
            /\ TranscriptSegment.translatedText seg = RawSegment.translatedText s
            /\ TranscriptSegment.language seg = RawSegment.language s)
    /\ (forall subject,
          ResponseData.subject data = Some subject -> subject <> [] ->
          Result.subject res = subject)
    /\ (ResponseData.subject data = None \/ ResponseData.subject data = Some [] ->
        Result.subject res = lit "Untitled Recording").
Proof.
  intros H. unfold processMedia in H.
  destruct (processMediaFrom_last_attempt _ _ _ H) as (t0 & t1 & _ & Hatt).
  destruct (attempt_provenance _ Hatt)
    as (response & text & data & Hg & Ht & Hne & Hp & ->).
  exists response, text, data.
  repeat (split; [assumption || reflexivity|]).
  split; [apply orElse_nonempty; discriminate|].
  split; [intros i s Hnth; apply (mapSegments_nth _ 0 i _ Hnth)|].
  split; [apply mapSegments_length|].
  split; [|split].
  - intros i s Hnth. eexists.
    split; [apply (mapSegments_nth _ 0 i _ Hnth)|].
    repeat split.
  - intros subject Hs Hsub. cbn [buildResult Result.subject]. rewrite Hs.
    destruct subject; [congruence | reflexivity].
  - intros [Hs | Hs]; cbn [buildResult Result.subject]; rewrite Hs; reflexivity.
Qed.

End ServiceMore.

Lemma processMedia_without_retries_witness :
  GeminiService.processMedia Sample.down Sample.media Sample.mime 0 0
    = (Throw Sample.serverError, [GeminiService.Request 0])
  /\ GeminiService.processMedia Sample.down Sample.media Sample.mime 0 (-3)
     = (Throw Sample.serverError, [GeminiService.Request 0]).
Proof.
  destruct (@processMedia_without_retries_is_one_attempt
              Sample.down Sample.media Sample.mime 0 0) as (H0 & _); [lia|].
  destruct (@processMedia_without_retries_is_one_attempt
              Sample.down Sample.media Sample.mime 0 (-3)) as (H3 & _); [lia|].
  split; [rewrite H0 | rewrite H3]; reflexivity.
Defined.

Lemma processMedia_last_response_witness :
  exists res tr,
    GeminiService.processMedia Sample.truncatedOnce Sample.media Sample.mime 0
      GeminiService.defaultRetries = (Return res, tr)
    /\ (exists response text data,
          GeminiService.generateContent Sample.truncatedOnce 1 Sample.media
            Sample.mime = Return response
          /\ GeminiService.Response.text response = Some text
          /\ GeminiService.JSON_parse Sample.truncatedOnce text = Return data
          /\ res = GeminiService.buildResult Sample.truncatedOnce 1 data)
    /\ GeminiService.Result.subject res = lit "Support call"
    /\ map TranscriptSegment.id (GeminiService.Result.transcript res)
       = [lit "seg-0-1700000000000"; lit "seg-1-1700000000001"]
    /\ map TranscriptSegment.timestamp (GeminiService.Result.transcript res)
       = [lit "00:01"; lit "00:05"]
    /\ map TranscriptSegment.speaker (GeminiService.Result.transcript res)
       = [Some (lit "Agent"); Some []]
    /\ map TranscriptSegment.text (GeminiService.Result.transcript res)
       = [lit "Hello"; lit "Namaste"].
Proof.
  exists (GeminiService.buildResult Sample.truncatedOnce 1 Sample.goodData).
  exists [GeminiService.Request 0;
          GeminiService.Parse Sample.truncatedText;
          GeminiService.Parse (GeminiService.repair Sample.truncatedText);
          GeminiService.Sleep 3000;
          GeminiService.Request 1; GeminiService.Parse Sample.goodText].
  assert (Hrun : GeminiService.processMedia Sample.truncatedOnce Sample.media
                   Sample.mime 0 GeminiService.defaultRetries
                 = (Return (GeminiService.buildResult Sample.truncatedOnce 1
                              Sample.goodData),
                    [GeminiService.Request 0;
                     GeminiService.Parse Sample.truncatedText;
                     GeminiService.Parse (GeminiService.repair Sample.truncatedText);
                     GeminiService.Sleep 3000;
                     GeminiService.Request 1; GeminiService.Parse Sample.goodText]))
    by (vm_compute; reflexivity).
  split; [exact Hrun|].
  destruct (@processMedia_returns_the_last_response
              Sample.truncatedOnce Sample.media Sample.mime 0
              GeminiService.defaultRetries _ _ Hrun)
    as (response & text & data & Hg & Ht & _ & Hp & Hres & _).
  split.
  - exists response, text, data. split; [exact Hg|]. split; [exact Ht|].
    split; [|exact Hres].
    destruct Hp as [Hp | [[e He] _]]; [exact Hp|].
    exfalso. change (GeminiService.generateContent Sample.truncatedOnce
                       (0 + 1) Sample.media Sample.mime = Return response) in Hg.
    cbn in Hg. injection Hg as <-. cbn in Ht. injection Ht as <-.
    vm_compute in He. discriminate.
  - split; [vm_compute; reflexivity|]. split; [vm_compute; reflexivity|].
    split; [vm_compute; reflexivity|]. split; vm_compute; reflexivity.
Defined.

(* ------------------------------------------------------------------ *)
(** ** The identifiers of the segments *)

Lemma lit_cons (c : ascii) (s : string) : lit (String c s) = N_of_ascii c :: lit s.
Proof. reflexivity. Qed.

Lemma digits_have_no_dash (d : Decimal.uint) :
  ~ In 45%N (lit (NilEmpty.string_of_uint d)).
Proof.
  induction d; simpl NilEmpty.string_of_uint; [intros []| | | | | | | | | |];
    rewrite lit_cons; intros [H|H]; try (vm_compute in H; discriminate); auto.
Qed.

Lemma ofNat_has_no_dash (n : nat) : ~ In 45%N (ofNat n).
Proof.
  unfold ofNat, NilZero.string_of_uint.
  destruct (Nat.to_uint n) eqn:Hd; try (rewrite <- Hd; apply digits_have_no_dash).
  intros [H|[]]. vm_compute in H. discriminate.
Qed.

Lemma ofNat_inj (m n : nat) : ofNat m = ofNat n -> m = n.
Proof.
  unfold ofNat. intros H. apply lit_inj in H.
  apply DecimalNat.Unsigned.to_uint_inj.
  pose proof (NilZero.usu _ (to_uint_not_nil m)) as Hm.
  pose proof (NilZero.usu _ (to_uint_not_nil n)) as Hn.
  rewrite H in Hm. congruence.
Qed.

(** Two strings that agree up to and after their first dash agree
    before it. *)
Lemma same_before_dash (a b x y : jsstring) :
  ~ In 45%N a -> ~ In 45%N b ->
  a ++ 45%N :: x = b ++ 45%N :: y -> a = b.
Proof.
  revert b. induction a as [|c a IH]; intros [|d b] Ha Hb H; simpl in *.
  - reflexivity.
  - injection H as H _. exfalso. apply Hb. left. congruence.
  - injection H as H _. exfalso. apply Ha. left. exact H.
  - injection H as -> H. f_equal. apply IH; auto.
Qed.

(** The identifier of a segment determines its index. *)
Lemma segmentId_inj (i j : nat) (t t' : Z) :
  GeminiService.segmentId i t = GeminiService.segmentId j t' -> i = j.
Proof.
  unfold GeminiService.segmentId. intros H. apply app_inv_head in H.
  apply ofNat_inj.
  apply (same_before_dash (ofNat i) (ofNat j) (ofZ t) (ofZ t'));
    [apply ofNat_has_no_dash | apply ofNat_has_no_dash | exact H].
Qed.

Lemma mapSegments_ids_from (E : GeminiService.Env) (k idx : nat)
    (l : list GeminiService.RawSegment.t) (x : jsstring) :
  In x (map TranscriptSegment.id (GeminiService.mapSegments E k idx l)) ->
  exists j t, idx <= j /\ x = GeminiService.segmentId j t.
Proof.
  revert idx. induction l as [|s l IH]; intros idx; simpl; [intros []|].
  intros [H | H].
  - exists idx, (GeminiService.Date_now E k idx). split; [lia | auto].
  - destruct (IH (S idx) H) as (j & t & Hj & Hx).
    exists j, t. split; [lia | exact Hx].
Qed.

Lemma mapSegments_ids_distinct (E : GeminiService.Env) (k idx : nat)
    (l : list GeminiService.RawSegment.t) :
  NoDup (map TranscriptSegment.id (GeminiService.mapSegments E k idx l)).
Proof.
  revert idx. induction l as [|s l IH]; intros idx; simpl; constructor.
  - intros Hin. destruct (mapSegments_ids_from _ _ _ _ _ Hin) as (j & t & Hj & Hx).
    apply segmentId_inj in Hx. lia.
  - apply IH.
Qed.

(** The first element with the identifier of [seg] is [seg] itself
    when identifiers are distinct. *)
Lemma find_by_distinct_id (l : list TranscriptSegment.t) (seg : TranscriptSegment.t) :
  NoDup (map TranscriptSegment.id l) -> In seg l ->
  find (fun s => eqb (TranscriptSegment.id s) (TranscriptSegment.id seg)) l
  = Some seg.
Proof.
  induction l as [|x l IH]; simpl; [intros _ []|].
  intros Hnd Hin. apply NoDup_cons_iff in Hnd as [Hfresh Hnd].
  destruct Hin as [-> | Hin]; [rewrite eqb_refl; reflexivity|].
  destruct (eqb (TranscriptSegment.id x) (TranscriptSegment.id seg)) eqn:He.
  - apply eqb_eq in He. exfalso. apply Hfresh. rewrite He.
    apply in_map. exact Hin.
  - apply IH; assumption.
Qed.

(** X4: the segments of a successful result have pairwise distinct
    identifiers, whatever the clock says, even when it stands still
    or runs backwards. *)
Theorem processMedia_segment_ids_are_distinct
    (E : GeminiService.Env) (media mime : jsstring) (k : nat) (retries : Z)
    (res : GeminiService.Result.t) (tr : list GeminiService.io) :
  GeminiService.processMedia E media mime k retries = (Return res, tr) ->
  NoDup (map TranscriptSegment.id (GeminiService.Result.transcript res)).
Proof.
  intros H. unfold GeminiService.processMedia in H.
  destruct (processMediaFrom_returns _ _ _ _ _ _ H) as (k' & data & ->).
  apply mapSegments_ids_distinct.
Qed.

(** X5: in the transcript of a successful result, a rename anchored at
    any segment reads the old name off that very segment; so exactly
    the segments with that segment's speaker get the new name as their
    speaker, with identifier, timestamp, text, translation and language
    as before, and every other segment is as it was. *)
Theorem rename_in_a_result_is_anchored_at_the_chosen_segment
    (E : GeminiService.Env) (media mime : jsstring) (k : nat) (retries : Z)
    (res : GeminiService.Result.t) (tr : list GeminiService.io)
    (seg : TranscriptSegment.t) (newName : jsstring) :
  GeminiService.processMedia E media mime k retries = (Return res, tr) ->
  In seg (GeminiService.Result.transcript res) ->
  Dashboard.oldName (GeminiService.Result.transcript res) (TranscriptSegment.id seg)
  = TranscriptSegment.speaker seg
  /\ Dashboard.renameIn (GeminiService.Result.transcript res)
       (TranscriptSegment.id seg) newName
     = map (fun s =>
              if strictEq (TranscriptSegment.speaker s) (TranscriptSegment.speaker seg)
              then TranscriptSegment.withSpeaker s newName
              else s)
           (GeminiService.Result.transcript res)
  /\ (forall i s,
        nth_error (GeminiService.Result.transcript res) i = Some s ->
        exists s',
          nth_error (Dashboard.renameIn (GeminiService.Result.transcript res)
                       (TranscriptSegment.id seg) newName) i = Some s'
          /\ TranscriptSegment.id s' = TranscriptSegment.id s
          /\ TranscriptSegment.timestamp s' = TranscriptSegment.timestamp s
          /\ TranscriptSegment.text s' = TranscriptSegment.text s
          /\ TranscriptSegment.translatedText s' = TranscriptSegment.translatedText s
          /\ TranscriptSegment.language s' = TranscriptSegment.language s
          /\ (TranscriptSegment.speaker s = TranscriptSegment.speaker seg ->
              TranscriptSegment.speaker s' = Some newName)
          /\ (TranscriptSegment.speaker s <> TranscriptSegment.speaker seg ->
              s' = s)).
Proof.
  intros H Hin.
  assert (Hnd : NoDup (map TranscriptSegment.id (GeminiService.Result.transcript res))).
  { unfold GeminiService.processMedia in H.
    destruct (processMediaFrom_returns _ _ _ _ _ _ H) as (k' & data & ->).
    apply mapSegments_ids_distinct. }
  assert (Hold : Dashboard.oldName (GeminiService.Result.transcript res)
                   (TranscriptSegment.id seg) = TranscriptSegment.speaker seg).
  { unfold Dashboard.oldName. rewrite (find_by_distinct_id _ _ Hnd Hin). reflexivity. }
  split; [exact Hold|].
  split; [unfold Dashboard.renameIn; rewrite Hold; reflexivity|].
  intros i s Hnth. unfold Dashboard.renameIn.
  rewrite nth_error_map, Hnth, Hold. cbn [option_map].
  destruct (strictEq (TranscriptSegment.speaker s) (TranscriptSegment.speaker seg))
    eqn:Hsp.
  - eexists. split; [reflexivity|].
    do 5 (split; [reflexivity|]). split; [reflexivity|].
    intros Hne. apply strictEq_eq in Hsp. contradiction.
  - exists s. split; [reflexivity|].
    do 5 (split; [reflexivity|]). split; [|reflexivity].
    intros Heq. apply strictEq_neq in Hsp. contradiction.
Qed.

Lemma segment_ids_witness :
  NoDup (map TranscriptSegment.id
           (GeminiService.Result.transcript
              (GeminiService.buildResult Sample.steady 0 Sample.goodData))).
Proof.
  apply (@processMedia_segment_ids_are_distinct
           Sample.steady Sample.media Sample.mime 0 GeminiService.defaultRetries
           (GeminiService.buildResult Sample.steady 0 Sample.goodData)
           [GeminiService.Request 0; GeminiService.Parse Sample.goodText]).
  vm_compute. reflexivity.
Defined.

Lemma rename_anchor_witness :
  Dashboard.oldName
    (GeminiService.Result.transcript
       (GeminiService.buildResult Sample.steady 0 Sample.goodData))
    (GeminiService.segmentId 1 1700000000001)
  = Some []
  /\ map TranscriptSegment.speaker
       (Dashboard.renameIn
          (GeminiService.Result.transcript
             (GeminiService.buildResult Sample.steady 0 Sample.goodData))
          (GeminiService.segmentId 1 1700000000001) (lit "Guest"))
     = [Some (lit "Agent"); Some (lit "Guest")]
  /\ map TranscriptSegment.text
       (Dashboard.renameIn
          (GeminiService.Result.transcript
             (GeminiService.buildResult Sample.steady 0 Sample.goodData))
          (GeminiService.segmentId 1 1700000000001) (lit "Guest"))
     = [lit "Hello"; lit "Namaste"].
Proof.
  destruct (@rename_in_a_result_is_anchored_at_the_chosen_segment
              Sample.steady Sample.media Sample.mime 0 GeminiService.defaultRetries
              (GeminiService.buildResult Sample.steady 0 Sample.goodData)
              [GeminiService.Request 0; GeminiService.Parse Sample.goodText]
              (GeminiService.withId Sample.steady 0 1
                 {| GeminiService.RawSegment.timestamp := lit "00:05";
                    GeminiService.RawSegment.speaker := Some [];
                    GeminiService.RawSegment.text := lit "Namaste";
                    GeminiService.RawSegment.translatedText := None;
                    GeminiService.RawSegment.language := None |})
              (lit "Guest")) as (Hold & Hrename & _).
  - vm_compute. reflexivity.
  - right. left. reflexivity.
  - split; [exact Hold|].
    change (GeminiService.segmentId 1 1700000000001)
      with (TranscriptSegment.id
              (GeminiService.withId Sample.steady 0 1
                 {| GeminiService.RawSegment.timestamp := lit "00:05";
                    GeminiService.RawSegment.speaker := Some [];
                    GeminiService.RawSegment.text := lit "Namaste";
                    GeminiService.RawSegment.translatedText := None;
                    GeminiService.RawSegment.language := None |})).
    rewrite Hrename. split; vm_compute; reflexivity.
Defined.

(* ------------------------------------------------------------------ *)
(** ** More on the scheduling effect *)

Section EffectMore.

Import App.

Lemma markStatus_in_pending (item : QueueItem.t) (s : Status)
    (queue : list QueueItem.t) (q : QueueItem.t) :
  s <> pending ->
  In q (markStatus item s queue) -> QueueItem.status q = pending ->
  In q queue.
Proof.
  intros Hs Hin Hq. unfold markStatus in Hin.
  apply in_map_iff in Hin as (q0 & Hq0 & Hin).
  destruct (eqb (QueueItem.id q0) (QueueItem.id item)).
  - subst q. simpl in Hq. congruence.
  - subst q. exact Hin.
Qed.

Lemma markStatus_processing_busy (item : QueueItem.t) (queue : list QueueItem.t) :
  In item queue -> someProcessing (markStatus item processing queue) = true.
Proof.
  intros Hin. unfold someProcessing, markStatus.
  apply existsb_exists.
  exists (QueueItem.withStatus item processing). split; [|reflexivity].
  apply in_map_iff. exists item. rewrite eqb_refl. auto.
Qed.

Lemma schedulingEffect_busy (st : State) :
  someProcessing (processingQueue st) = true ->
  schedulingEffect st = (st, StartedNothing).
Proof.
  intros Hbusy. unfold schedulingEffect. rewrite Hbusy.
  destruct (nextItem (processingQueue st)); reflexivity.
Qed.

(** The three ways a run of the effect can go. *)
Lemma schedulingEffect_cases (st : State) :
  (exists item,
      nextItem (processingQueue st) = Some item
      /\ someProcessing (processingQueue st) = false
      /\ schedulingEffect st
         = (setProcessingQueue (markStatus item processing)
              (setIsProcessingGlobal true st),
            StartedJob item (length (processingQueue st))))
  \/ (someProcessing (processingQueue st) = true
      /\ schedulingEffect st = (st, StartedNothing))
  \/ (nextItem (processingQueue st) = None
      /\ someProcessing (processingQueue st) = false
      /\ exists started,
           schedulingEffect st = (setIsProcessingGlobal false st, started)
           /\ (started = StartedTimer \/ started = StartedNothing)).
Proof.
  unfold schedulingEffect.
  destruct (nextItem (processingQueue st)) as [item|] eqn:Hnext;
    destruct (someProcessing (processingQueue st)) eqn:Hbusy; cbn [negb].
  - right. left. auto.
  - left. exists item. auto.
  - right. left. auto.
  - right. right. split; [reflexivity|]. split; [reflexivity|].
    destruct (hasDone (processingQueue st) && negb (isProcessingGlobal st));
      eexists; split; try reflexivity; auto.
Qed.

(** X6: the effect is stable: run on the state it has just produced,
    it starts no job and leaves the queue as it is, so a render that
    follows a dispatch can never dispatch a second item. *)
Theorem schedulingEffect_run_again_starts_no_job (st : State) :
  processingQueue (fst (schedulingEffect (fst (schedulingEffect st))))
    = processingQueue (fst (schedulingEffect st))
  /\ (forall item n,
        snd (schedulingEffect (fst (schedulingEffect st))) <> StartedJob item n)
  /\ (forall item n,
        snd (schedulingEffect st) = StartedJob item n ->
        schedulingEffect (fst (schedulingEffect st))
        = (fst (schedulingEffect st), StartedNothing)).
Proof.
  destruct (schedulingEffect_cases st)
    as [(item & Hnext & Hfree & Heff) | [(Hbusy & Heff)
        | (Hnext & Hfree & started & Heff & Hstarted)]];
    rewrite Heff; cbn [fst snd].
  - assert (Hb : someProcessing
                   (processingQueue
                      (setProcessingQueue (markStatus item processing)
                         (setIsProcessingGlobal true st))) = true).
    { cbn [processingQueue setProcessingQueue setIsProcessingGlobal].
      apply markStatus_processing_busy.
      destruct (find_first _ _ Hnext) as (pre & post & -> & _). apply in_elt. }
    rewrite (schedulingEffect_busy _ Hb).
    split; [reflexivity|]. split; [intros; discriminate | reflexivity].
  - rewrite Heff. split; [reflexivity|]. split; intros; discriminate.
  - destruct (schedulingEffect_cases (setIsProcessingGlobal false st))
      as [(item & Hnext' & _) | [(Hbusy' & _)
          | (_ & _ & started' & Heff' & Hstarted')]].
    + cbn [processingQueue setIsProcessingGlobal] in Hnext'. congruence.
    + cbn [processingQueue setIsProcessingGlobal] in Hbusy'. congruence.
    + rewrite Heff'. cbn [fst snd]. split; [reflexivity|]. split.
      * intros item n. destruct Hstarted' as [-> | ->]; discriminate.
      * intros item n. destruct Hstarted as [-> | ->]; discriminate.
Qed.

(** X7: the effect starts the timer of the sweep only on a queue that
    is not empty and whose items are all done or in error, and only
    once [isProcessingGlobal] is off; it does not touch the queue then.
    Coming from work, the flag is still on: a first run lowers it and
    the next run starts the timer. *)
Theorem sweep_timer_is_started_on_a_settled_queue_only (st : State) :
  (snd (schedulingEffect st) = StartedTimer ->
     Forall (fun q => QueueItem.status q = done \/ QueueItem.status q = error)
            (processingQueue st)
     /\ processingQueue st <> []
     /\ isProcessingGlobal st = false
     /\ processingQueue (fst (schedulingEffect st)) = processingQueue st)
  /\ (Forall (fun q => QueueItem.status q = done \/ QueueItem.status q = error)
             (processingQueue st) ->
      processingQueue st <> [] ->
      (isProcessingGlobal st = false -> snd (schedulingEffect st) = StartedTimer)
      /\ (isProcessingGlobal st = true ->
          snd (schedulingEffect st) = StartedNothing
          /\ snd (schedulingEffect (fst (schedulingEffect st))) = StartedTimer)).
Proof.
  assert (Hsettled : forall queue,
     Forall (fun q => QueueItem.status q = done \/ QueueItem.status q = error) queue ->
     nextItem queue = None /\ someProcessing queue = false
     /\ (queue <> [] -> hasDone queue = true)).
  { intros queue Hall. induction Hall as [|q queue Hq _ (IH1 & IH2 & IH3)].
    - split; [reflexivity|]. split; [reflexivity | congruence].
    - unfold nextItem, someProcessing, hasDone, hasStatus in *. simpl.
      destruct Hq as [-> | ->]; simpl; auto. }
  split.
  - unfold schedulingEffect.
    destruct (nextItem (processingQueue st)) as [item|] eqn:Hnext;
      destruct (someProcessing (processingQueue st)) eqn:Hbusy; cbn [negb snd fst];
      try discriminate.
    destruct (hasDone (processingQueue st)) eqn:Hd;
      destruct (isProcessingGlobal st) eqn:Hg; cbn [andb negb snd fst];
      try discriminate.
    intros _. split; [|split; [|split; reflexivity]].
    + apply find_none_iff in Hnext. apply Forall_forall. intros q Hin.
      rewrite Forall_forall in Hnext. specialize (Hnext q Hin).
      assert (Hp : hasStatus processing q = false).
      { destruct (hasStatus processing q) eqn:Hp; [|reflexivity].
        unfold someProcessing in Hbusy.
        assert (existsb (hasStatus processing) (processingQueue st) = true)
          by (apply existsb_exists; eauto).
        congruence. }
      unfold hasStatus in *. destruct (QueueItem.status q); simpl in *;
        try discriminate; auto.
    + intros He. rewrite He in Hd. discriminate.
  - intros Hall Hne. destruct (Hsettled _ Hall) as (Hn & Hb & Hd).
    specialize (Hd Hne). split.
    + intros Hg. unfold schedulingEffect. rewrite Hn, Hb, Hd, Hg. reflexivity.
    + intros Hg. unfold schedulingEffect at 1 3. rewrite Hn, Hb, Hd, Hg.
      cbn [negb andb fst snd]. split; [reflexivity|].
      unfold schedulingEffect.
      cbn [processingQueue setIsProcessingGlobal isProcessingGlobal].
      rewrite Hn, Hb, Hd. reflexivity.
Qed.

End EffectMore.

Section LifecycleMore.

Import App.

Variable randomUUID : nat -> jsstring.

(** X8: no event puts an item back to [pending]: an item that is
    pending after an event was pending before it, or has just been
    enqueued by that event. *)
Theorem no_item_returns_to_pending (st : State) (e : Event) (q : QueueItem.t) :
  In q (processingQueue (step randomUUID st e)) ->
  QueueItem.status q = pending ->
  (In q (processingQueue st) /\ QueueItem.status q = pending)
  \/ (exists files projectName,
        e = StartUpload files projectName
        /\ In q (newItems randomUUID (uuidsDrawn st) files projectName)).
Proof.
  intros Hin Hq. destruct e; cbn [step] in Hin.
  - cbn in Hin. apply in_app_or in Hin as [Hin | Hin]; [left; auto|].
    right. exists files, projectName. auto.
  - left. split; [|exact Hq]. unfold schedulingEffect in Hin.
    destruct (nextItem (processingQueue st)) as [item|],
             (someProcessing (processingQueue st)); cbn [negb fst] in Hin;
      try exact Hin.
    + cbn [processingQueue setProcessingQueue setIsProcessingGlobal] in Hin.
      eapply markStatus_in_pending; [|exact Hin|exact Hq]. discriminate.
    + destruct (hasDone (processingQueue st) && negb (isProcessingGlobal st));
        exact Hin.
  - left. split; [|exact Hq]. unfold jobSucceeded, addRecording in Hin.
    destruct (Nat.eqb queueLength 1);
      cbn [processingQueue setProcessingQueue setSelectedRecording
           setRecordings drawUuids] in Hin;
      (eapply markStatus_in_pending; [|exact Hin|exact Hq]; discriminate).
  - left. split; [|exact Hq]. unfold jobFailed in Hin.
    cbn [processingQueue setProcessingQueue] in Hin.
    eapply markStatus_in_pending; [|exact Hin|exact Hq]. discriminate.
  - destruct Hin.
  - left. auto.
  - left. rewrite updateRecording_queue in Hin. auto.
  - left. unfold deleteRecording in Hin.
    destruct (selectedHasId st id); auto.
  - left. auto.
  - left. auto.
  - left. auto.
  - left. destruct storedRecordings; auto.
Qed.

End LifecycleMore.

(* ------------------------------------------------------------------ *)
(** ** A job from start to end *)

Section JobsMore.

Import App.

Variable randomUUID : nat -> jsstring.

(** With distinct identifiers, marking by the identifier of [item]
    touches the one element that carries it. *)
Lemma markStatus_split_at (item x : QueueItem.t) (s : Status)
    (pre post : list QueueItem.t) :
  QueueItem.id x = QueueItem.id item ->
  NoDup (map QueueItem.id (pre ++ x :: post)) ->
  markStatus item s (pre ++ x :: post) = pre ++ QueueItem.withStatus x s :: post.
Proof.
  intros Hid Hnd.
  assert (Hsame : forall l, markStatus item s l = markStatus x s l).
  { intros l. unfold markStatus. rewrite Hid. reflexivity. }
  rewrite Hsame. apply markStatus_split. exact Hnd.
Qed.

Lemma finish_recordings (a : Jobs.Awaited) (item : QueueItem.t) (n : nat)
    (st : State) :
  map Recording.transcript (recordings (Jobs.finish randomUUID a item n st))
  = Jobs.transcriptsOf (fun _ => a) [item]
    ++ map Recording.transcript (recordings st).
Proof.
  unfold Jobs.finish, Jobs.transcriptsOf. simpl.
  destruct (Jobs.outcome a) as [result|err]; [|reflexivity].
  unfold jobSucceeded, addRecording. destruct (Nat.eqb n 1); reflexivity.
Qed.

Lemma finish_queue (a : Jobs.Awaited) (item : QueueItem.t) (n : nat)
    (st : State) :
  processingQueue (Jobs.finish randomUUID a item n st)
  = markStatus item (Jobs.verdict a) (processingQueue st).
Proof.
  unfold Jobs.finish, Jobs.verdict.
  destruct (Jobs.outcome a) as [result|err]; [|reflexivity].
  unfold jobSucceeded, addRecording. destruct (Nat.eqb n 1); reflexivity.
Qed.

Lemma verdict_settled (a : Jobs.Awaited) :
  Jobs.verdict a <> pending /\ Jobs.verdict a <> processing.
Proof. unfold Jobs.verdict. destruct (Jobs.outcome a); split; discriminate. Qed.

(** The status every item of the queue ends with. *)
Lemma settle_not_pending (world : QueueItem.t -> Jobs.Awaited)
    (l : list QueueItem.t) :
  Forall (fun q => hasStatus pending q = false) l ->
  map (fun q => if hasStatus pending q
                then QueueItem.withStatus q (Jobs.verdict (world q)) else q) l
  = l.
Proof.
  intros H. rewrite <- (map_id l) at 2. apply map_ext_in. intros q Hq.
  rewrite Forall_forall in H. rewrite (H q Hq). reflexivity.
Qed.

Lemma filter_none (f : QueueItem.t -> bool) (l : list QueueItem.t) :
  Forall (fun q => f q = false) l -> filter f l = [].
Proof.
  induction 1 as [|q l Hq _ IH]; simpl; [reflexivity|]. rewrite Hq. exact IH.
Qed.

Lemma processingCount_zero_split (pre post : list QueueItem.t) (x : QueueItem.t) :
  someProcessing (pre ++ x :: post) = false ->
  someProcessing pre = false /\ someProcessing post = false.
Proof.
  unfold someProcessing. rewrite existsb_app. simpl.
  rewrite !orb_false_iff. tauto.
Qed.

(** The queue left alone, from a state without a job under way. *)
Lemma processAll_from (world : QueueItem.t -> Jobs.Awaited) (fuel : nat) :
  forall st,
    NoDup (map QueueItem.id (processingQueue st)) ->
    someProcessing (processingQueue st) = false ->
    length (filter (hasStatus pending) (processingQueue st)) <= fuel ->
    snd (Jobs.processAll randomUUID fuel world st)
      = filter (hasStatus pending) (processingQueue st)
    /\ processingQueue (fst (Jobs.processAll randomUUID fuel world st))
       = map (fun q => if hasStatus pending q
                       then QueueItem.withStatus q (Jobs.verdict (world q))
                       else q)
             (processingQueue st)
    /\ map Recording.transcript
         (recordings (fst (Jobs.processAll randomUUID fuel world st)))
       = rev (Jobs.transcriptsOf world
                (filter (hasStatus pending) (processingQueue st)))
         ++ map Recording.transcript (recordings st).
Proof.
  induction fuel as [|fuel IH]; intros st Hnd Hfree Hfuel.
  - assert (Hnone : filter (hasStatus pending) (processingQueue st) = []).
    { destruct (filter (hasStatus pending) (processingQueue st));
        [reflexivity | simpl in Hfuel; lia]. }
    simpl. rewrite Hnone. split; [reflexivity|]. split; [|reflexivity].
    symmetry. apply settle_not_pending.
    apply Forall_forall. intros q Hq.
    destruct (hasStatus pending q) eqn:Hp; [|reflexivity].
    assert (In q (filter (hasStatus pending) (processingQueue st)))
      by (apply filter_In; auto).
    rewrite Hnone in H. destruct H.
  - cbn [Jobs.processAll].
    destruct (schedulingEffect_cases st)
      as [(item & Hnext & _ & Heff) | [(Hbusy & _)
          | (Hnext & _ & started & Heff & Hstarted)]]; [| congruence |].
    + rewrite Heff.
      destruct (find_first _ _ Hnext) as (pre & post & Hq & Hpre & Hitem).
      set (st1 := setProcessingQueue (markStatus item processing)
                    (setIsProcessingGlobal true st)) in *.
      set (st2 := Jobs.finish randomUUID (world item) item
                    (length (processingQueue st)) st1).
      assert (Hq1 : processingQueue st1
                    = pre ++ QueueItem.withStatus item processing :: post).
      { subst st1. cbn [processingQueue setProcessingQueue setIsProcessingGlobal].
        rewrite Hq. apply markStatus_split. rewrite <- Hq. exact Hnd. }
      assert (Hq2 : processingQueue st2
                    = pre ++ QueueItem.withStatus item (Jobs.verdict (world item))
                        :: post).
      { subst st2. rewrite finish_queue, Hq1.
        apply (markStatus_split_at item (QueueItem.withStatus item processing));
          [reflexivity|].
        rewrite map_app. simpl. rewrite Hq, map_app in Hnd. exact Hnd. }
      destruct (verdict_settled (world item)) as [Hv1 Hv2].
      assert (Hsettled : hasStatus pending
                (QueueItem.withStatus item (Jobs.verdict (world item))) = false).
      { unfold hasStatus. simpl. destruct (Jobs.verdict (world item));
          simpl; congruence. }
      assert (Hnotproc : hasStatus processing
                (QueueItem.withStatus item (Jobs.verdict (world item))) = false).
      { unfold hasStatus. simpl. destruct (Jobs.verdict (world item));
          simpl; congruence. }
      rewrite Hq in Hfree. destruct (processingCount_zero_split _ _ _ Hfree)
        as [Hfree1 Hfree2].
      assert (Hpend : filter (hasStatus pending) (processingQueue st)
                      = item :: filter (hasStatus pending) post).
      { rewrite Hq, filter_app, (filter_none _ Hpre). simpl.
        rewrite Hitem. reflexivity. }
      assert (Hpend2 : filter (hasStatus pending) (processingQueue st2)
                       = filter (hasStatus pending) post).
      { rewrite Hq2, filter_app, (filter_none _ Hpre). simpl.
        rewrite Hsettled. reflexivity. }
      destruct (IH st2) as (Hlog & Hqueue & Hrecs).
      * rewrite Hq2, map_app. simpl. rewrite Hq, map_app in Hnd. exact Hnd.
      * rewrite Hq2. unfold someProcessing in *. rewrite existsb_app. simpl.
        rewrite Hfree1, Hfree2, Hnotproc. reflexivity.
      * rewrite Hpend2. rewrite Hpend in Hfuel. simpl in Hfuel. lia.
      * destruct (Jobs.processAll randomUUID fuel world st2) as [final started].
        cbn [fst snd] in *. split; [|split].
        -- rewrite Hlog, Hpend2, Hpend. reflexivity.
        -- rewrite Hqueue, Hq2, Hq, !map_app. cbn [map].
           rewrite Hsettled, Hitem. reflexivity.
        -- rewrite Hrecs, Hpend2, Hpend. subst st2.
           rewrite finish_recordings. subst st1.
           cbn [recordings setProcessingQueue setIsProcessingGlobal].
           unfold Jobs.transcriptsOf. cbn [flat_map].
           destruct (Jobs.outcome (world item)); cbn [app rev];
             rewrite <- ?app_assoc; reflexivity.
    + rewrite Heff.
      assert (Hret : (let (st', started0) :=
                        (setIsProcessingGlobal false st, started) in
                      match started0 with
                      | StartedJob item n =>
                          let (final, started1) :=
                            Jobs.processAll randomUUID fuel world
                              (Jobs.finish randomUUID (world item) item n st') in
                          (final, item :: started1)
                      | _ => (st', [])
                      end) = (setIsProcessingGlobal false st, [])).
      { destruct Hstarted as [-> | ->]; reflexivity. }
      rewrite Hret. cbn [fst snd processingQueue recordings setIsProcessingGlobal].
      apply find_none_iff in Hnext. rewrite (filter_none _ Hnext).
      split; [reflexivity|]. split; [|reflexivity].
      symmetry. apply settle_not_pending. exact Hnext.
Qed.

End JobsMore.

Section QueueLeftAlone.

Import App.

Variable randomUUID : nat -> jsstring.


Hypothesis randomUUID_inj : forall m n, randomUUID m = randomUUID n -> m = n.

(** X9: a reachable queue with no job under way, left alone, is
    worked off in order: the jobs are started for its pending items one
    after the other, from the first to the last; every item ends done or
    in error as its job ended, the others keep their status; the store
    receives the transcripts of the successful jobs, the latest first;
    and a further run of the effect starts no job. *)
Theorem queue_left_alone_is_worked_off_in_order
    (world : QueueItem.t -> Jobs.Awaited) (st : State) :
  reachable randomUUID st ->
  someProcessing (processingQueue st) = false ->
  snd (Jobs.processAll randomUUID (length (processingQueue st)) world st)
    = filter (hasStatus pending) (processingQueue st)
  /\ processingQueue
       (fst (Jobs.processAll randomUUID (length (processingQueue st)) world st))
     = map (fun q => if hasStatus pending q
                     then QueueItem.withStatus q (Jobs.verdict (world q))
                     else q)
           (processingQueue st)
  /\ Forall (fun q => QueueItem.status q = done \/ QueueItem.status q = error)
       (processingQueue
          (fst (Jobs.processAll randomUUID (length (processingQueue st)) world st)))
  /\ map Recording.transcript
       (recordings
          (fst (Jobs.processAll randomUUID (length (processingQueue st)) world st)))
     = rev (Jobs.transcriptsOf world
              (filter (hasStatus pending) (processingQueue st)))
       ++ map Recording.transcript (recordings st)
  /\ (forall item n,
        snd (schedulingEffect
               (fst (Jobs.processAll randomUUID (length (processingQueue st))
                       world st)))
        <> StartedJob item n).
Proof.
  intros Hreach Hfree.
  destruct (reachable_invariant randomUUID_inj Hreach) as (Hnd & _ & _).
  destruct (@processAll_from randomUUID world (length (processingQueue st))
              st Hnd Hfree (filter_length_le _ _)) as (Hlog & Hqueue & Hrecs).
  assert (Hall : Forall (fun q => QueueItem.status q = done
                                  \/ QueueItem.status q = error)
            (processingQueue
               (fst (Jobs.processAll randomUUID (length (processingQueue st))
                       world st)))).
  { rewrite Hqueue. apply Forall_forall. intros q Hq.
    apply in_map_iff in Hq as (q0 & <- & Hq0).
    destruct (hasStatus pending q0) eqn:Hp.
    - simpl. unfold Jobs.verdict. destruct (Jobs.outcome (world q0)); auto.
    - assert (Hproc : hasStatus processing q0 = false).
      { destruct (hasStatus processing q0) eqn:Hproc; [|reflexivity].
        assert (someProcessing (processingQueue st) = true)
          by (apply existsb_exists; eauto).
        congruence. }
      unfold hasStatus in *. destruct (QueueItem.status q0); simpl in *;
        try discriminate; auto. }
  split; [exact Hlog|]. split; [exact Hqueue|]. split; [exact Hall|].
  split; [exact Hrecs|].
  intros item n Hjob.
  destruct (schedulingEffect_cases
              (fst (Jobs.processAll randomUUID (length (processingQueue st))
                      world st)))
    as [(item' & Hnext & _ & _) | [(_ & Heff)
        | (_ & _ & started & Heff & Hstarted)]].
  - destruct (find_first _ _ Hnext) as (pre & post & Hq & _ & Hitem).
    rewrite Hq in Hall. apply Forall_elt in Hall.
    apply hasStatus_true in Hitem. destruct Hall; congruence.
  - rewrite Heff in Hjob. discriminate.
  - rewrite Heff in Hjob. destruct Hstarted as [-> | ->]; discriminate.
Qed.

End QueueLeftAlone.

(* ------------------------------------------------------------------ *)
(** ** More on the store *)

Section StoreMore.

Import App.

Variable randomUUID : nat -> jsstring.

(** X12: [updateRecording] never adds or removes a recording: the
    identifiers of the store stay the same, in the same order; with an
    identifier the store does not hold nothing is changed, and the
    selection changes only when it carries that identifier. *)
Theorem updateRecording_never_adds_or_removes (u : Recording.t) (st : State) :
  map Recording.id (recordings (updateRecording u st))
    = map Recording.id (recordings st)
  /\ length (recordings (updateRecording u st)) = length (recordings st)
  /\ (~ In (Recording.id u) (map Recording.id (recordings st)) ->
      recordings (updateRecording u st) = recordings st)
  /\ (selectedHasId st (Recording.id u) = false ->
      selectedRecording (updateRecording u st) = selectedRecording st)
  /\ processingQueue (updateRecording u st) = processingQueue st.
Proof.
  rewrite updateRecording_recordings, updateRecording_selected,
          updateRecording_queue.
  split; [apply replace_ids|]. split; [apply length_map|].
  split; [|split; [intros ->; reflexivity | reflexivity]].
  intros Hnot. rewrite <- (map_id (recordings st)) at 2.
  apply map_ext_in. intros r Hr.
  destruct (eqb (Recording.id r) (Recording.id u)) eqn:He; [|reflexivity].
  apply eqb_eq in He. exfalso. apply Hnot. rewrite <- He.
  apply in_map. exact Hr.
Qed.

Hypothesis randomUUID_inj : forall m n, randomUUID m = randomUUID n -> m = n.

(** X11: whatever the events of a session are, the loading of the
    stored recordings at mount included, the recordings of the store
    have pairwise distinct identifiers and the generator has not yet
    come to any of them, provided the recordings loaded have distinct
    identifiers that the generator never gives.  In a session that
    loads nothing every identifier of the store was drawn from the
    generator before. *)
Theorem store_identifiers_stay_distinct (events : list Event) :
  Forall (loadsDistinct randomUUID) events ->
  NoDup (map Recording.id (recordings (run randomUUID events)))
  /\ (forall n,
        uuidsDrawn (run randomUUID events) <= n ->
        ~ In (randomUUID n)
             (map Recording.id (recordings (run randomUUID events))))
  /\ (Forall loadsNothing events ->
      Forall (fun r => exists n, n < uuidsDrawn (run randomUUID events)
                                 /\ Recording.id r = randomUUID n)
             (recordings (run randomUUID events))).
Proof.
  intros Hload.
  destruct (run_storeDistinct randomUUID_inj Hload) as (Hnd & Hfresh).
  split; [exact Hnd|]. split; [exact Hfresh|].
  intros Hnone. apply (@run_storeInvariant randomUUID randomUUID_inj events Hnone).
Qed.

(** X13: deleting the recording that [addRecording] has just added
    gives back the store as it was, when the identifiers of the store
    were drawn from the generator before. *)
Theorem deleting_a_new_recording_restores_the_store
    (rec : RecordingInput.t) (now : jsstring) (st : State) :
  storeInvariant randomUUID st ->
  recordings (deleteRecording
                (Recording.id (snd (addRecording randomUUID rec now st)))
                (fst (addRecording randomUUID rec now st)))
    = recordings st
  /\ In (snd (addRecording randomUUID rec now st))
        (recordings (fst (addRecording randomUUID rec now st)))
  /\ ~ In (Recording.id (snd (addRecording randomUUID rec now st)))
          (map Recording.id (recordings st)).
Proof.
  intros (Hnd & Hdrawn).
  assert (Hfresh : ~ In (randomUUID (uuidsDrawn st))
                        (map Recording.id (recordings st))).
  { intros Hin. apply in_map_iff in Hin as (r & Hid & Hr).
    rewrite Forall_forall in Hdrawn. destruct (Hdrawn r Hr) as (n & Hn & Hrn).
    rewrite Hrn in Hid. apply randomUUID_inj in Hid. lia. }
  split; [|split; [left; reflexivity | exact Hfresh]].
  unfold deleteRecording, addRecording. cbn [fst snd Recording.id].
  match goal with
  | |- recordings (if ?c then _ else _) = _ => destruct c
  end; cbn [recordings setRecordings setSelectedRecording drawUuids filter
            Recording.id]; rewrite eqb_refl; cbn [negb];
    (apply forallb_filter_id; apply forallb_forall; intros r Hr;
     apply negb_true_iff, eqb_neq; intros He; apply Hfresh;
     rewrite <- He; apply in_map; exact Hr).
Qed.

End StoreMore.

(* ------------------------------------------------------------------ *)
(** ** Saved points *)

Section PointsMore.

Variable randomUUID : nat -> jsstring.

(** X14: saving a segment from the dashboard puts a new point at the
    head of the saved points.  Its source is the name of the open
    recording, or [Unknown Recording] when none is open or the name is
    empty; its content is the text of the segment after a label in
    brackets, the speaker, or [Speaker] when the segment has none or an
    empty one, followed by the translation in parentheses after [EN:]
    when there is one; it carries no reference to the recording, and
    the recordings and the queue are not touched. *)
Theorem saved_segment_is_kept_without_a_link
    (seg : TranscriptSegment.t) (d : Dashboard.State) (now : jsstring)
    (ws : Workspace.State) :
  exists p label rest,
    Workspace.savedPoints
      (Workspace.addSavedPoint randomUUID
         (DashboardHandlers.saveTranscriptSegment seg d) now ws)
      = p :: Workspace.savedPoints ws
    /\ SavedPoint.id p = randomUUID (App.uuidsDrawn (Workspace.app ws))
    /\ SavedPoint.recordingId p = None
    /\ SavedPoint.sourceVideo p <> []
    /\ (forall r, Dashboard.activeRecording d = Some r -> Recording.name r <> [] ->
          SavedPoint.sourceVideo p = Recording.name r)
    /\ SavedPoint.timestamp p = TranscriptSegment.timestamp seg
    /\ SavedPoint.dateSaved p = now
    /\ SavedPoint.content p
       = lit "[" ++ label ++ lit "] " ++ TranscriptSegment.text seg ++ rest
    /\ label <> []
    /\ (truthy (TranscriptSegment.translatedText seg) = false -> rest = [])
    /\ App.recordings
         (Workspace.app
            (Workspace.addSavedPoint randomUUID
               (DashboardHandlers.saveTranscriptSegment seg d) now ws))
       = App.recordings (Workspace.app ws)
    /\ App.processingQueue
         (Workspace.app
            (Workspace.addSavedPoint randomUUID
               (DashboardHandlers.saveTranscriptSegment seg d) now ws))
       = App.processingQueue (Workspace.app ws)
    /\ (forall r, Dashboard.activeRecording d = Some r -> Recording.name r = [] ->
          SavedPoint.sourceVideo p = lit "Unknown Recording")
    /\ (Dashboard.activeRecording d = None ->
        SavedPoint.sourceVideo p = lit "Unknown Recording")
    /\ (forall speaker,
          TranscriptSegment.speaker seg = Some speaker -> speaker <> [] ->
          label = speaker)
    /\ (TranscriptSegment.speaker seg = None
        \/ TranscriptSegment.speaker seg = Some [] ->
        label = lit "Speaker")
    /\ (forall translation,
          TranscriptSegment.translatedText seg = Some translation ->
          translation <> [] ->
          rest = lit " (EN: " ++ translation ++ lit ")")
    /\ (TranscriptSegment.translatedText seg = None
        \/ TranscriptSegment.translatedText seg = Some [] ->
        rest = []).
Proof.
  eexists. exists (orElse (TranscriptSegment.speaker seg) (lit "Speaker")).
  exists (if truthy (TranscriptSegment.translatedText seg)
          then lit " (EN: " ++ interp (TranscriptSegment.translatedText seg)
                 ++ lit ")"
          else []).
  split; [reflexivity|].
  cbn [SavedPoint.id SavedPoint.recordingId SavedPoint.sourceVideo
       SavedPoint.timestamp SavedPoint.dateSaved SavedPoint.content
       DashboardHandlers.saveTranscriptSegment
       SavedPointInput.recordingId SavedPointInput.sourceVideo
       SavedPointInput.timestamp SavedPointInput.content].
  split; [reflexivity|]. split; [reflexivity|].
  split; [apply orElse_nonempty; discriminate|]. split.
  - intros r -> Hname. destruct (Recording.name r); [congruence | reflexivity].
  - split; [reflexivity|]. split; [reflexivity|].
    split; [reflexivity|].
    split; [apply orElse_nonempty; discriminate|].
    split; [intros ->; reflexivity|].
    split; [reflexivity|]. split; [reflexivity|].
    split; [intros r -> ->; reflexivity|].
    split; [intros ->; reflexivity|].
    split; [intros speaker -> Hne; destruct speaker; [congruence | reflexivity]|].
    split; [intros [-> | ->]; reflexivity|].
    split; [|intros [-> | ->]; reflexivity].
    intros translation -> Hne. destruct translation; [congruence | reflexivity].
Qed.

(** X15: deleting the point that [addSavedPoint] has just added gives
    back the saved points as they were, when none of them carries the
    next identifier of the generator; deleting by an identifier no
    point carries changes nothing. *)
Theorem deleting_a_new_point_restores_the_points
    (point : SavedPointInput.t) (now : jsstring) (ws : Workspace.State) :
  ~ In (randomUUID (App.uuidsDrawn (Workspace.app ws)))
       (map SavedPoint.id (Workspace.savedPoints ws)) ->
  Workspace.savedPoints
    (Workspace.deleteSavedPoint
       (randomUUID (App.uuidsDrawn (Workspace.app ws)))
       (Workspace.addSavedPoint randomUUID point now ws))
    = Workspace.savedPoints ws
  /\ Workspace.savedPoints
       (Workspace.deleteSavedPoint
          (randomUUID (App.uuidsDrawn (Workspace.app ws))) ws)
     = Workspace.savedPoints ws.
Proof.
  intros Hfresh.
  assert (Hkeep : filter (fun p => negb (eqb (SavedPoint.id p)
                                          (randomUUID (App.uuidsDrawn (Workspace.app ws)))))
                    (Workspace.savedPoints ws) = Workspace.savedPoints ws).
  { apply forallb_filter_id, forallb_forall. intros p Hp.
    apply negb_true_iff, eqb_neq. intros He. apply Hfresh.
    rewrite <- He. apply in_map. exact Hp. }
  split; [|exact Hkeep].
  unfold Workspace.deleteSavedPoint, Workspace.addSavedPoint.
  cbn [Workspace.savedPoints filter SavedPoint.id]. rewrite eqb_refl.
  cbn [negb]. exact Hkeep.
Qed.

End PointsMore.

(* ------------------------------------------------------------------ *)
(** ** Attendees and metadata in the dashboard *)

Section AttendeesMore.

Import DashboardHandlers.

Lemma removeAt_beyond (i index : nat) (l : list Attendee.t) :
  index < i \/ i + length l <= index -> removeAt i index l = l.
Proof.
  revert i. induction l as [|a l IH]; intros i H; simpl; [reflexivity|].
  simpl in H. destruct (Nat.eqb i index) eqn:He.
  - apply Nat.eqb_eq in He. lia.
  - rewrite IH; [reflexivity | lia].
Qed.

Lemma removeAt_split (i : nat) (before after : list Attendee.t) (x : Attendee.t) :
  removeAt i (i + length before) (before ++ x :: after) = before ++ after.
Proof.
  revert i. induction before as [|a before IH]; intros i; simpl.
  - rewrite Nat.add_0_r, Nat.eqb_refl. apply removeAt_beyond. lia.
  - destruct (Nat.eqb i (i + S (length before))) eqn:He.
    + apply Nat.eqb_eq in He. lia.
    + f_equal. replace (i + S (length before)) with (S i + length before) by lia.
      apply IH.
Qed.

(** X16: adding an attendee whose name is blank does nothing.
    Otherwise the attendee is appended as entered, the form is
    emptied, and the open recording is handed to the store with the
    new list and everything else as before. *)
Theorem handleAddAttendee_appends_unless_blank
    (form : Attendee.t) (d : Dashboard.State) :
  (trim (Attendee.name form) = [] ->
     handleAddAttendee form d
     = {| dashboard := d; newAttendee := form; updateCall := None |})
  /\ (trim (Attendee.name form) <> [] ->
      Dashboard.attendees (dashboard (handleAddAttendee form d))
        = Dashboard.attendees d ++ [form]
      /\ newAttendee (handleAddAttendee form d) = emptyAttendee
      /\ (Dashboard.activeRecording d = None ->
          updateCall (handleAddAttendee form d) = None)
      /\ (forall r, Dashboard.activeRecording d = Some r ->
          exists r',
            updateCall (handleAddAttendee form d) = Some r'
            /\ Recording.attendees r' = Some (Dashboard.attendees d ++ [form])
            /\ Recording.id r' = Recording.id r
            /\ Recording.transcript r' = Recording.transcript r
            /\ Recording.fullText r' = Recording.fullText r
            /\ Recording.subject r' = Recording.subject r
            /\ Recording.isBookmarked r' = Recording.isBookmarked r)).
Proof.
  unfold handleAddAttendee. split.
  - intros ->. reflexivity.
  - intros Hname. destruct (trim (Attendee.name form)); [congruence|].
    cbn. split; [reflexivity|]. split; [reflexivity|]. split.
    + intros ->. reflexivity.
    + intros r ->. eexists. split; [reflexivity|]. repeat split.
Qed.

(** X17: removing the attendee at a position of the list drops that
    one attendee and keeps the others in order; a position beyond the
    list changes nothing; removing the position of an attendee just
    added gives back the list as it was before. *)
Theorem handleRemoveAttendee_drops_one_position
    (form : Attendee.t) (d : Dashboard.State) :
  (forall before x after,
      Dashboard.attendees d = before ++ x :: after ->
      Dashboard.attendees
        (dashboard (handleRemoveAttendee (length before) form d))
      = before ++ after)
  /\ (forall index,
      length (Dashboard.attendees d) <= index ->
      Dashboard.attendees (dashboard (handleRemoveAttendee index form d))
      = Dashboard.attendees d)
  /\ (forall index r,
      Dashboard.activeRecording d = Some r ->
      exists r',
        updateCall (handleRemoveAttendee index form d) = Some r'
        /\ Recording.attendees r'
           = Some (Dashboard.attendees
                     (dashboard (handleRemoveAttendee index form d)))
        /\ Recording.id r' = Recording.id r
        /\ Recording.transcript r' = Recording.transcript r)
  /\ (trim (Attendee.name form) <> [] ->
      Dashboard.attendees
        (dashboard
           (handleRemoveAttendee (length (Dashboard.attendees d)) emptyAttendee
              (dashboard (handleAddAttendee form d))))
      = Dashboard.attendees d).
Proof.
  split; [|split; [|split]].
  - intros before x after Hsplit.
    cbn [dashboard handleRemoveAttendee setAttendees Dashboard.attendees].
    rewrite Hsplit. exact (removeAt_split 0 before after x).
  - intros index Hle.
    cbn [dashboard handleRemoveAttendee setAttendees Dashboard.attendees].
    apply removeAt_beyond. lia.
  - intros index r Hr. unfold handleRemoveAttendee. cbn. rewrite Hr.
    eexists. split; [reflexivity|]. repeat split.
  - intros Hname. unfold handleAddAttendee.
    destruct (trim (Attendee.name form)); [congruence|].
    cbn [dashboard handleRemoveAttendee setAttendees Dashboard.attendees].
    exact (eq_trans (removeAt_split 0 (Dashboard.attendees d) [] form)
                    (app_nil_r _)).
Qed.

(** The inputs of the metadata form leave the open recording and the
    transcript alone. *)
Lemma inputs_keep_recording (d : Dashboard.State) (inputs : list Input) :
  Dashboard.activeRecording (fold_left input inputs d) = Dashboard.activeRecording d
  /\ Dashboard.attendees (fold_left input inputs d) = Dashboard.attendees d.
Proof.
  revert d. induction inputs as [|i inputs IH]; intros d; simpl; [auto|].
  destruct (IH (input d i)) as [-> ->]. auto.
Qed.

(** X18: whatever is typed in the metadata form of the dashboard,
    saving hands the store the open recording with its subject,
    project, meeting date, remarks and attendees replaced by those of
    the form, and with its identifier, name, transcript, [fullText],
    creation date, bookmark and media as they were; it ends the edit.
    With no recording open it calls nothing and the edit stays open. *)
Theorem handleUpdateMetadata_keeps_the_transcript
    (d : Dashboard.State) (inputs : list Input) (isEditingMetadata : bool) :
  (Dashboard.activeRecording d = None ->
     handleUpdateMetadata isEditingMetadata (fold_left input inputs d)
     = (None, isEditingMetadata))
  /\ (forall r, Dashboard.activeRecording d = Some r ->
      exists r',
        handleUpdateMetadata isEditingMetadata (fold_left input inputs d)
          = (Some r', false)
        /\ Recording.subject r' = Dashboard.subject (fold_left input inputs d)
        /\ Recording.projectName r'
           = Dashboard.projectName (fold_left input inputs d)
        /\ Recording.meetingDate r'
           = Dashboard.meetingDate (fold_left input inputs d)
        /\ Recording.remarks r'
           = Some (Dashboard.remarks (fold_left input inputs d))
        /\ Recording.attendees r' = Some (Dashboard.attendees d)
        /\ Recording.id r' = Recording.id r
        /\ Recording.name r' = Recording.name r
        /\ Recording.transcript r' = Recording.transcript r
        /\ Recording.fullText r' = Recording.fullText r
        /\ Recording.dateCreated r' = Recording.dateCreated r
        /\ Recording.isBookmarked r' = Recording.isBookmarked r
        /\ Recording.mediaUrl r' = Recording.mediaUrl r).
Proof.
  destruct (inputs_keep_recording d inputs) as [Hrec Hatt].
  unfold handleUpdateMetadata. rewrite Hrec. split.
  - intros ->. reflexivity.
  - intros r ->. eexists. split; [reflexivity|]. cbn. rewrite Hatt.
    repeat split.
Qed.

End AttendeesMore.

(* ------------------------------------------------------------------ *)
(** ** The knowledge base: edit form and search *)

Section KnowledgeBaseMore.

Import KnowledgeBaseForms.

Lemma edits_keep_the_rest (rec : Recording.t) (edits : list Edit) :
  Recording.id (fold_left edit edits rec) = Recording.id rec
  /\ Recording.name (fold_left edit edits rec) = Recording.name rec
  /\ Recording.transcript (fold_left edit edits rec) = Recording.transcript rec
  /\ Recording.fullText (fold_left edit edits rec) = Recording.fullText rec
  /\ Recording.dateCreated (fold_left edit edits rec) = Recording.dateCreated rec
  /\ Recording.isBookmarked (fold_left edit edits rec) = Recording.isBookmarked rec
  /\ Recording.mediaUrl (fold_left edit edits rec) = Recording.mediaUrl rec
  /\ Recording.attendees (fold_left edit edits rec) = Recording.attendees rec.
Proof.
  revert rec. induction edits as [|e edits IH]; intros rec; simpl.
  - repeat split.
  - destruct (IH (edit rec e)) as (-> & -> & -> & -> & -> & -> & -> & ->).
    repeat split.
Qed.

(** X19: editing a recording of the store in the form of the knowledge
    base and saving puts the edited copy in its place; whatever was
    typed, the copy has the identifier, name, transcript, [fullText],
    creation date, bookmark, media and attendees of the original, and
    no other recording is touched. *)
Theorem editAndSave_keeps_the_transcript
    (rec : Recording.t) (edits : list Edit) (st : App.State) :
  In rec (App.recordings st) ->
  NoDup (map Recording.id (App.recordings st)) ->
  exists pre post,
    App.recordings st = pre ++ rec :: post
    /\ App.recordings (editAndSave rec edits st)
       = pre ++ fold_left edit edits rec :: post
    /\ Recording.id (fold_left edit edits rec) = Recording.id rec
    /\ Recording.name (fold_left edit edits rec) = Recording.name rec
    /\ Recording.transcript (fold_left edit edits rec) = Recording.transcript rec
    /\ Recording.fullText (fold_left edit edits rec) = Recording.fullText rec
    /\ Recording.dateCreated (fold_left edit edits rec) = Recording.dateCreated rec
    /\ Recording.isBookmarked (fold_left edit edits rec)
       = Recording.isBookmarked rec
    /\ Recording.mediaUrl (fold_left edit edits rec) = Recording.mediaUrl rec
    /\ Recording.attendees (fold_left edit edits rec) = Recording.attendees rec.
Proof.
  intros Hin Hnd. destruct (in_split _ _ Hin) as (pre & post & Hsplit).
  exists pre, post. split; [exact Hsplit|]. split; [|apply edits_keep_the_rest].
  unfold editAndSave, handleEditRecordingSave. cbn [fst].
  rewrite updateRecording_recordings, Hsplit. rewrite Hsplit in Hnd.
  apply (@replace_split (fold_left edit edits rec) rec pre post);
    [apply edits_keep_the_rest | exact Hnd].
Qed.

Variable toLowerCase : jsstring -> jsstring.

(** X20: a search query made of blanks shows every recording.  Any
    other query, lower-cased but not trimmed, keeps exactly the
    recordings whose lower-cased project, subject or name contains it,
    in the order of the store; the bookmarked meetings are those of the
    result whose flag is set. *)
Theorem filteredRecordings_shows_all_for_a_blank_query
    (searchQuery : jsstring) (recordings : list Recording.t) :
  (trim searchQuery = [] ->
     filteredRecordings toLowerCase searchQuery recordings = recordings)
  /\ (trim searchQuery <> [] ->
      filteredRecordings toLowerCase searchQuery recordings
        = filter (matches toLowerCase (toLowerCase searchQuery)) recordings
      /\ forall r,
          In r (filteredRecordings toLowerCase searchQuery recordings)
          <-> In r recordings
              /\ ((exists a b, toLowerCase (Recording.projectName r)
                               = a ++ toLowerCase searchQuery ++ b)
                  \/ (exists a b, toLowerCase (Recording.subject r)
                                  = a ++ toLowerCase searchQuery ++ b)
                  \/ (exists a b, toLowerCase (Recording.name r)
                                  = a ++ toLowerCase searchQuery ++ b)))
  /\ (forall r,
        In r (bookmarkedMeetings toLowerCase searchQuery recordings)
        <-> In r (filteredRecordings toLowerCase searchQuery recordings)
            /\ Recording.isBookmarked r = Some true)
  /\ length (bookmarkedMeetings toLowerCase searchQuery recordings)
     <= length (filteredRecordings toLowerCase searchQuery recordings)
  /\ length (filteredRecordings toLowerCase searchQuery recordings)
     <= length recordings.
Proof.
  split; [|split; [|split; [|split]]].
  - unfold filteredRecordings. intros ->. reflexivity.
  - intros Hq. unfold filteredRecordings.
    destruct (trim searchQuery); [congruence|]. split; [reflexivity|].
    intros r. rewrite filter_In. unfold matches.
    rewrite !orb_true_iff, !includes_spec. tauto.
  - intros r. unfold bookmarkedMeetings. rewrite filter_In.
    destruct (Recording.isBookmarked r) as [[|]|];
      split; intros [H1 H2]; split; auto; discriminate.
  - unfold bookmarkedMeetings. apply filter_length_le.
  - unfold filteredRecordings. destruct (trim searchQuery); [lia|].
    apply filter_length_le.
Qed.

End KnowledgeBaseMore.

(* ------------------------------------------------------------------ *)
(** ** The uploader *)

Section UploaderMore.

Import VideoUploader.

Variable randomUUID : nat -> jsstring.

(** X21: the uploader enqueues nothing for an empty selection and
    leaves the application as it is.  For a selection of files it
    enqueues them in order as pending items; for a capture it enqueues
    one file of type [video/mp4] or [audio/mp3] named after the clock
    with the matching extension.  In both cases the items carry the
    project name typed, or a default when none was typed, so never an
    empty one. *)
Theorem uploader_items_carry_a_project_name (st : App.State) :
  (forall projectName,
      select randomUUID (handleChange None projectName) st = st
      /\ select randomUUID (handleChange (Some []) projectName) st = st)
  /\ (forall files projectName,
      files <> [] ->
      exists items,
        App.processingQueue
          (select randomUUID (handleChange (Some files) projectName) st)
          = App.processingQueue st ++ items
        /\ map QueueItem.file items = files
        /\ Forall (fun q =>
                     QueueItem.status q = pending
                     /\ QueueItem.projectName q <> []
                     /\ (projectName <> [] -> QueueItem.projectName q = projectName)
                     /\ (projectName = [] ->
                         QueueItem.projectName q = lit "Untitled Project"))
                  items)
  /\ (forall mode chunks now projectName,
      exists item,
        App.processingQueue
          (select randomUUID (Some (onstop mode chunks now projectName)) st)
          = App.processingQueue st ++ [item]
        /\ QueueItem.status item = pending
        /\ QueueItem.projectName item <> []
        /\ (projectName <> [] -> QueueItem.projectName item = projectName)
        /\ File.bytes (QueueItem.file item) = concat chunks
        /\ QueueItem.name item = File.name (QueueItem.file item)
        /\ match mode with
           | video =>
               File.type (QueueItem.file item) = lit "video/mp4"
               /\ endsWith (QueueItem.name item) (lit ".mp4") = true
           | audio =>
               File.type (QueueItem.file item) = lit "audio/mp3"
               /\ endsWith (QueueItem.name item) (lit ".mp3") = true
           end).
Proof.
  split; [|split].
  - intros projectName. split; reflexivity.
  - intros files projectName Hne. destruct files as [|f files]; [congruence|].
    exists (App.newItems randomUUID (App.uuidsDrawn st) (f :: files)
              (orElse (Some projectName) (lit "Untitled Project"))).
    split; [reflexivity|]. split; [apply newItems_files|].
    eapply Forall_impl; [|apply newItems_pending].
    intros q (Hs & Hp & _). split; [exact Hs|]. rewrite Hp.
    split; [apply orElse_nonempty; discriminate|].
    split; [intros H; destruct projectName; [congruence | reflexivity]
           | intros ->; reflexivity].
  - intros mode chunks now projectName. eexists.
    split; [reflexivity|]. split; [reflexivity|].
    cbn [QueueItem.projectName QueueItem.file QueueItem.name File.bytes
         File.type File.name].
    split; [apply orElse_nonempty; destruct mode; discriminate|].
    split; [intros H; destruct projectName; [congruence | reflexivity]|].
    split; [reflexivity|]. split; [reflexivity|].
    destruct mode; (split; [reflexivity|]); apply endsWith_spec.
    + exists (lit "capture_" ++ ofZ now). rewrite <- app_assoc. reflexivity.
    + exists (lit "capture_" ++ ofZ now). rewrite <- app_assoc. reflexivity.
Qed.

End UploaderMore.

(* ------------------------------------------------------------------ *)
(** ** The chat *)

Section ChatMore.

Import Chat.

Variable sendMessage : Env.

(** X22: a question that is blank, or asked while another one is
    waiting, changes nothing.  Any other question adds exactly two
    messages to the history: the trimmed question, then an answer that
    is never empty: the text of the response, a fixed sentence when the
    response has no text, another fixed sentence when the call fails.
    The input is emptied and the chat is free again; while the answer is
    awaited a second submission is ignored. *)
Theorem handleChat_adds_a_question_and_an_answer
    (k : nat) (fullText : jsstring) (st : State) :
  (trim (userInput st) = [] \/ isChatting st = true ->
     handleChat sendMessage k fullText st = st)
  /\ (trim (userInput st) <> [] -> isChatting st = false ->
      exists answer,
        chatHistory (handleChat sendMessage k fullText st)
          = chatHistory st
            ++ [{| role := user; content := trim (userInput st) |};
                {| role := model; content := answer |}]
        /\ answer <> []
        /\ userInput (handleChat sendMessage k fullText st) = []
        /\ isChatting (handleChat sendMessage k fullText st) = false
        /\ (forall response,
              sendMessage k fullText (trim (userInput st)) = Return response ->
              answer = orElse (GeminiService.Response.text response)
                         (lit "I'm sorry, I couldn't process that request."))
        /\ (forall err,
              sendMessage k fullText (trim (userInput st)) = Throw err ->
              answer
              = lit "Sorry, I encountered an error while processing your request.")
        /\ submit (fst (submit st)) = (fst (submit st), None)).
Proof.
  split.
  - unfold handleChat, submit. intros [H | H].
    + rewrite H. reflexivity.
    + rewrite H. destruct (trim (userInput st)); reflexivity.
  - intros Hq Hfree. unfold handleChat, submit. rewrite Hfree.
    destruct (trim (userInput st)) as [|c q] eqn:Hinput; [congruence|].
    unfold settle, chatWithTranscript. cbn [chatHistory userInput isChatting fst].
    destruct (sendMessage k fullText (c :: q)) as [response|err].
    + eexists. split; [rewrite <- app_assoc; reflexivity|].
      split; [apply orElse_nonempty; discriminate|].
      split; [reflexivity|]. split; [reflexivity|].
      split; [intros r H; injection H as <-; reflexivity|].
      split; [intros e H; discriminate|].
      destruct (trim []); reflexivity.
    + eexists. split; [rewrite <- app_assoc; reflexivity|].
      split; [discriminate|].
      split; [reflexivity|]. split; [reflexivity|].
      split; [intros r H; discriminate|].
      split; [intros e H; reflexivity|].
      destruct (trim []); reflexivity.
Qed.

End ChatMore.

(* ------------------------------------------------------------------ *)
(** ** The simulated cloud upload *)

Section CloudSyncMore.

Import CloudSync.

Lemma ticks_while_running (n : nat) :
  forall st j,
    intervalRunning st = true ->
    syncProgress st = (5 * Z.of_nat j)%Z ->
    j + n <= 20 ->
    syncProgress (ticks n st) = (5 * Z.of_nat (j + n))%Z
    /\ intervalRunning (ticks n st) = true
    /\ syncStatus (ticks n st) = syncStatus st
    /\ isSyncing (ticks n st) = isSyncing st
    /\ cloudCreds (ticks n st) = cloudCreds st
    /\ showCloudModal (ticks n st) = showCloudModal st.
Proof.
  induction n as [|n IH]; intros st j Hrun Hp Hle.
  - simpl. rewrite Nat.add_0_r. repeat split; assumption.
  - cbn [ticks].
    assert (Hlt : (100 <=? syncProgress st)%Z = false)
      by (apply Z.leb_gt; lia).
    assert (Htick : tick st =
      {| showCloudModal := showCloudModal st; cloudCreds := cloudCreds st;
         isSyncing := isSyncing st; syncProgress := syncProgress st + 5;
         syncStatus := syncStatus st; intervalRunning := true |}).
    { unfold tick. rewrite Hrun, Hlt. reflexivity. }
    destruct (IH (tick st) (S j)) as (H1 & H2 & H3 & H4 & H5 & H6).
    + rewrite Htick. reflexivity.
    + rewrite Htick. cbn [syncProgress]. lia.
    + lia.
    + rewrite H1, H2, H3, H4, H5, H6, Htick.
      cbn [syncStatus isSyncing cloudCreds showCloudModal].
      repeat split; try reflexivity. lia.
Qed.

Lemma ticks_when_stopped (n : nat) (st : State) :
  intervalRunning st = false -> ticks n st = st.
Proof.
  intros Hstop. induction n as [|n IH]; [reflexivity|].
  cbn [ticks]. unfold tick. rewrite Hstop. exact IH.
Qed.

Lemma ticks_add (m n : nat) (st : State) :
  ticks (m + n) st = ticks n (ticks m st).
Proof. revert st. induction m as [|m IH]; intros st; simpl; auto. Qed.

(** X23: without a service, a user name and a password the upload is
    not started.  Once started, every call of the interval's callback
    adds five to the progress, from 0 up to 100 after twenty calls;
    the next call ends the upload with success, stops the interval and
    forgets the credentials; further calls change nothing, so the
    progress never passes 100. *)
Theorem cloud_sync_ends_after_twenty_one_ticks (st : State) :
  (incomplete (cloudCreds st) = true -> handleFinalSync st = st)
  /\ (incomplete (cloudCreds st) = false ->
      (forall n, n <= 20 ->
         syncProgress (ticks n (handleFinalSync st)) = (5 * Z.of_nat n)%Z
         /\ syncStatus (ticks n (handleFinalSync st)) = syncing
         /\ isSyncing (ticks n (handleFinalSync st)) = true
         /\ intervalRunning (ticks n (handleFinalSync st)) = true)
      /\ (forall n, 21 <= n ->
         ticks n (handleFinalSync st)
         = {| showCloudModal := false; cloudCreds := noCredentials;
              isSyncing := false; syncProgress := 100; syncStatus := success;
              intervalRunning := false |})
      /\ (forall n,
         (0 <= syncProgress (ticks n (handleFinalSync st)) <= 100)%Z)).
Proof.
  split; [unfold handleFinalSync; intros ->; reflexivity|].
  intros Hcreds.
  assert (Hstart : handleFinalSync st =
    {| showCloudModal := false; cloudCreds := cloudCreds st;
       isSyncing := true; syncProgress := 0; syncStatus := syncing;
       intervalRunning := true |})
    by (unfold handleFinalSync; rewrite Hcreds; reflexivity).
  assert (Hrun : forall n, n <= 20 ->
     syncProgress (ticks n (handleFinalSync st)) = (5 * Z.of_nat n)%Z
     /\ intervalRunning (ticks n (handleFinalSync st)) = true
     /\ syncStatus (ticks n (handleFinalSync st)) = syncing
     /\ isSyncing (ticks n (handleFinalSync st)) = true
     /\ cloudCreds (ticks n (handleFinalSync st)) = cloudCreds st
     /\ showCloudModal (ticks n (handleFinalSync st)) = false).
  { intros n Hn.
    destruct (ticks_while_running n (handleFinalSync st) 0)
      as (H1 & H2 & H3 & H4 & H5 & H6);
      try (rewrite Hstart; reflexivity); [lia|].
    rewrite H1, H2, H3, H4, H5, H6, Hstart.
    cbn [syncStatus isSyncing cloudCreds showCloudModal Nat.add].
    repeat split; reflexivity. }
  assert (Hend : forall n, 21 <= n ->
     ticks n (handleFinalSync st)
     = {| showCloudModal := false; cloudCreds := noCredentials;
          isSyncing := false; syncProgress := 100; syncStatus := success;
          intervalRunning := false |}).
  { intros n Hn. replace n with (20 + (1 + (n - 21))) by lia.
    rewrite ticks_add, ticks_add.
    destruct (Hrun 20 (le_n 20)) as (Hp & Hr & _ & _ & _ & Hm).
    assert (Hlast : ticks 1 (ticks 20 (handleFinalSync st))
       = {| showCloudModal := false; cloudCreds := noCredentials;
            isSyncing := false; syncProgress := 100; syncStatus := success;
            intervalRunning := false |}).
    { remember (ticks 20 (handleFinalSync st)) as s20 eqn:Hs20.
      change (ticks 1 s20) with (tick s20).
      unfold tick. rewrite Hr, Hp, Hm. reflexivity. }
    rewrite Hlast. apply ticks_when_stopped. reflexivity. }
  split; [|split; [exact Hend|]].
  - intros n Hn. destruct (Hrun n Hn) as (H1 & H2 & H3 & H4 & _).
    repeat split; assumption.
  - intros n. destruct (Nat.le_gt_cases n 20) as [Hn | Hn].
    + destruct (Hrun n Hn) as (-> & _). lia.
    + rewrite (Hend n Hn). cbn [syncProgress]. lia.
Qed.

End CloudSyncMore.

(* ------------------------------------------------------------------ *)
(** ** The two ways of writing a line of the transcript *)

(** X24: the line [processMedia] writes for a segment and the line the
    rename writes for it are the same exactly when the segment has a
    speaker that is not empty; so on a transcript whose segments all
    have one, the [fullText] computed by the rename is the one
    [processMedia] would compute. *)
Theorem the_two_line_formats_agree_on_labelled_segments
    (segments : list TranscriptSegment.t) :
  (forall s,
      GeminiService.segmentLine s = Dashboard.segmentLine s
      <-> truthy (TranscriptSegment.speaker s) = true)
  /\ (Forall (fun s => truthy (TranscriptSegment.speaker s) = true) segments ->
      Dashboard.fullTextOf segments
      = join GeminiService.newline (map GeminiService.segmentLine segments)).
Proof.
  assert (Hline : forall s,
      GeminiService.segmentLine s = Dashboard.segmentLine s
      <-> truthy (TranscriptSegment.speaker s) = true).
  { intros s. unfold GeminiService.segmentLine, Dashboard.segmentLine.
    destruct (TranscriptSegment.speaker s) as [[|c sp]|]; simpl truthy.
    - split; [|discriminate]. intros H.
      apply app_inv_head in H. apply app_inv_head in H.
      apply app_inv_head in H. discriminate H.
    - split; reflexivity.
    - split; [|discriminate]. intros H.
      apply app_inv_head in H. apply app_inv_head in H.
      apply app_inv_head in H. discriminate H. }
  split; [exact Hline|].
  intros Hall. unfold Dashboard.fullTextOf. f_equal.
  apply map_ext_in. intros s Hs. symmetry. apply Hline.
  rewrite Forall_forall in Hall. apply Hall. exact Hs.
Qed.

(* ------------------------------------------------------------------ *)
(** ** The further properties on concrete inputs *)

Lemma effect_stable_witness :
  App.schedulingEffect
    (fst (App.schedulingEffect Scenario.threeUploaded))
  = (fst (App.schedulingEffect Scenario.threeUploaded), App.StartedNothing).
Proof.
  destruct (schedulingEffect_run_again_starts_no_job Scenario.threeUploaded)
    as (_ & _ & Hjob).
  apply (Hjob Cases.itemA 3). vm_compute. reflexivity.
Defined.

Lemma sweep_timer_witness :
  snd (App.schedulingEffect Cases.settled) = App.StartedNothing
  /\ snd (App.schedulingEffect (fst (App.schedulingEffect Cases.settled)))
     = App.StartedTimer
  /\ App.processingQueue (fst (App.schedulingEffect Cases.settled)) <> [].
Proof.
  destruct (sweep_timer_is_started_on_a_settled_queue_only Cases.settled)
    as (_ & Harm).
  destruct (sweep_timer_is_started_on_a_settled_queue_only
              (fst (App.schedulingEffect Cases.settled))) as (Hsettled & _).
  assert (H : snd (App.schedulingEffect Cases.settled) = App.StartedNothing
              /\ snd (App.schedulingEffect (fst (App.schedulingEffect Cases.settled)))
                 = App.StartedTimer).
  { apply Harm.
    - constructor; [right; reflexivity | constructor].
    - vm_compute. discriminate.
    - reflexivity. }
  destruct H as [H1 H2]. split; [exact H1|]. split; [exact H2|].
  destruct (Hsettled H2) as (_ & Hne & _). exact Hne.
Defined.

Lemma no_return_to_pending_witness :
  In (nth 1 (App.processingQueue Scenario.threeUploaded) Cases.itemA)
     (App.processingQueue Scenario.threeUploaded).
Proof.
  destruct (@no_item_returns_to_pending Sample.uuid Scenario.threeUploaded
              App.EffectRuns
              (nth 1 (App.processingQueue Scenario.threeUploaded) Cases.itemA))
    as [[Hin _] | (files & projectName & Habs & _)].
  - vm_compute. right. left. reflexivity.
  - reflexivity.
  - exact Hin.
  - discriminate Habs.
Defined.

Lemma queue_left_alone_witness :
  map QueueItem.name
    (snd (Jobs.processAll Sample.uuid 3 Scenario.world Scenario.threeUploaded))
    = [lit "call-1.wav"; lit "standup.mp4"; lit "call-2.wav"]
  /\ map QueueItem.status
       (App.processingQueue
          (fst (Jobs.processAll Sample.uuid 3 Scenario.world
                  Scenario.threeUploaded)))
     = [done; error; error]
  /\ length (App.recordings
               (fst (Jobs.processAll Sample.uuid 3 Scenario.world
                       Scenario.threeUploaded))) = 1.
Proof.
  destruct (@queue_left_alone_is_worked_off_in_order Sample.uuid sample_uuid_inj
              Scenario.world Scenario.threeUploaded)
    as (Hlog & Hqueue & _ & Hrecs & _).
  - eexists. reflexivity.
  - vm_compute. reflexivity.
  - change (length (App.processingQueue Scenario.threeUploaded)) with 3 in *.
    split; [rewrite Hlog; vm_compute; reflexivity|].
    split; [rewrite Hqueue; vm_compute; reflexivity|].
    rewrite <- (length_map Recording.transcript), Hrecs. vm_compute. reflexivity.
Defined.


Lemma store_identifiers_witness :
  map Recording.id (App.recordings (App.run Sample.uuid Cases.reloaded))
    = [Sample.uuid 0; Recording.id Sample.recA]
  /\ NoDup (map Recording.id (App.recordings (App.run Sample.uuid Cases.reloaded)))
  /\ ~ In (Sample.uuid 1)
         (map Recording.id (App.recordings (App.run Sample.uuid Cases.reloaded))).
Proof.
  destruct (@store_identifiers_stay_distinct Sample.uuid sample_uuid_inj
              Cases.reloaded) as (Hnd & Hfresh & _).
  - constructor; [|repeat constructor].
    split; [exact sample_store_ids|].
    intros n _ [H | [H | []]]; inversion H.
  - split; [vm_compute; reflexivity|]. split; [exact Hnd|].
    apply Hfresh. vm_compute. lia.
Defined.

Lemma updateRecording_unknown_witness :
  App.recordings
    (App.updateRecording (snd (App.addRecording Sample.uuid Cases.manualEntry
                                 (lit "11/2/2026, 9:00:00 AM") Sample.store))
       Sample.store)
  = App.recordings Sample.store.
Proof.
  destruct (updateRecording_never_adds_or_removes
              (snd (App.addRecording Sample.uuid Cases.manualEntry
                      (lit "11/2/2026, 9:00:00 AM") Sample.store))
              Sample.store) as (_ & _ & Hunknown & _).
  apply Hunknown. simpl. intros H.
  repeat (destruct H as [H | H]; [vm_compute in H; discriminate|]). exact H.
Defined.

Lemma add_then_delete_witness :
  App.recordings
    (App.deleteRecording
       (Recording.id (snd (App.addRecording Sample.uuid Cases.manualEntry
                             (lit "11/2/2026, 10:00:00 AM") Cases.twoEntries)))
       (fst (App.addRecording Sample.uuid Cases.manualEntry
               (lit "11/2/2026, 10:00:00 AM") Cases.twoEntries)))
  = App.recordings Cases.twoEntries.
Proof.
  apply (@deleting_a_new_recording_restores_the_store Sample.uuid sample_uuid_inj
           Cases.manualEntry (lit "11/2/2026, 10:00:00 AM") Cases.twoEntries).
  apply (@run_storeInvariant Sample.uuid sample_uuid_inj Cases.entries).
  repeat constructor.
Defined.

Lemma saved_segment_witness :
  exists p label rest,
    Workspace.savedPoints
      (Workspace.addSavedPoint Sample.uuid
         (DashboardHandlers.saveTranscriptSegment Sample.seg3 Sample.dashboardA)
         (lit "11/2/2026, 11:00:00 AM") Cases.workspace)
      = [p]
    /\ SavedPoint.sourceVideo p = lit "call-1.wav"
    /\ SavedPoint.content p
       = lit "[" ++ label ++ lit "] " ++ lit "(inaudible)" ++ rest
    /\ label = lit "Speaker"
    /\ rest = []
    /\ SavedPoint.content p = lit "[Speaker] (inaudible)"
    /\ SavedPoint.recordingId p = None.
Proof.
  destruct (saved_segment_is_kept_without_a_link Sample.uuid Sample.seg3
              Sample.dashboardA (lit "11/2/2026, 11:00:00 AM") Cases.workspace)
    as (p & label & rest & Hp & _ & Hlink & _ & Hsrc & _ & _ & Hc & _ & _ & _ & _
        & _ & _ & _ & Hlabel & _ & Hrest).
  exists p, label, rest. split; [exact Hp|].
  split; [apply (Hsrc Sample.recA); [reflexivity | vm_compute; discriminate]|].
  split; [exact Hc|].
  assert (Hl : label = lit "Speaker") by (apply Hlabel; left; reflexivity).
  assert (Hr : rest = []) by (apply Hrest; left; reflexivity).
  split; [exact Hl|]. split; [exact Hr|].
  split; [rewrite Hc, Hl, Hr; reflexivity | exact Hlink].
Defined.

Lemma point_add_then_delete_witness :
  Workspace.savedPoints Cases.withPoint <> []
  /\ Workspace.savedPoints
       (Workspace.deleteSavedPoint (Sample.uuid 3)
          (Workspace.addSavedPoint Sample.uuid
             (DashboardHandlers.saveTranscriptSegment Sample.seg0 Sample.dashboardA)
             (lit "11/2/2026, 11:00:00 AM") Cases.withPoint))
     = Workspace.savedPoints Cases.withPoint
  /\ map SavedPoint.id
       (Workspace.savedPoints
          (Workspace.addSavedPoint Sample.uuid
             (DashboardHandlers.saveTranscriptSegment Sample.seg0 Sample.dashboardA)
             (lit "11/2/2026, 11:00:00 AM") Cases.withPoint))
     = [Sample.uuid 3; Sample.uuid 2].
Proof.
  destruct (@deleting_a_new_point_restores_the_points Sample.uuid
              (DashboardHandlers.saveTranscriptSegment Sample.seg0 Sample.dashboardA)
              (lit "11/2/2026, 11:00:00 AM") Cases.withPoint) as (Hback & _).
  - intros [H | []]. vm_compute in H. discriminate H.
  - split; [vm_compute; discriminate|]. split; [exact Hback|].
    vm_compute. reflexivity.
Defined.

Lemma add_attendee_witness :
  DashboardHandlers.handleAddAttendee Cases.nobody Cases.dashboardWithAlice
  = {| DashboardHandlers.dashboard := Cases.dashboardWithAlice;
       DashboardHandlers.newAttendee := Cases.nobody;
       DashboardHandlers.updateCall := None |}
  /\ Dashboard.attendees
       (DashboardHandlers.dashboard
          (DashboardHandlers.handleAddAttendee Cases.bob Cases.dashboardWithAlice))
     = [Cases.alice; Cases.bob].
Proof.
  destruct (handleAddAttendee_appends_unless_blank Cases.nobody
              Cases.dashboardWithAlice) as (Hblank & _).
  destruct (handleAddAttendee_appends_unless_blank Cases.bob
              Cases.dashboardWithAlice) as (_ & Hadd).
  split; [apply Hblank; reflexivity|].
  destruct Hadd as (Hlist & _); [vm_compute; discriminate | exact Hlist].
Defined.

Lemma remove_attendee_witness :
  Dashboard.attendees
    (DashboardHandlers.dashboard
       (DashboardHandlers.handleRemoveAttendee 0 Cases.bob
          Cases.dashboardWithAlice)) = []
  /\ Dashboard.attendees
       (DashboardHandlers.dashboard
          (DashboardHandlers.handleRemoveAttendee 5 Cases.bob
             Cases.dashboardWithAlice)) = [Cases.alice]
  /\ Dashboard.attendees
       (DashboardHandlers.dashboard
          (DashboardHandlers.handleRemoveAttendee 1
             DashboardHandlers.emptyAttendee
             (DashboardHandlers.dashboard
                (DashboardHandlers.handleAddAttendee Cases.bob
                   Cases.dashboardWithAlice)))) = [Cases.alice].
Proof.
  destruct (handleRemoveAttendee_drops_one_position Cases.bob
              Cases.dashboardWithAlice) as (Hdrop & Hbeyond & _ & Hback).
  split; [exact (Hdrop [] Cases.alice [] eq_refl)|].
  split; [apply Hbeyond; vm_compute; lia|].
  apply Hback. vm_compute. discriminate.
Defined.

Lemma update_metadata_witness :
  exists r',
    DashboardHandlers.handleUpdateMetadata true
      (fold_left DashboardHandlers.input
         [DashboardHandlers.InputSubject (lit "Invoice");
          DashboardHandlers.InputRemarks (lit "Follow up on Friday")]
         Sample.dashboardA)
    = (Some r', false)
    /\ Recording.transcript r' = Sample.talk
    /\ Recording.id r' = Recording.id Sample.recA.
Proof.
  destruct (handleUpdateMetadata_keeps_the_transcript Sample.dashboardA
              [DashboardHandlers.InputSubject (lit "Invoice");
               DashboardHandlers.InputRemarks (lit "Follow up on Friday")] true)
    as (_ & Hopen).
  destruct (Hopen Sample.recA eq_refl)
    as (r' & Hcall & _ & _ & _ & _ & _ & Hid & _ & Htr & _).
  exists r'. split; [exact Hcall|]. split; [exact Htr | exact Hid].
Defined.

Lemma edit_and_save_witness :
  exists pre post,
    App.recordings Sample.store = pre ++ Sample.recA :: post
    /\ App.recordings
         (KnowledgeBaseForms.editAndSave Sample.recA
            [KnowledgeBaseForms.EditSubject (lit "Invoice");
             KnowledgeBaseForms.EditRemarks (lit "Paid")] Sample.store)
       = pre
         ++ fold_left KnowledgeBaseForms.edit
              [KnowledgeBaseForms.EditSubject (lit "Invoice");
               KnowledgeBaseForms.EditRemarks (lit "Paid")] Sample.recA
         :: post.
Proof.
  destruct (@editAndSave_keeps_the_transcript Sample.recA
              [KnowledgeBaseForms.EditSubject (lit "Invoice");
               KnowledgeBaseForms.EditRemarks (lit "Paid")] Sample.store)
    as (pre & post & Hsplit & Hsaved & _).
  - right. left. reflexivity.
  - exact sample_store_ids.
  - exists pre, post. split; [exact Hsplit | exact Hsaved].
Defined.

Lemma filtered_recordings_witness :
  KnowledgeBaseForms.filteredRecordings Cases.lowerAscii (lit "  ")
    (App.recordings Sample.store)
  = App.recordings Sample.store
  /\ KnowledgeBaseForms.filteredRecordings Cases.lowerAscii (lit "INVOICE")
       (App.recordings Sample.store)
     = filter (KnowledgeBaseForms.matches Cases.lowerAscii (lit "invoice"))
         (App.recordings Sample.store).
Proof.
  destruct (@filteredRecordings_shows_all_for_a_blank_query Cases.lowerAscii
              (lit "  ") (App.recordings Sample.store)) as (Hblank & _).
  destruct (@filteredRecordings_shows_all_for_a_blank_query Cases.lowerAscii
              (lit "INVOICE") (App.recordings Sample.store)) as (_ & Hquery & _).
  split; [apply Hblank; reflexivity|].
  destruct Hquery as (Hfilter & _); [vm_compute; discriminate | exact Hfilter].
Defined.

Lemma uploader_witness :
  exists items,
    App.processingQueue
      (VideoUploader.select Sample.uuid
         (VideoUploader.handleChange (Some [Sample.fileA; Sample.fileB]) [])
         App.initial)
    = App.processingQueue App.initial ++ items
    /\ map QueueItem.file items = [Sample.fileA; Sample.fileB]
    /\ map QueueItem.projectName items
       = [lit "Untitled Project"; lit "Untitled Project"].
Proof.
  destruct (@uploader_items_carry_a_project_name Sample.uuid App.initial)
    as (_ & Hfiles & _).
  destruct (Hfiles [Sample.fileA; Sample.fileB] [])
    as (items & Hqueue & Hmap & Hall); [discriminate|].
  exists items. split; [exact Hqueue|]. split; [exact Hmap|].
  destruct items as [|a [|b [|c items]]]; try discriminate Hmap.
  inversion Hall as [|? ? (_ & _ & _ & Ha) Hrest]; subst.
  inversion Hrest as [|? ? (_ & _ & _ & Hb) _]; subst.
  cbn [map]. rewrite (Ha eq_refl), (Hb eq_refl). reflexivity.
Defined.

Lemma chat_witness :
  Chat.chatHistory
    (Chat.handleChat Cases.oracle 0 (Recording.fullText Sample.recA) Cases.asking)
  = [{| Chat.role := Chat.user; Chat.content := lit "When is the invoice due?" |};
     {| Chat.role := Chat.model; Chat.content := lit "- Invoice due Friday" |}]
  /\ Chat.chatHistory
       (Chat.handleChat Cases.offline 0 (Recording.fullText Sample.recA)
          Cases.asking)
     = [{| Chat.role := Chat.user; Chat.content := lit "When is the invoice due?" |};
        {| Chat.role := Chat.model;
           Chat.content :=
             lit "Sorry, I encountered an error while processing your request." |}].
Proof.
  destruct (@handleChat_adds_a_question_and_an_answer Cases.oracle 0
              (Recording.fullText Sample.recA) Cases.asking) as (_ & Hask).
  destruct (@handleChat_adds_a_question_and_an_answer Cases.offline 0
              (Recording.fullText Sample.recA) Cases.asking) as (_ & Hdown).
  destruct Hask as (a1 & H1 & _ & _ & _ & Hret & _);
    [vm_compute; discriminate | reflexivity |].
  destruct Hdown as (a2 & H2 & _ & _ & _ & _ & Hthrow & _);
    [vm_compute; discriminate | reflexivity |].
  split.
  - rewrite H1, (Hret _ eq_refl). reflexivity.
  - rewrite H2, (Hthrow _ eq_refl). reflexivity.
Defined.

Lemma cloud_sync_witness :
  CloudSync.syncProgress
    (CloudSync.ticks 7 (CloudSync.handleFinalSync Cases.signedIn)) = 35%Z
  /\ CloudSync.syncStatus
       (CloudSync.ticks 30 (CloudSync.handleFinalSync Cases.signedIn))
     = CloudSync.success.
Proof.
  destruct (cloud_sync_ends_after_twenty_one_ticks Cases.signedIn)
    as (_ & Hrun).
  destruct (Hrun eq_refl) as (Hup & Hend & _).
  split.
  - destruct (Hup 7) as (Hp & _); [lia | exact Hp].
  - rewrite (Hend 30); [reflexivity | lia].
Defined.

Lemma line_formats_witness :
  Dashboard.fullTextOf Cases.labelled
  = join GeminiService.newline
      (map GeminiService.segmentLine Cases.labelled).
Proof.
  destruct (the_two_line_formats_agree_on_labelled_segments Cases.labelled)
    as (_ & Hall).
  apply Hall. repeat constructor.
Defined.

(* ------------------------------------------------------------------ *)
(** ** The older service of [src/unnamed/part_000] *)

Section LegacyMore.

Import GeminiService.

Variable E : Env.
Variables media mime : jsstring.

Lemma legacy_attempt_trace (k : nat) :
  let tr := snd (Legacy.attempt E media mime k) in
  requests tr = 1 /\ sleeps tr = 0 /\ parses tr <= 1
  /\ Forall (fun e => forall ms, e = Sleep ms -> ms = 2000%Z) tr.
Proof.
  unfold Legacy.attempt.
  destruct (generateContent E k media mime) as [response|err];
    [destruct (Response.text response) as [[|c text]|];
       [| destruct (JSON_parse E (c :: text)) as [data|pe] |]|];
    cbn; (split; [reflexivity|]); (split; [reflexivity|]); (split; [lia|]);
    repeat constructor; intros ms H; discriminate H.
Qed.

Lemma legacy_unfold (k : nat) (retries : Z) :
  Legacy.processMedia E media mime k retries =
  match Legacy.attempt E media mime k with
  | (Return res, tr) => (Return res, tr)
  | (Throw err, tr) =>
      if (0 <? retries)%Z && Legacy.transient err then
        let (r, tr') := Legacy.processMedia E media mime (S k) (retries - 1) in
        (r, tr ++ Sleep 2000 :: tr')
      else (Throw err, tr)
  end.
Proof.
  unfold Legacy.processMedia.
  destruct (Z.to_nat retries) as [|n] eqn:Hn; simpl;
    destruct (Legacy.attempt E media mime k) as [[res|err] tr]; try reflexivity.
  - destruct (0 <? retries)%Z eqn:Hr; [|reflexivity].
    apply Z.ltb_lt in Hr. lia.
  - destruct (0 <? retries)%Z eqn:Hr; [|reflexivity]. simpl.
    destruct (Legacy.transient err); [|reflexivity].
    replace (Z.to_nat (retries - 1)) with n by lia. reflexivity.
Qed.

Lemma legacy_trace (n : nat) :
  forall (retries : Z) (k : nat),
    Z.to_nat retries <= n ->
    let tr := snd (Legacy.processMedia E media mime k retries) in
    requests tr = S (sleeps tr)
    /\ sleeps tr <= Z.to_nat retries
    /\ parses tr <= requests tr
    /\ Forall (fun e => forall ms, e = Sleep ms -> ms = 2000%Z) tr.
Proof.
  induction n as [|n IH]; intros retries k Hn; cbv zeta;
    rewrite legacy_unfold;
    pose proof (legacy_attempt_trace k) as (Hq & Hs & Hp & Hall);
    destruct (Legacy.attempt E media mime k) as [[res|err] tr]; simpl in Hq, Hs, Hp, Hall;
    try (cbn [snd]; repeat split; [lia | lia | lia | exact Hall]).
  - destruct (0 <? retries)%Z eqn:Hr; [apply Z.ltb_lt in Hr; lia|].
    cbn [andb snd]. repeat split; [lia | lia | lia | exact Hall].
  - destruct ((0 <? retries)%Z && Legacy.transient err) eqn:Hc;
      [|cbn [snd]; repeat split; [lia | lia | lia | exact Hall]].
    apply andb_true_iff in Hc as [Hr _]. apply Z.ltb_lt in Hr.
    destruct (IH (retries - 1)%Z (S k)) as (Hq' & Hs' & Hp' & Hall'); [lia|].
    destruct (Legacy.processMedia E media mime (S k) (retries - 1)) as [r tr'].
    cbn [snd] in *. unfold requests, sleeps, parses in *.
    rewrite !filter_app, !length_app. cbn [filter isRequest isSleep isParse length].
    repeat split; try lia.
    apply Forall_app. split; [exact Hall|].
    constructor; [|exact Hall'].
    intros ms H. injection H as <-. reflexivity.
Qed.

(** X25: the older service never repairs a response: every body with
    text that the parser rejects with an error that is not transient
    ends the call at once with that error, after one request and one
    parse, however many retries are left and whether or not a repair
    would help; where the repaired text parses, the current service
    returns a result from the same response. *)
Theorem legacy_processMedia_fails_where_the_repair_succeeds
    (k : nat) (retries : Z) (response : Response.t) (text : jsstring)
    (parseError : JsError) :
  generateContent E k media mime = Return response ->
  Response.text response = Some text ->
  text <> [] ->
  JSON_parse E text = Throw parseError ->
  Legacy.transient parseError = false ->
  Legacy.processMedia E media mime k retries
    = (Throw parseError, [Request k; Parse text])
  /\ (forall data,
        JSON_parse E (repair text) = Return data ->
        fst (processMedia E media mime k retries) = Return (buildResult E k data)
        /\ requests (snd (processMedia E media mime k retries)) = 1).
Proof.
  intros Hgen Htext Hne Hparse Hfatal.
  assert (Hold : Legacy.attempt E media mime k
                 = (Throw parseError, [Request k; Parse text])).
  { unfold Legacy.attempt. rewrite Hgen, Htext.
    destruct text as [|c text]; [congruence|]. rewrite Hparse. reflexivity. }
  split.
  - rewrite legacy_unfold, Hold, Hfatal, andb_false_r. reflexivity.
  - intros data Hrepair.
    assert (Hnew : attempt E media mime k
                   = (Return (buildResult E k data),
                      [Request k; Parse text; Parse (repair text)])).
    { unfold attempt, parseData. rewrite Hgen, Htext.
      destruct text as [|c text]; [congruence|].
      rewrite Hparse, Hrepair. reflexivity. }
    rewrite (processMedia_success E media mime k retries Hnew).
    split; reflexivity.
Qed.

(** X26: the older service makes one request more than it waits, waits
    at most [retries] times and always for 2000 ms, and parses at most
    one text per request.  Every error it retries the current service
    retries too; the errors only the current service retries are those
    whose message contains [Unterminated]. *)
Theorem legacy_processMedia_waits_two_seconds
    (k : nat) (retries : Z) (err : JsError) :
  (requests (snd (Legacy.processMedia E media mime k retries))
   = S (sleeps (snd (Legacy.processMedia E media mime k retries)))
   /\ sleeps (snd (Legacy.processMedia E media mime k retries))
      <= Z.to_nat retries
   /\ parses (snd (Legacy.processMedia E media mime k retries))
      <= requests (snd (Legacy.processMedia E media mime k retries))
   /\ forall ms,
        In (Sleep ms) (snd (Legacy.processMedia E media mime k retries)) ->
        ms = 2000%Z)
  /\ (Legacy.transient err = true -> transient err = true)
  /\ (transient err = true -> Legacy.transient err = false ->
      exists m a b,
        message err = Some m /\ m = a ++ lit "Unterminated" ++ b).
Proof.
  split; [|split].
  - destruct (legacy_trace (n := Z.to_nat retries) retries k (le_n _))
      as (Hq & Hs & Hp & Hall).
    split; [exact Hq|]. split; [exact Hs|]. split; [exact Hp|].
    intros ms Hin. rewrite Forall_forall in Hall.
    exact (Hall _ Hin ms eq_refl).
  - unfold Legacy.transient, transient. destruct (message err) as [m|]; [|auto].
    intros ->. reflexivity.
  - unfold Legacy.transient, transient. destruct (message err) as [m|];
      [|discriminate].
    intros Hnew Hold. rewrite Hold in Hnew. cbn [orb] in Hnew.
    apply includes_spec in Hnew as (a & b & ->).
    exists (a ++ lit "Unterminated" ++ b), a, b. auto.
Qed.

End LegacyMore.

Lemma legacy_fails_witness :
  GeminiService.Legacy.processMedia Sample.cutEarly Sample.media Sample.mime 0 2
    = (Throw (Sample.syntaxError (lit "Unexpected end of JSON input")),
       [GeminiService.Request 0; GeminiService.Parse Sample.cutAfterBracket])
  /\ fst (GeminiService.processMedia Sample.cutEarly Sample.media Sample.mime 0 2)
     = Return (GeminiService.buildResult Sample.cutEarly 0 Sample.noSegmentsData)
  /\ GeminiService.Legacy.processMedia Sample.cutOnce Sample.media Sample.mime 0 2
     = (Throw (Sample.syntaxError (lit "Unexpected end of JSON input")),
        [GeminiService.Request 0; GeminiService.Parse Sample.cutAfterSegment]).
Proof.
  destruct (@legacy_processMedia_fails_where_the_repair_succeeds
              Sample.cutEarly Sample.media Sample.mime 0 2
              {| GeminiService.Response.text := Some Sample.cutAfterBracket |}
              Sample.cutAfterBracket
              (Sample.syntaxError (lit "Unexpected end of JSON input")))
    as (Hold & Hnew); try (vm_compute; reflexivity).
  - vm_compute. discriminate.
  - destruct (@legacy_processMedia_fails_where_the_repair_succeeds
                Sample.cutOnce Sample.media Sample.mime 0 2
                {| GeminiService.Response.text := Some Sample.cutAfterSegment |}
                Sample.cutAfterSegment
                (Sample.syntaxError (lit "Unexpected end of JSON input")))
      as (Hcut & _); try (vm_compute; reflexivity).
    + vm_compute. discriminate.
    + split; [exact Hold|]. split; [|exact Hcut].
      apply (Hnew Sample.noSegmentsData). vm_compute. reflexivity.
Defined.

Lemma legacy_waits_witness :
  GeminiService.transient
    (Sample.syntaxError (lit "Unterminated string in JSON at position 138")) = true
  /\ exists m a b,
       message (Sample.syntaxError
                  (lit "Unterminated string in JSON at position 138")) = Some m
       /\ m = a ++ lit "Unterminated" ++ b.
Proof.
  destruct (@legacy_processMedia_waits_two_seconds Sample.down Sample.media
              Sample.mime 0 2
              (Sample.syntaxError
                 (lit "Unterminated string in JSON at position 138")))
    as (_ & _ & Honly).
  split; [reflexivity|]. apply Honly; reflexivity.
Defined.

(* ------------------------------------------------------------------ *)
(** ** Opening a recording and saving it again *)

Section RoundTrips.

Import App.

Lemma replace_same (rec : Recording.t) (l : list Recording.t) :
  In rec l ->
  NoDup (map Recording.id l) ->
  map (fun r => if eqb (Recording.id r) (Recording.id rec) then rec else r) l
  = l.
Proof.
  intros Hin Hnd. apply in_split in Hin as (pre & post & ->).
  exact (replace_split rec rec pre post eq_refl Hnd).
Qed.

Lemma replace_twice (u v : Recording.t) (l : list Recording.t) :
  Recording.id v = Recording.id u ->
  map (fun r => if eqb (Recording.id r) (Recording.id v) then v else r)
    (map (fun r => if eqb (Recording.id r) (Recording.id u) then u else r) l)
  = map (fun r => if eqb (Recording.id r) (Recording.id u) then v else r) l.
Proof.
  intros Hid. rewrite map_map. apply map_ext. intros r. rewrite Hid.
  destruct (eqb (Recording.id r) (Recording.id u)) eqn:He.
  - rewrite eqb_refl. reflexivity.
  - rewrite He. reflexivity.
Qed.

(** X27: opening a recording in the dashboard and saving its metadata
    without an edit hands the store that recording with its missing
    remarks and attendees filled in as empty and everything else as it
    was; for a recording of the store that has both, the store is not
    changed at all. *)
Theorem opening_and_saving_unedited_keeps_the_recording
    (r : Recording.t) (d : Dashboard.State) (isEditingMetadata : bool)
    (st : State) :
  exists r',
    DashboardHandlers.handleUpdateMetadata isEditingMetadata
      (Dashboard.syncInitial (Some r) d) = (Some r', false)
    /\ Recording.remarks r' = Some (orElse (Recording.remarks r) [])
    /\ Recording.attendees r'
       = Some (match Recording.attendees r with Some l => l | None => [] end)
    /\ r' = DashboardHandlers.withMetadata r
              (Recording.subject r) (Recording.projectName r)
              (Recording.meetingDate r)
              (orElse (Recording.remarks r) [])
              (match Recording.attendees r with Some l => l | None => [] end)
    /\ (Recording.remarks r <> None -> Recording.attendees r <> None ->
        r' = r
        /\ (In r (recordings st) ->
            NoDup (map Recording.id (recordings st)) ->
            recordings (updateRecording r' st) = recordings st)).
Proof.
  eexists. split; [reflexivity|].
  split; [reflexivity|]. split; [reflexivity|]. split; [reflexivity|].
  intros Hrem Hatt.
  assert (Hsame : DashboardHandlers.withMetadata r
              (Recording.subject r) (Recording.projectName r)
              (Recording.meetingDate r)
              (orElse (Recording.remarks r) [])
              (match Recording.attendees r with Some l => l | None => [] end)
            = r).
  { destruct r as [i n p s t f dc md [[|c rm]|] b mu [at_|]];
      try reflexivity; cbn in *; congruence. }
  split; [exact Hsame|].
  intros Hin Hnd. cbn [Dashboard.activeRecording Dashboard.syncInitial
                       Dashboard.subject Dashboard.projectName
                       Dashboard.meetingDate Dashboard.remarks
                       Dashboard.attendees].
  rewrite Hsame, updateRecording_recordings.
  apply replace_same; assumption.
Qed.

(** X28: toggling the bookmark of a recording of the store twice gives
    every recording the bookmark state it had; the store itself is
    restored when the flag was present, while a recording without the
    flag ends with the flag set to false. *)
Theorem toggling_a_bookmark_twice_restores_it
    (rec : Recording.t) (st : State) :
  In rec (recordings st) ->
  NoDup (map Recording.id (recordings st)) ->
  let once := Recording.withIsBookmarked rec (KnowledgeBase.notBookmarked rec) in
  let st2 := KnowledgeBase.toggleBookmark once (KnowledgeBase.toggleBookmark rec st) in
  map KnowledgeBase.notBookmarked (recordings st2)
    = map KnowledgeBase.notBookmarked (recordings st)
  /\ map Recording.id (recordings st2) = map Recording.id (recordings st)
  /\ (Recording.isBookmarked rec <> None -> recordings st2 = recordings st)
  /\ (Recording.isBookmarked rec = None ->
      exists pre post,
        recordings st = pre ++ rec :: post
        /\ recordings st2
           = pre ++ Recording.withIsBookmarked rec false :: post).
Proof.
  intros Hin Hnd once st2.
  set (twice := Recording.withIsBookmarked once (KnowledgeBase.notBookmarked once)).
  assert (Hst2 : recordings st2
     = map (fun r => if eqb (Recording.id r) (Recording.id rec) then twice else r)
           (recordings st)).
  { unfold st2, KnowledgeBase.toggleBookmark.
    rewrite !updateRecording_recordings.
    exact (replace_twice once twice (recordings st) eq_refl). }
  apply in_split in Hin as (pre & post & Hsplit).
  assert (Hplace : recordings st2 = pre ++ twice :: post).
  { rewrite Hst2, Hsplit. rewrite Hsplit in Hnd.
    exact (replace_split twice rec pre post eq_refl Hnd). }
  assert (Hflag : KnowledgeBase.notBookmarked twice = KnowledgeBase.notBookmarked rec).
  { unfold twice, once, KnowledgeBase.notBookmarked. cbn.
    destruct (Recording.isBookmarked rec) as [[|]|]; reflexivity. }
  split; [|split; [|split]].
  - rewrite Hplace, Hsplit, !map_app. cbn [map]. rewrite Hflag. reflexivity.
  - rewrite Hplace, Hsplit, !map_app. reflexivity.
  - intros Hset. rewrite Hplace, Hsplit. f_equal. f_equal.
    unfold twice, once, KnowledgeBase.notBookmarked.
    clear - Hset.
    destruct rec as [i n p s t f dc md rm [[|]|] mu at_];
      try reflexivity; cbn in Hset; congruence.
  - intros Hnone. exists pre, post. split; [exact Hsplit|].
    rewrite Hplace. f_equal. f_equal.
    unfold twice, once, KnowledgeBase.notBookmarked. cbn. rewrite Hnone.
    reflexivity.
Qed.

(** X29: the dashboard shows the queue as busy exactly when some item
    is pending or processing.  When it is not busy a run of the effect
    starts no job and leaves the queue as it is; and when the effect
    starts a job the dashboard is busy before and after. *)
Theorem dashboard_is_busy_until_the_queue_is_settled (st : State) :
  (DashboardHandlers.isProcessing (processingQueue st) = false
   <-> Forall (fun q => QueueItem.status q = done \/ QueueItem.status q = error)
         (processingQueue st))
  /\ (DashboardHandlers.isProcessing (processingQueue st) = false ->
      processingQueue (fst (schedulingEffect st)) = processingQueue st
      /\ forall item n, snd (schedulingEffect st) <> StartedJob item n)
  /\ (forall item n,
        snd (schedulingEffect st) = StartedJob item n ->
        DashboardHandlers.isProcessing (processingQueue st) = true
        /\ DashboardHandlers.isProcessing
             (processingQueue (fst (schedulingEffect st))) = true).
Proof.
  assert (Hidle : forall queue,
     DashboardHandlers.isProcessing queue = false
     <-> Forall (fun q => QueueItem.status q = done \/ QueueItem.status q = error)
           queue).
  { intros queue. unfold DashboardHandlers.isProcessing.
    induction queue as [|q queue IH]; cbn [existsb].
    - split; auto.
    - rewrite orb_false_iff, IH. unfold hasStatus.
      split.
      + intros [Hq Hall]. constructor; [|exact Hall].
        destruct (QueueItem.status q); cbn in Hq; try discriminate; auto.
      + intros Hall. inversion Hall as [|? ? [Hq | Hq] Hrest]; subst;
          rewrite Hq; auto. }
  assert (Hbusy : forall queue,
     someProcessing queue = true -> DashboardHandlers.isProcessing queue = true).
  { intros queue H. unfold someProcessing in H.
    apply existsb_exists in H as (q & Hin & Hq).
    unfold DashboardHandlers.isProcessing. apply existsb_exists.
    exists q. rewrite Hq. auto. }
  assert (Hwait : forall queue item,
     nextItem queue = Some item -> DashboardHandlers.isProcessing queue = true).
  { intros queue item H. apply find_some in H as [Hin Hq].
    unfold DashboardHandlers.isProcessing. apply existsb_exists.
    exists item. rewrite Hq, orb_true_r. auto. }
  split; [apply Hidle|].
  destruct (schedulingEffect_cases st)
    as [(item & Hnext & Hfree & Heff) | [(Hproc & Heff)
        | (Hnext & Hfree & started & Heff & Hstarted)]]; rewrite Heff; cbn [fst snd].
  - split.
    + intros Hidle'. rewrite (Hwait _ _ Hnext) in Hidle'. discriminate.
    + intros item' n H. injection H as <- <-.
      split; [exact (Hwait _ _ Hnext)|].
      cbn [processingQueue setProcessingQueue setIsProcessingGlobal].
      apply Hbusy. apply markStatus_processing_busy.
      apply find_some in Hnext as [Hin _]. exact Hin.
  - split.
    + intros _. split; [reflexivity | discriminate].
    + intros item n H. discriminate H.
  - split.
    + intros _. split; [reflexivity|].
      intros item n H. destruct Hstarted as [-> | ->]; discriminate H.
    + intros item n H. destruct Hstarted as [-> | ->]; discriminate H.
Qed.

End RoundTrips.

Lemma open_and_save_witness :
  exists r',
    DashboardHandlers.handleUpdateMetadata true
      (Dashboard.syncInitial (Some Sample.recB) Dashboard.initial)
    = (Some r', false)
    /\ App.recordings (App.updateRecording r' Sample.store)
       = App.recordings Sample.store.
Proof.
  destruct (opening_and_saving_unedited_keeps_the_recording Sample.recB
              Dashboard.initial true Sample.store)
    as (r' & Hcall & _ & _ & _ & Hsame).
  exists r'. split; [exact Hcall|].
  destruct Hsame as (_ & Hstore); try (vm_compute; discriminate).
  apply Hstore; [left; reflexivity | exact sample_store_ids].
Defined.

Lemma toggle_twice_witness :
  App.recordings
    (KnowledgeBase.toggleBookmark
       (Recording.withIsBookmarked Sample.recB
          (KnowledgeBase.notBookmarked Sample.recB))
       (KnowledgeBase.toggleBookmark Sample.recB Sample.store))
  = App.recordings Sample.store.
Proof.
  destruct (@toggling_a_bookmark_twice_restores_it Sample.recB Sample.store)
    as (_ & _ & Hset & _).
  - left. reflexivity.
  - exact sample_store_ids.
  - apply Hset. vm_compute. discriminate.
Defined.

Lemma dashboard_busy_witness :
  DashboardHandlers.isProcessing (App.processingQueue Scenario.threeUploaded) = true
  /\ DashboardHandlers.isProcessing (App.processingQueue Cases.settled) = false.
Proof.
  destruct (dashboard_is_busy_until_the_queue_is_settled Scenario.threeUploaded)
    as (_ & _ & Hjob).
  destruct (dashboard_is_busy_until_the_queue_is_settled Cases.settled)
    as (Hidle & _).
  split.
  - destruct (Hjob Cases.itemA 3) as (Hbefore & _);
      [vm_compute; reflexivity | exact Hbefore].
  - apply Hidle. constructor; [right; reflexivity | constructor].
Defined.
